(** * bimg: the geometry and operation-ordering engine of [resizer.go]

    A shallow embedding of the image-transformation pipeline of bimg
    ([resizer.go] and the [VipsImage] wrapper) together with the properties
    its specification states about it.

    - Go's [int] is a 64-bit two's-complement integer: it is modelled as [Z]
      with the wrap-around written out ([GoInt.wrap]).
    - Go's [float64] is IEEE 754 binary64: it is modelled with the Standard
      Library's executable specification of binary floating point
      ([SpecFloat], precision 53, maximal exponent 1024).
    - The libvips binding is not part of the two source files: it is an
      interface ([Vips]) whose operations thread an abstract native state.
    - Functions that call the binding live in a small state monad with a
      panic outcome (dereferencing a nil [*C.VipsImage]). *)

From Stdlib Require Import ZArith Bool List String Lia.
From Stdlib Require Import Sorting.Sorted.
From Stdlib Require Import Floats.SpecFloat.
Import ListNotations.

Local Open Scope Z_scope.

(* ================================================================== *)
(** ** Go's [int] *)

Module GoInt.

Definition min_int : Z := - 2 ^ 63.
Definition max_int : Z := 2 ^ 63 - 1.

(** Two's-complement wrap-around of a mathematical integer into [int]. *)
Definition wrap (z : Z) : Z := (z + 2 ^ 63) mod 2 ^ 64 - 2 ^ 63.

Definition in_range (z : Z) : Prop := min_int <= z <= max_int.

Definition add (a b : Z) : Z := wrap (a + b).
Definition sub (a b : Z) : Z := wrap (a - b).
(** [a / b] truncates toward zero; [a % b] takes the sign of [a]. *)
Definition div (a b : Z) : Z := wrap (Z.quot a b).
Definition rem (a b : Z) : Z := Z.rem a b.

End GoInt.

(* ================================================================== *)
(** ** Go's [float64] and the part of package [math] the resizer uses *)

Module F64.

Definition prec : Z := 53.
Definition emax : Z := 1024.

Definition float64 : Type := spec_float.

Definition add : float64 -> float64 -> float64 := SFadd prec emax.
Definition sub : float64 -> float64 -> float64 := SFsub prec emax.
Definition mul : float64 -> float64 -> float64 := SFmul prec emax.
Definition div : float64 -> float64 -> float64 := SFdiv prec emax.
Definition neg : float64 -> float64 := SFopp.

Definition ltb (x y : float64) : bool := SFltb x y.
Definition leb (x y : float64) : bool := SFleb x y.
Definition eqb (x y : float64) : bool := SFeqb x y.
Definition gtb (x y : float64) : bool := SFltb y x.
Definition geb (x y : float64) : bool := SFleb y x.
(** [x != y] is true when either side is a NaN. *)
Definition neb (x y : float64) : bool := negb (SFeqb x y).

(** [float64(n)] for an [int] [n]: round to nearest, ties to even. *)
Definition of_int (z : Z) : float64 := binary_normalize prec emax z 0 false.

Definition zero : float64 := S754_zero false.
Definition one : float64 := of_int 1.
Definition half : float64 := div (of_int 1) (of_int 2).

(** The result of converting a value that [int] cannot represent is
    implementation-dependent in Go; amd64 yields the "integer indefinite"
    value [0x8000000000000000].  No theorem below depends on this value. *)
Definition indefinite : Z := GoInt.min_int.

(** The integer part of a finite float, rounding toward zero. *)
Definition trunc_finite (s : bool) (m : positive) (e : Z) : Z :=
  let v := if 0 <=? e then Z.pos m * 2 ^ e else Z.pos m / 2 ^ (- e) in
  if s then - v else v.

(** [int(f)]. *)
Definition to_int (f : float64) : Z :=
  match f with
  | S754_zero _ => 0
  | S754_finite s m e =>
      let r := trunc_finite s m e in
      if (GoInt.min_int <=? r) && (r <=? GoInt.max_int) then r else indefinite
  | S754_infinity _ | S754_nan => indefinite
  end.

Definition signbit (f : float64) : bool :=
  match f with
  | S754_zero s | S754_infinity s | S754_finite s _ _ => s
  | S754_nan => false
  end.

Definition is_nan (f : float64) : bool :=
  match f with S754_nan => true | _ => false end.

Definition is_inf (f : float64) (sign : bool) : bool :=
  match f with S754_infinity s => Bool.eqb s sign | _ => false end.

(** [math.Floor]: the greatest integer value not above [f]; zeros,
    infinities and NaN are returned unchanged. *)
Definition floor (f : float64) : float64 :=
  match f with
  | S754_finite s m e =>
      if 0 <=? e then f
      else
        let q := Z.pos m / 2 ^ (- e) in
        let exact := Z.pos m mod 2 ^ (- e) =? 0 in
        if s then binary_normalize prec emax (- (if exact then q else q + 1)) 0 true
        else binary_normalize prec emax q 0 false
  | _ => f
  end.

(** [math.Ceil(x)] is [-Floor(-x)]. *)
Definition ceil (f : float64) : float64 := neg (floor (neg f)).

(** [math.Min], with its special cases in the order of the Go source. *)
Definition min (x y : float64) : float64 :=
  if is_inf x true || is_inf y true then S754_infinity true
  else if is_nan x || is_nan y then S754_nan
  else if eqb x zero && eqb x y then (if signbit x then x else y)
  else if ltb x y then x else y.

(** [math.Max]. *)
Definition max (x y : float64) : float64 :=
  if is_inf x false || is_inf y false then S754_infinity false
  else if is_nan x || is_nan y then S754_nan
  else if eqb x zero && eqb x y then (if signbit x then y else x)
  else if gtb x y then x else y.

End F64.

Definition float64 : Type := F64.float64.

(* ================================================================== *)
(** ** Data model

    Modelled from the spec: the type declarations of the package
    ([Options], [Gravity], [Angle], [ImageType], [Watermark], ...) are not
    among the source files; the fields and enumerators below are the ones
    [resizer.go] reads and writes, with the types its expressions force. *)

(** Modelled from the spec: the [Gravity] enumeration {Center (default),
    North, South, East, West, Smart}, whose declaration is not among the
    source files.  The switch of [calculateCrop] treats every value other
    than North, East, South and West as the centre. *)
Inductive GravityT : Type :=
  | GravityCentre
  | GravityNorth
  | GravityEast
  | GravitySouth
  | GravityWest
  | GravitySmart.

Definition Gravity_eqb (a b : GravityT) : bool :=
  match a, b with
  | GravityCentre, GravityCentre | GravityNorth, GravityNorth
  | GravityEast, GravityEast | GravitySouth, GravitySouth
  | GravityWest, GravityWest | GravitySmart, GravitySmart => true
  | _, _ => false
  end.

(** Modelled from the spec: the detected or requested format [ImageType],
    whose declaration is not among the source files.  [UNKNOWN] is the zero
    value tested by [o.Type == 0]; [JPEG], [WEBP] and [PNG] are the formats
    the resizer names. *)
Inductive ImageType : Type :=
  | UNKNOWN
  | JPEG
  | WEBP
  | PNG
  | OtherType (code : nat).

Definition ImageType_eqb (a b : ImageType) : bool :=
  match a, b with
  | UNKNOWN, UNKNOWN | JPEG, JPEG | WEBP, WEBP | PNG, PNG => true
  | OtherType n, OtherType m => Nat.eqb n m
  | _, _ => false
  end.

(** Modelled from the spec: [Angle], an integer number of degrees (the
    resizer takes [angle % 90]); its declaration is not among the source
    files. *)
Definition Angle : Type := Z.
Definition D0 : Angle := 0.
Definition D90 : Angle := 90.
Definition D180 : Angle := 180.
Definition D270 : Angle := 270.

(** Modelled from the spec: the axis of a flip, whose declaration is not
    among the source files. *)
Inductive Direction : Type := Horizontal | Vertical.

(** Modelled from the spec: the interpolator, interpretation and extend
    enumerations, integer-valued and only passed along by the resizer (the
    zero [Interpretation] is tested by [applyDefaults]); their declarations
    are not among the source files. *)
Definition InterpolatorT : Type := Z.
Definition InterpretationT : Type := Z.
Definition ExtendT : Type := Z.

(** Modelled from the spec: the background colour, compared with
    [ColorBlack] by [imageFlatten]; its declaration is not among the source
    files. *)
Record Color : Type := mkColor { R : Z; G : Z; B : Z }.
Definition ColorBlack : Color := mkColor 0 0 0.
Definition Color_eqb (a b : Color) : bool :=
  (R a =? R b) && (G a =? G b) && (B a =? B b).

(** Modelled from the spec: GaussianBlur{Sigma, MinAmpl}, whose declaration
    is not among the source files. *)
Record GaussianBlurT : Type := mkGaussianBlur {
  Sigma : float64;
  MinAmpl : float64
}.

(** Modelled from the spec: Sharpen{Radius, Y2, Y3} and the parameters
    passed along with them; the declaration is not among the source files. *)
Record SharpenT : Type := mkSharpen {
  Radius : Z;
  X1 : float64;
  Y2 : float64;
  Y3 : float64;
  M1 : float64;
  M2 : float64
}.

(** Modelled from the spec: the text [Watermark], whose declaration is not
    among the source files.  Its fields carry the prefix [wm] to keep them
    apart from the fields of [Options] with the same Go name. *)
Record WatermarkT : Type := mkWatermark {
  wmWidth : Z;
  wmDPI : Z;
  wmMargin : Z;
  wmOpacity : float64;
  wmNoReplicate : bool;
  wmText : string;
  wmFont : string;
  wmBackground : Color
}.

(** Modelled from the spec: the overlay [WatermarkImage], whose declaration
    is not among the source files; fields prefixed with [wi]. *)
Record WatermarkImageT : Type := mkWatermarkImage {
  wiLeft : Z;
  wiTop : Z;
  wiBuf : list Byte.byte;
  wiOpacity : float64
}.

(** Modelled from the spec: [Options], whose declaration is not among the
    source files; the fields are those of section 3 of the specification
    that [resizer.go] reads or writes.  [Type_] is the field [Type]. *)
Record Options : Type := mkOptions {
  Height : Z;
  Width : Z;
  AreaHeight : Z;
  AreaWidth : Z;
  Top : Z;
  Left : Z;
  Quality : Z;
  Compression : Z;
  Zoom : Z;
  Crop : bool;
  SmartCrop : bool;
  Enlarge : bool;
  Embed : bool;
  Flip : bool;
  Flop : bool;
  Force : bool;
  NoAutoRotate : bool;
  NoProfile : bool;
  Interlace : bool;
  StripMetadata : bool;
  Trim : bool;
  Lossless : bool;
  Extend : ExtendT;
  Rotate : Angle;
  Background : Color;
  Gravity : GravityT;
  Watermark : WatermarkT;
  WatermarkImage : WatermarkImageT;
  Type_ : ImageType;
  Interpolator : InterpolatorT;
  Interpretation : InterpretationT;
  GaussianBlur : GaussianBlurT;
  Sharpen : SharpenT;
  Threshold : float64;
  OutputICC : string;
  MaxWidth : Z;
  MaxHeight : Z;
  MinWidth : Z;
  MinHeight : Z
}.

(** Assignments [o.F = v] to the fields the resizer writes. *)
Definition set_Height (v : Z) (o : Options) : Options :=
    mkOptions v (Width o) (AreaHeight o) (AreaWidth o) (Top o) (Left o)
      (Quality o) (Compression o) (Zoom o) (Crop o) (SmartCrop o) (Enlarge o)
      (Embed o) (Flip o) (Flop o) (Force o) (NoAutoRotate o) (NoProfile o)
      (Interlace o) (StripMetadata o) (Trim o) (Lossless o) (Extend o)
      (Rotate o) (Background o) (Gravity o) (Watermark o) (WatermarkImage o)
      (Type_ o) (Interpolator o) (Interpretation o) (GaussianBlur o)
      (Sharpen o) (Threshold o) (OutputICC o) (MaxWidth o) (MaxHeight o)
      (MinWidth o) (MinHeight o).

Definition set_Width (v : Z) (o : Options) : Options :=
    mkOptions (Height o) v (AreaHeight o) (AreaWidth o) (Top o) (Left o)
      (Quality o) (Compression o) (Zoom o) (Crop o) (SmartCrop o) (Enlarge o)
      (Embed o) (Flip o) (Flop o) (Force o) (NoAutoRotate o) (NoProfile o)
      (Interlace o) (StripMetadata o) (Trim o) (Lossless o) (Extend o)
      (Rotate o) (Background o) (Gravity o) (Watermark o) (WatermarkImage o)
      (Type_ o) (Interpolator o) (Interpretation o) (GaussianBlur o)
      (Sharpen o) (Threshold o) (OutputICC o) (MaxWidth o) (MaxHeight o)
      (MinWidth o) (MinHeight o).

Definition set_AreaHeight (v : Z) (o : Options) : Options :=
    mkOptions (Height o) (Width o) v (AreaWidth o) (Top o) (Left o)
      (Quality o) (Compression o) (Zoom o) (Crop o) (SmartCrop o) (Enlarge o)
      (Embed o) (Flip o) (Flop o) (Force o) (NoAutoRotate o) (NoProfile o)
      (Interlace o) (StripMetadata o) (Trim o) (Lossless o) (Extend o)
      (Rotate o) (Background o) (Gravity o) (Watermark o) (WatermarkImage o)
      (Type_ o) (Interpolator o) (Interpretation o) (GaussianBlur o)
      (Sharpen o) (Threshold o) (OutputICC o) (MaxWidth o) (MaxHeight o)
      (MinWidth o) (MinHeight o).

Definition set_AreaWidth (v : Z) (o : Options) : Options :=
    mkOptions (Height o) (Width o) (AreaHeight o) v (Top o) (Left o)
      (Quality o) (Compression o) (Zoom o) (Crop o) (SmartCrop o) (Enlarge o)
      (Embed o) (Flip o) (Flop o) (Force o) (NoAutoRotate o) (NoProfile o)
      (Interlace o) (StripMetadata o) (Trim o) (Lossless o) (Extend o)
      (Rotate o) (Background o) (Gravity o) (Watermark o) (WatermarkImage o)
      (Type_ o) (Interpolator o) (Interpretation o) (GaussianBlur o)
      (Sharpen o) (Threshold o) (OutputICC o) (MaxWidth o) (MaxHeight o)
      (MinWidth o) (MinHeight o).

Definition set_Quality (v : Z) (o : Options) : Options :=
    mkOptions (Height o) (Width o) (AreaHeight o) (AreaWidth o) (Top o)
      (Left o) v (Compression o) (Zoom o) (Crop o) (SmartCrop o) (Enlarge o)
      (Embed o) (Flip o) (Flop o) (Force o) (NoAutoRotate o) (NoProfile o)
      (Interlace o) (StripMetadata o) (Trim o) (Lossless o) (Extend o)
      (Rotate o) (Background o) (Gravity o) (Watermark o) (WatermarkImage o)
      (Type_ o) (Interpolator o) (Interpretation o) (GaussianBlur o)
      (Sharpen o) (Threshold o) (OutputICC o) (MaxWidth o) (MaxHeight o)
      (MinWidth o) (MinHeight o).

Definition set_Compression (v : Z) (o : Options) : Options :=
    mkOptions (Height o) (Width o) (AreaHeight o) (AreaWidth o) (Top o)
      (Left o) (Quality o) v (Zoom o) (Crop o) (SmartCrop o) (Enlarge o)
      (Embed o) (Flip o) (Flop o) (Force o) (NoAutoRotate o) (NoProfile o)
      (Interlace o) (StripMetadata o) (Trim o) (Lossless o) (Extend o)
      (Rotate o) (Background o) (Gravity o) (Watermark o) (WatermarkImage o)
      (Type_ o) (Interpolator o) (Interpretation o) (GaussianBlur o)
      (Sharpen o) (Threshold o) (OutputICC o) (MaxWidth o) (MaxHeight o)
      (MinWidth o) (MinHeight o).

Definition set_Crop (v : bool) (o : Options) : Options :=
    mkOptions (Height o) (Width o) (AreaHeight o) (AreaWidth o) (Top o)
      (Left o) (Quality o) (Compression o) (Zoom o) v (SmartCrop o)
      (Enlarge o) (Embed o) (Flip o) (Flop o) (Force o) (NoAutoRotate o)
      (NoProfile o) (Interlace o) (StripMetadata o) (Trim o) (Lossless o)
      (Extend o) (Rotate o) (Background o) (Gravity o) (Watermark o)
      (WatermarkImage o) (Type_ o) (Interpolator o) (Interpretation o)
      (GaussianBlur o) (Sharpen o) (Threshold o) (OutputICC o) (MaxWidth o)
      (MaxHeight o) (MinWidth o) (MinHeight o).

Definition set_Embed (v : bool) (o : Options) : Options :=
    mkOptions (Height o) (Width o) (AreaHeight o) (AreaWidth o) (Top o)
      (Left o) (Quality o) (Compression o) (Zoom o) (Crop o) (SmartCrop o)
      (Enlarge o) v (Flip o) (Flop o) (Force o) (NoAutoRotate o) (NoProfile o)
      (Interlace o) (StripMetadata o) (Trim o) (Lossless o) (Extend o)
      (Rotate o) (Background o) (Gravity o) (Watermark o) (WatermarkImage o)
      (Type_ o) (Interpolator o) (Interpretation o) (GaussianBlur o)
      (Sharpen o) (Threshold o) (OutputICC o) (MaxWidth o) (MaxHeight o)
      (MinWidth o) (MinHeight o).

Definition set_Flip (v : bool) (o : Options) : Options :=
    mkOptions (Height o) (Width o) (AreaHeight o) (AreaWidth o) (Top o)
      (Left o) (Quality o) (Compression o) (Zoom o) (Crop o) (SmartCrop o)
      (Enlarge o) (Embed o) v (Flop o) (Force o) (NoAutoRotate o)
      (NoProfile o) (Interlace o) (StripMetadata o) (Trim o) (Lossless o)
      (Extend o) (Rotate o) (Background o) (Gravity o) (Watermark o)
      (WatermarkImage o) (Type_ o) (Interpolator o) (Interpretation o)
      (GaussianBlur o) (Sharpen o) (Threshold o) (OutputICC o) (MaxWidth o)
      (MaxHeight o) (MinWidth o) (MinHeight o).

Definition set_Force (v : bool) (o : Options) : Options :=
    mkOptions (Height o) (Width o) (AreaHeight o) (AreaWidth o) (Top o)
      (Left o) (Quality o) (Compression o) (Zoom o) (Crop o) (SmartCrop o)
      (Enlarge o) (Embed o) (Flip o) (Flop o) v (NoAutoRotate o) (NoProfile o)
      (Interlace o) (StripMetadata o) (Trim o) (Lossless o) (Extend o)
      (Rotate o) (Background o) (Gravity o) (Watermark o) (WatermarkImage o)
      (Type_ o) (Interpolator o) (Interpretation o) (GaussianBlur o)
      (Sharpen o) (Threshold o) (OutputICC o) (MaxWidth o) (MaxHeight o)
      (MinWidth o) (MinHeight o).

Definition set_Rotate (v : Angle) (o : Options) : Options :=
    mkOptions (Height o) (Width o) (AreaHeight o) (AreaWidth o) (Top o)
      (Left o) (Quality o) (Compression o) (Zoom o) (Crop o) (SmartCrop o)
      (Enlarge o) (Embed o) (Flip o) (Flop o) (Force o) (NoAutoRotate o)
      (NoProfile o) (Interlace o) (StripMetadata o) (Trim o) (Lossless o)
      (Extend o) v (Background o) (Gravity o) (Watermark o) (WatermarkImage o)
      (Type_ o) (Interpolator o) (Interpretation o) (GaussianBlur o)
      (Sharpen o) (Threshold o) (OutputICC o) (MaxWidth o) (MaxHeight o)
      (MinWidth o) (MinHeight o).

Definition set_Type (v : ImageType) (o : Options) : Options :=
    mkOptions (Height o) (Width o) (AreaHeight o) (AreaWidth o) (Top o)
      (Left o) (Quality o) (Compression o) (Zoom o) (Crop o) (SmartCrop o)
      (Enlarge o) (Embed o) (Flip o) (Flop o) (Force o) (NoAutoRotate o)
      (NoProfile o) (Interlace o) (StripMetadata o) (Trim o) (Lossless o)
      (Extend o) (Rotate o) (Background o) (Gravity o) (Watermark o)
      (WatermarkImage o) v (Interpolator o) (Interpretation o)
      (GaussianBlur o) (Sharpen o) (Threshold o) (OutputICC o) (MaxWidth o)
      (MaxHeight o) (MinWidth o) (MinHeight o).

Definition set_Interpretation (v : InterpretationT) (o : Options) : Options :=
    mkOptions (Height o) (Width o) (AreaHeight o) (AreaWidth o) (Top o)
      (Left o) (Quality o) (Compression o) (Zoom o) (Crop o) (SmartCrop o)
      (Enlarge o) (Embed o) (Flip o) (Flop o) (Force o) (NoAutoRotate o)
      (NoProfile o) (Interlace o) (StripMetadata o) (Trim o) (Lossless o)
      (Extend o) (Rotate o) (Background o) (Gravity o) (Watermark o)
      (WatermarkImage o) (Type_ o) (Interpolator o) v (GaussianBlur o)
      (Sharpen o) (Threshold o) (OutputICC o) (MaxWidth o) (MaxHeight o)
      (MinWidth o) (MinHeight o).

(** Further assignments, used to write down example options. *)
Definition set_Top (v : Z) (o : Options) : Options :=
    mkOptions (Height o) (Width o) (AreaHeight o) (AreaWidth o) v (Left o)
      (Quality o) (Compression o) (Zoom o) (Crop o) (SmartCrop o) (Enlarge o)
      (Embed o) (Flip o) (Flop o) (Force o) (NoAutoRotate o) (NoProfile o)
      (Interlace o) (StripMetadata o) (Trim o) (Lossless o) (Extend o)
      (Rotate o) (Background o) (Gravity o) (Watermark o) (WatermarkImage o)
      (Type_ o) (Interpolator o) (Interpretation o) (GaussianBlur o)
      (Sharpen o) (Threshold o) (OutputICC o) (MaxWidth o) (MaxHeight o)
      (MinWidth o) (MinHeight o).

Definition set_SmartCrop (v : bool) (o : Options) : Options :=
    mkOptions (Height o) (Width o) (AreaHeight o) (AreaWidth o) (Top o)
      (Left o) (Quality o) (Compression o) (Zoom o) (Crop o) v (Enlarge o)
      (Embed o) (Flip o) (Flop o) (Force o) (NoAutoRotate o) (NoProfile o)
      (Interlace o) (StripMetadata o) (Trim o) (Lossless o) (Extend o)
      (Rotate o) (Background o) (Gravity o) (Watermark o) (WatermarkImage o)
      (Type_ o) (Interpolator o) (Interpretation o) (GaussianBlur o)
      (Sharpen o) (Threshold o) (OutputICC o) (MaxWidth o) (MaxHeight o)
      (MinWidth o) (MinHeight o).

Definition set_Sharpen (v : SharpenT) (o : Options) : Options :=
    mkOptions (Height o) (Width o) (AreaHeight o) (AreaWidth o) (Top o)
      (Left o) (Quality o) (Compression o) (Zoom o) (Crop o) (SmartCrop o)
      (Enlarge o) (Embed o) (Flip o) (Flop o) (Force o) (NoAutoRotate o)
      (NoProfile o) (Interlace o) (StripMetadata o) (Trim o) (Lossless o)
      (Extend o) (Rotate o) (Background o) (Gravity o) (Watermark o)
      (WatermarkImage o) (Type_ o) (Interpolator o) (Interpretation o)
      (GaussianBlur o) v (Threshold o) (OutputICC o) (MaxWidth o)
      (MaxHeight o) (MinWidth o) (MinHeight o).

Definition set_NoAutoRotate (v : bool) (o : Options) : Options :=
  mkOptions (Height o) (Width o) (AreaHeight o) (AreaWidth o) (Top o) (Left o)
    (Quality o) (Compression o) (Zoom o) (Crop o) (SmartCrop o) (Enlarge o)
    (Embed o) (Flip o) (Flop o) (Force o) v (NoProfile o) (Interlace o)
    (StripMetadata o) (Trim o) (Lossless o) (Extend o) (Rotate o)
    (Background o) (Gravity o) (Watermark o) (WatermarkImage o) (Type_ o)
    (Interpolator o) (Interpretation o) (GaussianBlur o) (Sharpen o)
    (Threshold o) (OutputICC o) (MaxWidth o) (MaxHeight o) (MinWidth o)
    (MinHeight o).

Definition set_GaussianBlur (v : GaussianBlurT) (o : Options) : Options :=
  mkOptions (Height o) (Width o) (AreaHeight o) (AreaWidth o) (Top o) (Left o)
    (Quality o) (Compression o) (Zoom o) (Crop o) (SmartCrop o) (Enlarge o)
    (Embed o) (Flip o) (Flop o) (Force o) (NoAutoRotate o) (NoProfile o)
    (Interlace o) (StripMetadata o) (Trim o) (Lossless o) (Extend o)
    (Rotate o) (Background o) (Gravity o) (Watermark o) (WatermarkImage o)
    (Type_ o) (Interpolator o) (Interpretation o) v (Sharpen o) (Threshold o)
    (OutputICC o) (MaxWidth o) (MaxHeight o) (MinWidth o) (MinHeight o).

(** Errors.  [ErrExtractAreaParamsRequired] is the package-level sentinel;
    every call of [errors.New] or [fmt.Errorf] inside a function makes a new
    error value, equal to no sentinel; [VipsError] is an error reported by
    the binding. *)
Inductive error : Type :=
  | ErrExtractAreaParamsRequired
  | errors_New (msg : string)
  | fmt_Errorf (msg : string)
  | VipsError (msg : string).

(** The [Error()] text of an error value. *)
Definition error_message (e : error) : string :=
  match e with
  | ErrExtractAreaParamsRequired => "extract area width/height params are required"
  | errors_New msg | fmt_Errorf msg | VipsError msg => msg
  end.

(* ================================================================== *)
(** ** The libvips binding

    The binding ([vips.go] and the C bridge) is outside the two source
    files: its operations, the package constants and the fields of the C
    image struct are the parameters of the development.  An operation reads
    and updates the native state [World] and returns what the Go signature
    returns, a handle together with an error. *)

(** A [*C.VipsImage]: [None] is the nil pointer. *)
Definition ptr (Image : Type) : Type := option Image.

Record Vips (World Image : Type) : Type := mkVips {
  (** the fields [Xsize] and [Ysize] of a [C.VipsImage] *)
  Xsize : Image -> Z;
  Ysize : Image -> Z;
  (** package constants: [Quality], [InterpretationSRGB], [WatermarkFont],
      [VipsMajorVersion], [VipsMinorVersion] *)
  DefaultQuality : Z;
  InterpretationSRGB : InterpretationT;
  WatermarkFont : string;
  VipsMajorVersion : Z;
  VipsMinorVersion : Z;
  IsTypeSupported : ImageType -> bool;
  ImageTypeName : ImageType -> string;
  (** [Interpolator.String] *)
  InterpolatorString : InterpolatorT -> string;
  vipsWindowSize : string -> float64;
  vipsExifOrientation : ptr Image -> World -> Z * World;
  vipsRotate : ptr Image -> Angle -> World -> (ptr Image * option error) * World;
  vipsFlip : ptr Image -> Direction -> World -> (ptr Image * option error) * World;
  getImageBuffer : ptr Image -> World -> (list Byte.byte * option error) * World;
  vipsShrinkJpeg :
    list Byte.byte -> ptr Image -> Z -> World -> (ptr Image * option error) * World;
  vipsShrinkWebp :
    list Byte.byte -> ptr Image -> Z -> World -> (ptr Image * option error) * World;
  vipsZoom : ptr Image -> Z -> World -> (ptr Image * option error) * World;
  vipsShrink : ptr Image -> Z -> World -> (ptr Image * option error) * World;
  vipsReduce :
    ptr Image -> float64 -> float64 -> World -> (ptr Image * option error) * World;
  vipsAffine :
    ptr Image -> float64 -> float64 -> InterpolatorT -> World ->
    (ptr Image * option error) * World;
  vipsSmartCrop : ptr Image -> Z -> Z -> World -> (ptr Image * option error) * World;
  vipsExtract :
    ptr Image -> Z -> Z -> Z -> Z -> World -> (ptr Image * option error) * World;
  vipsEmbed :
    ptr Image -> Z -> Z -> Z -> Z -> ExtendT -> Color -> World ->
    (ptr Image * option error) * World;
  vipsTrim :
    ptr Image -> Color -> float64 -> World -> ((Z * Z * Z * Z) * option error) * World;
  vipsGaussianBlur :
    ptr Image -> GaussianBlurT -> World -> (ptr Image * option error) * World;
  vipsSharpen : ptr Image -> SharpenT -> World -> (ptr Image * option error) * World;
  vipsWatermark : ptr Image -> WatermarkT -> World -> (ptr Image * option error) * World;
  vipsDrawWatermark :
    ptr Image -> WatermarkImageT -> World -> (ptr Image * option error) * World;
  vipsFlattenBackground :
    ptr Image -> Color -> World -> (ptr Image * option error) * World
}.

Arguments Xsize {World Image}.
Arguments Ysize {World Image}.
Arguments DefaultQuality {World Image}.
Arguments InterpretationSRGB {World Image}.
Arguments WatermarkFont {World Image}.
Arguments VipsMajorVersion {World Image}.
Arguments VipsMinorVersion {World Image}.
Arguments IsTypeSupported {World Image}.
Arguments ImageTypeName {World Image}.
Arguments InterpolatorString {World Image}.
Arguments vipsWindowSize {World Image}.
Arguments vipsExifOrientation {World Image}.
Arguments vipsRotate {World Image}.
Arguments vipsFlip {World Image}.
Arguments getImageBuffer {World Image}.
Arguments vipsShrinkJpeg {World Image}.
Arguments vipsShrinkWebp {World Image}.
Arguments vipsZoom {World Image}.
Arguments vipsShrink {World Image}.
Arguments vipsReduce {World Image}.
Arguments vipsAffine {World Image}.
Arguments vipsSmartCrop {World Image}.
Arguments vipsExtract {World Image}.
Arguments vipsEmbed {World Image}.
Arguments vipsTrim {World Image}.
Arguments vipsGaussianBlur {World Image}.
Arguments vipsSharpen {World Image}.
Arguments vipsWatermark {World Image}.
Arguments vipsDrawWatermark {World Image}.
Arguments vipsFlattenBackground {World Image}.

(* ================================================================== *)
(** ** The monad of the pipeline

    A computation runs from a state to either a result and a new state, or
    a panic.  The state is the native [World] and, as ghost history, the
    stages [process] has run so far. *)

(** The stages of [process], in the order of the source. *)
Inductive Stage : Type :=
  | StageOutputType
  | StageRotateAndFlip
  | StageImageBuffer
  | StageShrinkOnLoad
  | StageZoom
  | StageTransform
  | StageEffects
  | StageWatermarkText
  | StageWatermarkImage
  | StageFlatten.

(** One run of a stage: the handle it was given, the handle that is current
    when it returns without error, its error, and the native state it left. *)
Record StageEvent (World Image : Type) : Type := mkStageEvent {
  ev_stage : Stage;
  ev_input : ptr Image;
  ev_output : ptr Image;
  ev_error : option error;
  ev_world : World
}.

Arguments mkStageEvent {World Image}.
Arguments ev_stage {World Image}.
Arguments ev_input {World Image}.
Arguments ev_output {World Image}.
Arguments ev_error {World Image}.
Arguments ev_world {World Image}.

Record State (World Image : Type) : Type := mkState {
  world : World;
  history : list (StageEvent World Image)
}.

Arguments mkState {World Image}.
Arguments world {World Image}.
Arguments history {World Image}.

Inductive Outcome (World Image A : Type) : Type :=
  | Returned (a : A) (st : State World Image)
  | Panicked.

Arguments Returned {World Image A}.
Arguments Panicked {World Image A}.

Definition M (World Image A : Type) : Type :=
  State World Image -> Outcome World Image A.

Definition ret {World Image A : Type} (a : A) : M World Image A :=
  fun st => Returned a st.

Definition bind {World Image A B : Type}
    (m : M World Image A) (k : A -> M World Image B) : M World Image B :=
  fun st =>
    match m st with
    | Returned a st' => k a st'
    | Panicked => Panicked
    end.

Declare Scope go_scope.
Delimit Scope go_scope with go.
Notation "x <- m ;; k" := (bind m (fun x => k))
  (at level 100, m at next level, right associativity) : go_scope.
Notation "' pat <- m ;; k" := (bind m (fun x => match x with pat => k end))
  (at level 100, pat pattern, m at next level, right associativity) : go_scope.
Notation "m ;; k" := (bind m (fun _ => k))
  (at level 100, right associativity) : go_scope.

(** A call into the binding. *)
Definition native {World Image A : Type} (f : World -> A * World) : M World Image A :=
  fun st =>
    let (a, w) := f (world st) in
    Returned a (mkState w (history st)).

(** Reading a field through a handle: a nil handle panics. *)
Definition deref {World Image : Type} (p : ptr Image) : M World Image Image :=
  fun st =>
    match p with
    | Some img => Returned img st
    | None => Panicked
    end.

(** Ghost: note that a stage has run. *)
Definition record_stage {World Image : Type}
    (s : Stage) (input output : ptr Image) (err : option error) : M World Image unit :=
  fun st =>
    Returned tt
      (mkState (world st)
         (history st ++ [mkStageEvent s input output err (world st)])).

(* ================================================================== *)
(** ** resizer.go *)

Section Resizer.

Context {World Image : Type}.
Variable vips : Vips World Image.

Local Open Scope go_scope.

(** *** Geometry: the pure functions *)

Definition applyDefaults (o : Options) (imageType : ImageType) : Options :=
  let o := if Quality o =? 0 then set_Quality (DefaultQuality vips) o else o in
  let o := if Compression o =? 0 then set_Compression 6 o else o in
  let o := if ImageType_eqb (Type_ o) UNKNOWN then set_Type imageType o else o in
  let o :=
    if Interpretation o =? 0 then set_Interpretation (InterpretationSRGB vips) o
    else o in
  o.

Definition normalizeOperation (o : Options) (inWidth inHeight : Z) : Options :=
  let o :=
    if negb (Force o) && negb (Crop o) && negb (Embed o) && negb (Enlarge o)
       && (Rotate o =? 0) && ((Width o >? 0) || (Height o >? 0))
    then set_Force true o else o in
  let o :=
    if (MaxWidth o >? 0) && (inWidth >? MaxWidth o) then
      if Width o >? 0 then
        if Width o >? MaxWidth o then set_Width (MaxWidth o) o else o
      else set_Width (MaxWidth o) o
    else o in
  let o :=
    if (MaxHeight o >? 0) && (inHeight >? MaxHeight o) then
      if Height o >? 0 then
        if Height o >? MaxHeight o then set_Height (MaxHeight o) o else o
      else set_Height (MaxHeight o) o
    else o in
  let o :=
    if (MinWidth o >? 0) && (inWidth <? MinWidth o) then
      if Width o >? 0 then
        if Width o <? MinWidth o then set_Width (MinWidth o) o else o
      else set_Width (MinWidth o) o
    else o in
  let o :=
    if (MinHeight o >? 0) && (inHeight <? MinHeight o) then
      if Height o >? 0 then
        if Height o <? MinHeight o then set_Height (MinHeight o) o else o
      else set_Height (MinHeight o) o
    else o in
  o.

Definition shouldTransformImage (o : Options) (inWidth inHeight : Z) : bool :=
  Force o || ((Width o >? 0) && negb (Width o =? inWidth))
  || ((Height o >? 0) && negb (Height o =? inHeight))
  || (AreaWidth o >? 0) || (AreaHeight o >? 0) || Trim o.

(** [&&] binds tighter than [||]. *)
Definition shouldApplyEffects (o : Options) : bool :=
  F64.gtb (Sigma (GaussianBlur o)) F64.zero
  || F64.gtb (MinAmpl (GaussianBlur o)) F64.zero
  || ((Radius (Sharpen o) >? 0) && F64.gtb (Y2 (Sharpen o)) F64.zero)
  || F64.gtb (Y3 (Sharpen o)) F64.zero.

Definition roundFloat (f : float64) : Z :=
  if F64.ltb f F64.zero then F64.to_int (F64.ceil (F64.sub f F64.half))
  else F64.to_int (F64.floor (F64.add f F64.half)).

(** Returns the options as the function leaves them and the factor. *)
Definition imageCalculations (o : Options) (inWidth inHeight : Z)
  : Options * float64 :=
  let factor := F64.one in
  let xfactor := F64.div (F64.of_int inWidth) (F64.of_int (Width o)) in
  let yfactor := F64.div (F64.of_int inHeight) (F64.of_int (Height o)) in
  if (Width o >? 0) && (Height o >? 0) then
    (* Fixed width and height *)
    if Crop o then (o, F64.min xfactor yfactor)
    else (o, F64.max xfactor yfactor)
  else if Width o >? 0 then
    (* Fixed width, auto height *)
    if Crop o then (set_Height inHeight o, factor)
    else
      let factor := xfactor in
      (set_Height (roundFloat (F64.div (F64.of_int inHeight) factor)) o, factor)
  else if Height o >? 0 then
    (* Fixed height, auto width *)
    if Crop o then (set_Width inWidth o, factor)
    else
      let factor := yfactor in
      (set_Width (roundFloat (F64.div (F64.of_int inWidth) factor)) o, factor)
  else
    (* Identity transform *)
    (set_Height inHeight (set_Width inWidth o), factor).

Definition calculateCrop (inWidth inHeight outWidth outHeight : Z)
    (gravity : GravityT) : Z * Z :=
  let left := 0 in
  let top := 0 in
  match gravity with
  | GravityNorth =>
      (GoInt.div (GoInt.add (GoInt.sub inWidth outWidth) 1) 2, top)
  | GravityEast =>
      (GoInt.sub inWidth outWidth,
       GoInt.div (GoInt.add (GoInt.sub inHeight outHeight) 1) 2)
  | GravitySouth =>
      (GoInt.div (GoInt.add (GoInt.sub inWidth outWidth) 1) 2,
       GoInt.sub inHeight outHeight)
  | GravityWest =>
      (left, GoInt.div (GoInt.add (GoInt.sub inHeight outHeight) 1) 2)
  | _ =>
      (GoInt.div (GoInt.add (GoInt.sub inWidth outWidth) 1) 2,
       GoInt.div (GoInt.add (GoInt.sub inHeight outHeight) 1) 2)
  end.

Definition calculateShrink (factor : float64) (i : InterpolatorT) : Z :=
  let windowSize := vipsWindowSize vips (InterpolatorString vips i) in
  let shrink :=
    if F64.geb factor (F64.of_int 2) && F64.gtb windowSize (F64.of_int 3) then
      F64.floor (F64.div (F64.mul factor (F64.of_int 3)) windowSize)
    else F64.floor factor in
  F64.to_int (F64.max shrink F64.one).

Definition calculateResidual (factor : float64) (shrink : Z) : float64 :=
  F64.div (F64.of_int shrink) factor.

Definition getAngle (angle : Angle) : Angle :=
  let divisor := GoInt.rem angle 90 in
  let angle := if negb (divisor =? 0) then GoInt.sub angle divisor else angle in
  F64.to_int (F64.min (F64.of_int angle) (F64.of_int 270)).

(** Lines 63 to 81 of [process]: the options, factor, shrink and residual
    that the rest of the pipeline works with. *)
Definition processGeometry (o : Options) (inWidth inHeight : Z)
  : Options * float64 * Z * float64 :=
  (* Infer the required operation based on the in/out image sizes *)
  let o := normalizeOperation o inWidth inHeight in
  (* image calculations *)
  let '(o, factor) := imageCalculations o inWidth inHeight in
  let shrink := calculateShrink factor (Interpolator o) in
  let residual := calculateResidual factor shrink in
  (* Do not enlarge the output if the input width or height
     are already less than the required dimensions *)
  if negb (Enlarge o) && negb (Force o) then
    if (inWidth <? Width o) && (inHeight <? Height o) then
      (set_Height inHeight (set_Width inWidth o), F64.one, 1, F64.zero)
    else (o, factor, shrink, residual)
  else (o, factor, shrink, residual).

(** *** The operation selector *)

(** The cases of the tagless switch of [extractOrEmbedImage].  Below, the
    locals [left] and [top] of the source are written [x] and [y]. *)
Inductive SpatialCase : Type :=
  | CaseSmartCrop
  | CaseCrop
  | CaseEmbed
  | CaseTrim
  | CaseExtractArea
  | CaseNone.

(** Lines 325 to 358: the switch takes the first case whose condition
    holds, in the order of the source. *)
Definition extractOrEmbedCase (o : Options) : SpatialCase :=
  if Gravity_eqb (Gravity o) GravitySmart || SmartCrop o then CaseSmartCrop
  else if Crop o then CaseCrop
  else if Embed o then CaseEmbed
  else if Trim o then CaseTrim
  else if negb (Top o =? 0) || negb (Left o =? 0)
          || negb (AreaWidth o =? 0) || negb (AreaHeight o =? 0)
  then CaseExtractArea
  else CaseNone.

(** Lines 360 to 364, the exit of [extractOrEmbedImage] after the switch. *)
Definition extractOrEmbedExit (image tmpImage : ptr Image) (err : option error)
  : ptr Image * option error :=
  match err with
  | Some e => (image, Some e)
  | None => (tmpImage, None)
  end.

Definition extractOrEmbedImage (image : ptr Image) (o : Options)
  : M World Image (ptr Image * option error) :=
  img <- deref image ;;
  let inWidth := Xsize vips img in
  let inHeight := Ysize vips img in
  match extractOrEmbedCase o with
  | CaseSmartCrop =>
      ' (tmpImage, err) <- native (vipsSmartCrop vips image (Width o) (Height o)) ;;
      ret (extractOrEmbedExit image tmpImage err)
  | CaseCrop =>
      let width := F64.to_int (F64.min (F64.of_int inWidth) (F64.of_int (Width o))) in
      let height :=
        F64.to_int (F64.min (F64.of_int inHeight) (F64.of_int (Height o))) in
      let '(x, y) :=
        calculateCrop inWidth inHeight (Width o) (Height o) (Gravity o) in
      let '(x, y) :=
        (F64.to_int (F64.max (F64.of_int x) F64.zero),
         F64.to_int (F64.max (F64.of_int y) F64.zero)) in
      ' (tmpImage, err) <- native (vipsExtract vips image x y width height) ;;
      ret (extractOrEmbedExit image tmpImage err)
  | CaseEmbed =>
      let '(x, y) :=
        (GoInt.div (GoInt.sub (Width o) inWidth) 2,
         GoInt.div (GoInt.sub (Height o) inHeight) 2) in
      ' (tmpImage, err) <-
        native (vipsEmbed vips image x y (Width o) (Height o)
                  (Extend o) (Background o)) ;;
      ret (extractOrEmbedExit image tmpImage err)
  | CaseTrim =>
      (* [left, top, width, height, err := vipsTrim(...)] declares a new
         [err] for this case: the one tested after the switch stays nil. *)
      ' (box, err') <- native (vipsTrim vips image (Background o) (Threshold o)) ;;
      let '(x, y, width, height) := box in
      match err' with
      | None =>
          ' (tmpImage, _) <- native (vipsExtract vips image x y width height) ;;
          ret (extractOrEmbedExit image tmpImage None)
      | Some _ => ret (extractOrEmbedExit image image None)
      end
  | CaseExtractArea =>
      let o := if AreaWidth o =? 0 then set_AreaWidth (Width o) o else o in
      let o := if AreaHeight o =? 0 then set_AreaHeight (Height o) o else o in
      if (AreaWidth o =? 0) || (AreaHeight o =? 0) then
        ret (None, Some (errors_New "Extract area width/height params are required"))
      else
        ' (tmpImage, err) <-
          native (vipsExtract vips image (Left o) (Top o) (AreaWidth o) (AreaHeight o)) ;;
        ret (extractOrEmbedExit image tmpImage err)
  | CaseNone => ret (extractOrEmbedExit image image None)
  end.

(** *** The stages *)

Definition calculateRotationAndFlip (image : ptr Image) (angle : Angle)
  : M World Image (Angle * bool) :=
  let rotate := D0 in
  let flip := false in
  if angle >? 0 then ret (rotate, flip)
  else
    orientation <- native (vipsExifOrientation vips image) ;;
    ret (match orientation with
         | 6 => (D90, flip)
         | 3 => (D180, flip)
         | 8 => (D270, flip)
         | 2 => (rotate, true)
         | 7 => (D270, true)
         | 4 => (D180, true)
         | 5 => (D90, true)
         | _ => (rotate, flip)
         end).

(** The three steps assign [image, err] in turn without testing [err]. *)
Definition rotateAndFlipImage (image : ptr Image) (o : Options)
  : M World Image (ptr Image * bool * option error) :=
  let err := @None error in
  let rotated := false in
  o <- (if negb (NoAutoRotate o) then
          ' (rotation, flip) <- calculateRotationAndFlip image (Rotate o) ;;
          let o := if flip then set_Flip flip o else o in
          let o :=
            if (rotation >? 0) && (Rotate o =? 0) then set_Rotate rotation o else o in
          ret o
        else ret o) ;;
  ' (image, rotated, err) <-
    (if Rotate o >? 0 then
       ' (image, err) <- native (vipsRotate vips image (getAngle (Rotate o))) ;;
       ret (image, true, err)
     else ret (image, rotated, err)) ;;
  ' (image, rotated, err) <-
    (if Flip o then
       ' (image, err) <- native (vipsFlip vips image Vertical) ;;
       ret (image, true, err)
     else ret (image, rotated, err)) ;;
  ' (image, rotated, err) <-
    (if Flop o then
       ' (image, err) <- native (vipsFlip vips image Horizontal) ;;
       ret (image, true, err)
     else ret (image, rotated, err)) ;;
  ret (image, rotated, err).

Definition watermarkImageWithText (image : ptr Image) (w : WatermarkT)
  : M World Image (ptr Image * option error) :=
  if String.eqb (wmText w) "" then ret (image, None)
  else
    (* Defaults *)
    let font := if String.eqb (wmFont w) "" then WatermarkFont vips else wmFont w in
    width <- (if wmWidth w =? 0 then
                img <- deref image ;;
                ret (F64.to_int (F64.floor (F64.of_int (Z.quot (Xsize vips img) 6))))
              else ret (wmWidth w)) ;;
    let dpi := if wmDPI w =? 0 then 150 else wmDPI w in
    let margin := if wmMargin w =? 0 then width else wmMargin w in
    let opacity :=
      if F64.eqb (wmOpacity w) F64.zero then F64.div (F64.of_int 1) (F64.of_int 4)
      else if F64.gtb (wmOpacity w) F64.one then F64.one
      else wmOpacity w in
    let w :=
      mkWatermark width dpi margin opacity (wmNoReplicate w) (wmText w) font
        (wmBackground w) in
    ' (tmpImage, err) <- native (vipsWatermark vips image w) ;;
    match err with
    | Some e => ret (image, Some e)
    | None => ret (tmpImage, None)
    end.

Definition watermarkImageWithAnotherImage (image : ptr Image) (w : WatermarkImageT)
  : M World Image (ptr Image * option error) :=
  if (Z.of_nat (List.length (wiBuf w)) =? 0) then ret (image, None)
  else
    let w :=
      if F64.eqb (wiOpacity w) F64.zero
      then mkWatermarkImage (wiLeft w) (wiTop w) (wiBuf w) F64.one
      else w in
    ' (image, err) <- native (vipsDrawWatermark vips image w) ;;
    match err with
    | Some e => ret (None, Some e)
    | None => ret (image, None)
    end.

Definition imageFlatten (image : ptr Image) (imageType : ImageType) (o : Options)
  : M World Image (ptr Image * option error) :=
  (* Only PNG images are supported for now *)
  if negb (ImageType_eqb imageType PNG) || Color_eqb (Background o) ColorBlack
  then ret (image, None)
  else native (vipsFlattenBackground vips image (Background o)).

Definition zoomImage (image : ptr Image) (zoom : Z)
  : M World Image (ptr Image * option error) :=
  if zoom =? 0 then ret (image, None)
  else native (vipsZoom vips image (GoInt.add zoom 1)).

Definition shrinkImage (image : ptr Image) (o : Options) (residual : float64)
    (shrink : Z) : M World Image (ptr Image * float64 * option error) :=
  (* Use vips_shrink with the integral reduction *)
  ' (image, err) <- native (vipsShrink vips image shrink) ;;
  match err with
  | Some e => ret (None, F64.zero, Some e)
  | None =>
      (* Recalculate residual float based on dimensions of required vs
         shrunk images *)
      img <- deref image ;;
      let residualx := F64.div (F64.of_int (Width o)) (F64.of_int (Xsize vips img)) in
      let residualy := F64.div (F64.of_int (Height o)) (F64.of_int (Ysize vips img)) in
      let residual :=
        if Crop o then F64.max residualx residualy
        else F64.min residualx residualy in
      ret (image, residual, None)
  end.

Definition shrinkOnLoad (buf : list Byte.byte) (input : ptr Image)
    (imageType : ImageType) (factor : float64) (shrink : Z)
  : M World Image (ptr Image * float64 * option error) :=
  (* Reload input using shrink-on-load *)
  if ImageType_eqb imageType JPEG && (shrink >=? 2) then
    let shrinkOnLoad := 1 in
    (* Recalculate integral shrink and double residual *)
    let '(factor, shrinkOnLoad) :=
      if shrink >=? 8 then (F64.div factor (F64.of_int 8), 8)
      else if shrink >=? 4 then (F64.div factor (F64.of_int 4), 4)
      else if shrink >=? 2 then (F64.div factor (F64.of_int 2), 2)
      else (factor, shrinkOnLoad) in
    ' (image, err) <- native (vipsShrinkJpeg vips buf input shrinkOnLoad) ;;
    ret (image, factor, err)
  else if ImageType_eqb imageType WEBP then
    ' (image, err) <- native (vipsShrinkWebp vips buf input shrink) ;;
    ret (image, factor, err)
  else
    ret (None, F64.zero,
         Some (fmt_Errorf
                 (ImageTypeName vips imageType ++ " doesn't support shrink on load"))).

Definition transformImage (image : ptr Image) (o : Options) (shrink : Z)
    (residual : float64) : M World Image (ptr Image * option error) :=
  let image0 := image in
  (* Use vips_shrink with the integral reduction *)
  ' (image, residual, err) <-
    (if shrink >? 1 then shrinkImage image o residual shrink
     else ret (image, residual, None)) ;;
  match err with
  | Some e => ret (image0, Some e)
  | None =>
      ' (residualx, residualy) <-
        (if Force o then
           img <- deref image ;;
           ret (F64.div (F64.of_int (Width o)) (F64.of_int (Xsize vips img)),
                F64.div (F64.of_int (Height o)) (F64.of_int (Ysize vips img)))
         else ret (residual, residual)) ;;
      let image1 := image in
      ' (image, err) <-
        (if Force o || F64.neb residual F64.zero then
           if F64.ltb residualx F64.one && F64.ltb residualy F64.one then
             native (vipsReduce vips image (F64.div F64.one residualx)
                       (F64.div F64.one residualy))
           else native (vipsAffine vips image residualx residualy (Interpolator o))
         else ret (image, None)) ;;
      match err with
      | Some e => ret (image1, Some e)
      | None =>
          let o := if Force o then set_Embed false (set_Crop false o) else o in
          ' (imageOut, err) <- extractOrEmbedImage image o ;;
          match err with
          | Some e => ret (image, Some e)
          | None => ret (imageOut, None)
          end
      end
  end.

(** Lines 255 to 284 of [transformImage] read on their own: the integral
    shrink and the reduce or affine step, with the handle and the error
    the function holds when it reaches line 286. *)
Definition transformResize (image : ptr Image) (o : Options) (shrink : Z)
    (residual : float64) : M World Image (ptr Image * option error) :=
  let image0 := image in
  ' (image, residual, err) <-
    (if shrink >? 1 then shrinkImage image o residual shrink
     else ret (image, residual, None)) ;;
  match err with
  | Some e => ret (image0, Some e)
  | None =>
      ' (residualx, residualy) <-
        (if Force o then
           img <- deref image ;;
           ret (F64.div (F64.of_int (Width o)) (F64.of_int (Xsize vips img)),
                F64.div (F64.of_int (Height o)) (F64.of_int (Ysize vips img)))
         else ret (residual, residual)) ;;
      let image1 := image in
      ' (image, err) <-
        (if Force o || F64.neb residual F64.zero then
           if F64.ltb residualx F64.one && F64.ltb residualy F64.one then
             native (vipsReduce vips image (F64.div F64.one residualx)
                       (F64.div F64.one residualy))
           else native (vipsAffine vips image residualx residualy (Interpolator o))
         else ret (image, None)) ;;
      match err with
      | Some e => ret (image1, Some e)
      | None => ret (image, None)
      end
  end.

(** Lines 291 to 296 of [transformImage]: the call of the selector. *)
Definition transformExtract (image : ptr Image) (o : Options)
  : M World Image (ptr Image * option error) :=
  ' (imageOut, err) <- extractOrEmbedImage image o ;;
  match err with
  | Some e => ret (image, Some e)
  | None => ret (imageOut, None)
  end.

Definition applyEffects (image : ptr Image) (o : Options)
  : M World Image (ptr Image * option error) :=
  ' (image, err) <-
    (if F64.gtb (Sigma (GaussianBlur o)) F64.zero
        || F64.gtb (MinAmpl (GaussianBlur o)) F64.zero
     then native (vipsGaussianBlur vips image (GaussianBlur o))
     else ret (image, None)) ;;
  match err with
  | Some e => ret (None, Some e)
  | None =>
      ' (image, err) <-
        (if ((Radius (Sharpen o) >? 0) && F64.gtb (Y2 (Sharpen o)) F64.zero)
            || F64.gtb (Y3 (Sharpen o)) F64.zero
         then native (vipsSharpen vips image (Sharpen o))
         else ret (image, None)) ;;
      match err with
      | Some e => ret (None, Some e)
      | None => ret (image, None)
      end
  end.

(** *** The pipeline *)

(** [process]; the slice behind [buf *[]byte] is passed in and returned.
    The calls of [record_stage] are ghost: they note each stage that ran. *)
Definition process (image0 : ptr Image) (imageType : ImageType) (o : Options)
    (buf : list Byte.byte)
  : M World Image (ptr Image * option error * list Byte.byte) :=
  let err :=
    if negb (IsTypeSupported vips (Type_ o))
    then Some (errors_New "Unsupported image output type") else None in
  record_stage StageOutputType image0 image0 err ;;
  match err with
  | Some e => ret (image0, Some e, buf)
  | None =>
  (* Auto rotate image based on EXIF orientation header *)
  ' (image1, rotated, err) <- rotateAndFlipImage image0 o ;;
  record_stage StageRotateAndFlip image0 image1 err ;;
  match err with
  | Some e => ret (image0, Some e, buf)
  | None =>
  (* If JPEG image, retrieve the buffer *)
  ' (buf, err) <-
    (if rotated && ImageType_eqb imageType JPEG && negb (NoAutoRotate o) then
       ' (b, err) <- native (getImageBuffer vips image1) ;;
       record_stage StageImageBuffer image1 image1 err ;;
       ret (b, err)
     else ret (buf, None)) ;;
  match err with
  | Some e => ret (image1, Some e, buf)
  | None =>
  img1 <- deref image1 ;;
  let inWidth := Xsize vips img1 in
  let inHeight := Ysize vips img1 in
  let '(o, factor, shrink, residual) := processGeometry o inWidth inHeight in
  (* Try to use libjpeg/libwebp shrink-on-load *)
  let supportsShrinkOnLoad :=
    ImageType_eqb imageType WEBP && (VipsMajorVersion vips >=? 8)
    && (VipsMinorVersion vips >=? 3) in
  let supportsShrinkOnLoad :=
    supportsShrinkOnLoad || ImageType_eqb imageType JPEG in
  ' (image1', shrink, residual, err) <-
    (if supportsShrinkOnLoad && (shrink >=? 2) then
       ' (tmpImage, factor, err) <- shrinkOnLoad buf image1 imageType factor shrink ;;
       record_stage StageShrinkOnLoad image1 tmpImage err ;;
       let factor := F64.max factor F64.one in
       let shrink := F64.to_int (F64.floor factor) in
       let residual := F64.div (F64.of_int shrink) factor in
       ret (tmpImage, shrink, residual, err)
     else ret (image1, shrink, residual, None)) ;;
  match err with
  | Some e => ret (image1, Some e, buf)
  | None =>
  let image1 := image1' in
  (* Zoom image, if necessary *)
  ' (image2, err) <- zoomImage image1 (Zoom o) ;;
  record_stage StageZoom image1 image2 err ;;
  match err with
  | Some e => ret (image1, Some e, buf)
  | None =>
  (* Transform image, if necessary *)
  ' (image2', err) <-
    (if shouldTransformImage o inWidth inHeight then
       ' (tmpImage, err) <- transformImage image2 o shrink residual ;;
       record_stage StageTransform image2 tmpImage err ;;
       ret (tmpImage, err)
     else ret (image2, None)) ;;
  match err with
  | Some e => ret (image2, Some e, buf)
  | None =>
  let image2 := image2' in
  (* Apply effects, if necessary *)
  ' (image2', err) <-
    (if shouldApplyEffects o then
       ' (tmpImage, err) <- applyEffects image2 o ;;
       record_stage StageEffects image2 tmpImage err ;;
       ret (tmpImage, err)
     else ret (image2, None)) ;;
  match err with
  | Some e => ret (image2, Some e, buf)
  | None =>
  let image2 := image2' in
  (* Add watermark, if necessary *)
  ' (image3, err) <- watermarkImageWithText image2 (Watermark o) ;;
  record_stage StageWatermarkText image2 image3 err ;;
  match err with
  | Some e => ret (image2, Some e, buf)
  | None =>
  (* Add watermark, if necessary *)
  ' (image4, err) <- watermarkImageWithAnotherImage image3 (WatermarkImage o) ;;
  record_stage StageWatermarkImage image3 image4 err ;;
  match err with
  | Some e => ret (image3, Some e, buf)
  | None =>
  (* Flatten image on a background, if necessary *)
  ' (image5, err) <- imageFlatten image4 imageType o ;;
  record_stage StageFlatten image4 image5 err ;;
  match err with
  | Some e => ret (image4, Some e, buf)
  | None => ret (image5, None, buf)
  end end end end end end end end end end.

(** *** The [VipsImage] wrapper *)

Record VipsImage : Type := mkVipsImage {
  image : ptr Image;
  srcBuf : list Byte.byte;
  imageType : ImageType
}.

(** [(i *VipsImage) Process(o)]: returns the receiver as the call leaves
    it, and the error.  [process] writes [i.srcBuf] through its pointer. *)
Definition Process (i : VipsImage) (o : Options)
  : M World Image (VipsImage * option error) :=
  let o := applyDefaults o (imageType i) in
  ' (img, err, buf) <- process (image i) (imageType i) o (srcBuf i) ;;
  let i := mkVipsImage (image i) buf (imageType i) in
  match err with
  | Some e => ret (i, Some e)
  | None =>
      let i := mkVipsImage img (srcBuf i) (imageType i) in
      ret (i, None)
  end.

End Resizer.

Arguments image {Image}.
Arguments srcBuf {Image}.
Arguments imageType {Image}.
Arguments mkVipsImage {Image}.

(* ================================================================== *)
(** ** Loading, saving and the entry points

    [resizer], [NewVipsImage], [Save] and [Clone] reach the binding through
    five more operations.  A byte slice is the list of its bytes; the nil
    slice is the empty list. *)

(** Modelled from the spec: [vipsSaveOptions], the options handed to
    [vipsSave]; its declaration is not among the source files, the fields
    are the ones [saveImage] and [Save] fill, with the prefix [so]. *)
Record vipsSaveOptions : Type := mkVipsSaveOptions {
  soQuality : Z;
  soType : ImageType;
  soCompression : Z;
  soInterlace : bool;
  soNoProfile : bool;
  soInterpretation : InterpretationT;
  soOutputICC : string;
  soStripMetadata : bool;
  soLossless : bool
}.

(** The operations of the binding that read, write, copy and release an
    image, and [C.vips_thread_shutdown]. *)
Record VipsIO (World Image : Type) : Type := mkVipsIO {
  vipsRead :
    list Byte.byte -> World -> (ptr Image * ImageType * option error) * World;
  vipsSave :
    ptr Image -> vipsSaveOptions -> World ->
    (list Byte.byte * ptr Image * option error) * World;
  vipsCopy : ptr Image -> World -> ptr Image * World;
  g_object_unref : ptr Image -> World -> World;
  vips_thread_shutdown : World -> World
}.

Arguments vipsRead {World Image}.
Arguments vipsSave {World Image}.
Arguments vipsCopy {World Image}.
Arguments g_object_unref {World Image}.
Arguments vips_thread_shutdown {World Image}.

Section EntryPoints.

Context {World Image : Type}.
Variable vips : Vips World Image.
Variable io : VipsIO World Image.

Local Open Scope go_scope.

Definition loadImage (buf : list Byte.byte)
  : M World Image (ptr Image * ImageType * option error) :=
  if Z.of_nat (List.length buf) =? 0 then
    ret (None, JPEG, Some (errors_New "Image buffer is empty"))
  else
    ' (image, imageType, err) <- native (vipsRead io buf) ;;
    match err with
    | Some e => ret (None, JPEG, Some e)
    | None => ret (image, imageType, None)
    end.

(** The struct literal that [saveImage] and [Save] both write out. *)
Definition saveOptionsOf (o : Options) : vipsSaveOptions :=
  {| soQuality := Quality o;
     soType := Type_ o;
     soCompression := Compression o;
     soInterlace := Interlace o;
     soNoProfile := NoProfile o;
     soInterpretation := Interpretation o;
     soOutputICC := OutputICC o;
     soStripMetadata := StripMetadata o;
     soLossless := Lossless o |}.

Definition saveImage (image : ptr Image) (o : Options)
  : M World Image (list Byte.byte * option error) :=
  let saveOptions := saveOptionsOf o in
  (* Finally get the resultant buffer *)
  ' (buf, image, err) <- native (vipsSave io image saveOptions) ;;
  native (fun w => (tt, g_object_unref io image w)) ;;
  ret (buf, err).

(** [resizer]; the deferred [C.vips_thread_shutdown()] runs when the body
    has returned. *)
Definition resizer (buf : list Byte.byte) (o : Options)
  : M World Image (list Byte.byte * option error) :=
  r <- (' (image, imageType, err) <- loadImage buf ;;
        match err with
        | Some e => ret ([], Some e)
        | None =>
            (* Clone and define default options *)
            let o := applyDefaults vips o imageType in
            ' (image, err, _) <- process vips image imageType o buf ;;
            match err with
            | Some e => ret ([], Some e)
            | None => saveImage image o
            end
        end) ;;
  native (fun w => (tt, vips_thread_shutdown io w)) ;;
  ret r.

(** [NewVipsImage] returns the new object also when loading failed.  The
    finalizer it registers releases the handle once the object is garbage;
    it does not run while the object is in use, and is left out. *)
Definition NewVipsImage (buf : list Byte.byte)
  : M World Image (VipsImage * option error) :=
  ' (image, imageType, err) <- loadImage buf ;;
  ret (mkVipsImage image buf imageType, err).

(** [(i *VipsImage) Save(o)]: returns the receiver as the call leaves it,
    the bytes and the error. *)
Definition Save (i : VipsImage) (o : Options)
  : M World Image (VipsImage * list Byte.byte * option error) :=
  let o := applyDefaults vips o (imageType i) in
  let saveOptions := saveOptionsOf o in
  (* Finally get the resultant buffer *)
  ' (buf, image', err) <- native (vipsSave io (image i) saveOptions) ;;
  match err with
  | Some e => ret (i, [], Some e)
  | None => ret (mkVipsImage image' (srcBuf i) (imageType i), buf, None)
  end.

(** [(i *VipsImage) Clone()]: the receiver is not assigned to. *)
Definition Clone (i : VipsImage) : M World Image VipsImage :=
  copy <- native (vipsCopy io (image i)) ;;
  ret (mkVipsImage copy (srcBuf i) (imageType i)).

End EntryPoints.

(* ================================================================== *)
(** ** A test double of the binding

    Concrete runs need a binding.  In the double an image is its width and
    height, the native state is the list of the operations called so far,
    and [fails] names the operations that report an error. *)

Module Double.

Definition Image : Type := (Z * Z)%type.
Definition World : Type := list string.

Definition call {A : Type} (fails : string -> bool) (name : string)
    (failed ok : A) : World -> (A * option error) * World :=
  fun w =>
    if fails name then ((failed, Some (VipsError name)), w ++ [name])
    else ((ok, None), w ++ [name]).

Definition resized (image : ptr Image) (f : Z * Z -> Z * Z) : ptr Image :=
  match image with
  | Some d => Some (f d)
  | None => None
  end.

Definition scale (z : Z) (r : float64) : Z :=
  F64.to_int (F64.floor (F64.add (F64.mul (F64.of_int z) r) F64.half)).

Definition vips (fails : string -> bool) : Vips World Image :=
  {| Xsize := fst;
     Ysize := snd;
     DefaultQuality := 80;
     InterpretationSRGB := 22;
     WatermarkFont := "sans 10";
     VipsMajorVersion := 8;
     VipsMinorVersion := 10;
     IsTypeSupported := fun t => negb (ImageType_eqb t UNKNOWN);
     ImageTypeName :=
       fun t =>
         match t with
         | JPEG => "jpeg"
         | WEBP => "webp"
         | PNG => "png"
         | _ => "unknown"
         end%string;
     InterpolatorString :=
       fun i => if i =? 0 then "bicubic"%string else "bilinear"%string;
     vipsWindowSize :=
       fun name => if String.eqb name "bicubic" then F64.of_int 4 else F64.of_int 2;
     vipsExifOrientation := fun _ w => (1, w ++ ["vipsExifOrientation"%string]);
     vipsRotate :=
       fun image angle =>
         call fails "vipsRotate" None
           (resized image
              (fun d => if (angle =? 90) || (angle =? 270) then (snd d, fst d) else d));
     vipsFlip := fun image _ => call fails "vipsFlip" None image;
     getImageBuffer := fun _ => call fails "getImageBuffer" [] [];
     vipsShrinkJpeg :=
       fun _ image n =>
         call fails "vipsShrinkJpeg" None
           (resized image (fun d => (fst d / n, snd d / n)));
     vipsShrinkWebp :=
       fun _ image n =>
         call fails "vipsShrinkWebp" None
           (resized image (fun d => (fst d / n, snd d / n)));
     vipsZoom :=
       fun image n =>
         call fails "vipsZoom" None (resized image (fun d => (fst d * n, snd d * n)));
     vipsShrink :=
       fun image n =>
         call fails "vipsShrink" None (resized image (fun d => (fst d / n, snd d / n)));
     vipsReduce :=
       fun image rx ry =>
         call fails "vipsReduce" None
           (resized image
              (fun d => (scale (fst d) (F64.div F64.one rx),
                         scale (snd d) (F64.div F64.one ry))));
     vipsAffine :=
       fun image rx ry _ =>
         call fails "vipsAffine" None
           (resized image (fun d => (scale (fst d) rx, scale (snd d) ry)));
     vipsSmartCrop :=
       fun image w h => call fails "vipsSmartCrop" None (resized image (fun _ => (w, h)));
     vipsExtract :=
       fun image _ _ w h => call fails "vipsExtract" None (resized image (fun _ => (w, h)));
     vipsEmbed :=
       fun image _ _ w h _ _ =>
         call fails "vipsEmbed" None (resized image (fun _ => (w, h)));
     vipsTrim :=
       fun image _ _ =>
         call fails "vipsTrim" (0, 0, 0, 0)
           match image with
           | Some d => (0, 0, fst d, snd d)
           | None => (0, 0, 0, 0)
           end;
     vipsGaussianBlur := fun image _ => call fails "vipsGaussianBlur" None image;
     vipsSharpen := fun image _ => call fails "vipsSharpen" None image;
     vipsWatermark := fun image _ => call fails "vipsWatermark" None image;
     vipsDrawWatermark := fun image _ => call fails "vipsDrawWatermark" None image;
     vipsFlattenBackground :=
       fun image _ => call fails "vipsFlattenBackground" None image |}.

(** A binding on which every operation succeeds. *)
Definition ok : Vips World Image := vips (fun _ => false).

(** The zero value of [Options]. *)
Definition zeroOptions : Options :=
  {| Height := 0; Width := 0; AreaHeight := 0; AreaWidth := 0; Top := 0; Left := 0;
     Quality := 0; Compression := 0; Zoom := 0;
     Crop := false; SmartCrop := false; Enlarge := false; Embed := false;
     Flip := false; Flop := false; Force := false; NoAutoRotate := false;
     NoProfile := false; Interlace := false; StripMetadata := false;
     Trim := false; Lossless := false;
     Extend := 0; Rotate := 0; Background := ColorBlack; Gravity := GravityCentre;
     Watermark := mkWatermark 0 0 0 F64.zero false "" "" ColorBlack;
     WatermarkImage := mkWatermarkImage 0 0 [] F64.zero;
     Type_ := UNKNOWN; Interpolator := 0; Interpretation := 0;
     GaussianBlur := mkGaussianBlur F64.zero F64.zero;
     Sharpen := mkSharpen 0 F64.zero F64.zero F64.zero F64.zero F64.zero;
     Threshold := F64.zero; OutputICC := "";
     MaxWidth := 0; MaxHeight := 0; MinWidth := 0; MinHeight := 0 |}.

Definition start : State World Image := mkState [] [].

End Double.

(** The double of the reading and writing operations.  A buffer decodes to
    a 100x100 image, a PNG when its first byte is [0x89] and a JPEG
    otherwise; saving yields one byte. *)
Module DoubleIO.

Definition io (fails : string -> bool) : VipsIO Double.World Double.Image :=
  {| vipsRead :=
       fun buf w =>
         let imageType :=
           match buf with
           | Byte.x89 :: _ => PNG
           | _ => JPEG
           end in
         if fails "vipsRead"%string
         then ((None, UNKNOWN, Some (VipsError "vipsRead"%string)), w ++ ["vipsRead"%string])
         else ((Some (100, 100), imageType, None), w ++ ["vipsRead"%string]);
     vipsSave :=
       fun image _ w =>
         if fails "vipsSave"%string
         then (([Byte.x00], None, Some (VipsError "vipsSave"%string)), w ++ ["vipsSave"%string])
         else (([Byte.xff], image, None), w ++ ["vipsSave"%string]);
     vipsCopy := fun image w => (image, w ++ ["vipsCopy"%string]);
     g_object_unref := fun _ w => w ++ ["g_object_unref"%string];
     vips_thread_shutdown := fun w => w ++ ["vips_thread_shutdown"%string] |}.

(** Reading and writing that always succeed. *)
Definition ok : VipsIO Double.World Double.Image := io (fun _ => false).

End DoubleIO.

(* ================================================================== *)
(** ** Vocabulary of the statements *)

(** Dimensions of magnitude at most [2^60]: on them the integer arithmetic
    of the resizer does not wrap and the conversions between [int] and
    [float64] stay within range. *)
Definition dimension (z : Z) : Prop := - 2 ^ 60 <= z <= 2 ^ 60.

(** [f > 0] on floats. *)
Definition positive_float (f : float64) : Prop := F64.gtb f F64.zero = true.

(** The condition under which [applyEffects] blurs. *)
Definition blur_requested (o : Options) : Prop :=
  positive_float (Sigma (GaussianBlur o)) \/ positive_float (MinAmpl (GaussianBlur o)).

(** The condition under which [applyEffects] sharpens. *)
Definition sharpen_requested (o : Options) : Prop :=
  (0 < Radius (Sharpen o) /\ positive_float (Y2 (Sharpen o)))
  \/ positive_float (Y3 (Sharpen o)).

(** The first and the fifth condition of the switch of
    [extractOrEmbedImage]. *)
Definition smart_selected (o : Options) : bool :=
  Gravity_eqb (Gravity o) GravitySmart || SmartCrop o.

Definition area_selected (o : Options) : bool :=
  negb (Top o =? 0) || negb (Left o =? 0)
  || negb (AreaWidth o =? 0) || negb (AreaHeight o =? 0).

(** Nothing but a size is requested: no rotation or flip, no zoom, no area,
    no trim, no effect, no watermark, and nothing to flatten. *)
Definition only_size_requested (o : Options) (imageType : ImageType) : Prop :=
  NoAutoRotate o = true /\ Rotate o = 0 /\ Flip o = false /\ Flop o = false
  /\ Zoom o = 0 /\ AreaWidth o = 0 /\ AreaHeight o = 0 /\ Trim o = false
  /\ shouldApplyEffects o = false
  /\ wmText (Watermark o) = ""%string /\ wiBuf (WatermarkImage o) = []
  /\ (imageType <> PNG \/ Background o = ColorBlack).

(** [o'] asks for the same effects as [o]. *)
Definition same_effects (o o' : Options) : Prop :=
  GaussianBlur o' = GaussianBlur o /\ Sharpen o' = Sharpen o.

(** The handle that is current after the stages [done]: the output of the
    last of them, or the handle [process] was given. *)
Definition current_handle {World Image : Type} (image0 : ptr Image)
    (done : list (StageEvent World Image)) : ptr Image :=
  last (map ev_output done) image0.

(** A computation that leaves the ghost history alone. *)
Definition preserves_history {World Image A : Type} (m : M World Image A) : Prop :=
  forall st a st', m st = Returned a st' -> history st' = history st.

(** *** The five steps of [normalizeOperation]

    Each definition is one [if] statement of the function, lines 198 to 200,
    202 to 210, 212 to 220, 222 to 230 and 232 to 240. *)

Definition promoteForce (o : Options) : Options :=
  if negb (Force o) && negb (Crop o) && negb (Embed o) && negb (Enlarge o)
     && (Rotate o =? 0) && ((Width o >? 0) || (Height o >? 0))
  then set_Force true o else o.

Definition boundMaxWidth (inWidth : Z) (o : Options) : Options :=
  if (MaxWidth o >? 0) && (inWidth >? MaxWidth o) then
    if Width o >? 0 then
      if Width o >? MaxWidth o then set_Width (MaxWidth o) o else o
    else set_Width (MaxWidth o) o
  else o.

Definition boundMaxHeight (inHeight : Z) (o : Options) : Options :=
  if (MaxHeight o >? 0) && (inHeight >? MaxHeight o) then
    if Height o >? 0 then
      if Height o >? MaxHeight o then set_Height (MaxHeight o) o else o
    else set_Height (MaxHeight o) o
  else o.

Definition boundMinWidth (inWidth : Z) (o : Options) : Options :=
  if (MinWidth o >? 0) && (inWidth <? MinWidth o) then
    if Width o >? 0 then
      if Width o <? MinWidth o then set_Width (MinWidth o) o else o
    else set_Width (MinWidth o) o
  else o.

Definition boundMinHeight (inHeight : Z) (o : Options) : Options :=
  if (MinHeight o >? 0) && (inHeight <? MinHeight o) then
    if Height o >? 0 then
      if Height o <? MinHeight o then set_Height (MinHeight o) o else o
    else set_Height (MinHeight o) o
  else o.

(** The options without the three fields the geometry writes. *)
Definition without_geometry (o : Options) : Options :=
  set_Force false (set_Width 0 (set_Height 0 o)).

(** The caller set none of Force, Crop, Embed, Enlarge and Rotate. *)
Definition bare_request (o : Options) : Prop :=
  Force o = false /\ Crop o = false /\ Embed o = false /\ Enlarge o = false
  /\ Rotate o = 0.

(** The input is wider than a maximum that is set; narrower than a minimum
    that is set; and the same for the height. *)
Definition above_MaxWidth (o : Options) (inWidth : Z) : Prop :=
  0 < MaxWidth o < inWidth.

Definition below_MinWidth (o : Options) (inWidth : Z) : Prop :=
  0 < MinWidth o /\ inWidth < MinWidth o.

Definition above_MaxHeight (o : Options) (inHeight : Z) : Prop :=
  0 < MaxHeight o < inHeight.

Definition below_MinHeight (o : Options) (inHeight : Z) : Prop :=
  0 < MinHeight o /\ inHeight < MinHeight o.

(** The place of a stage in the order of [process]. *)
Definition stage_index (s : Stage) : nat :=
  match s with
  | StageOutputType => 0
  | StageRotateAndFlip => 1
  | StageImageBuffer => 2
  | StageShrinkOnLoad => 3
  | StageZoom => 4
  | StageTransform => 5
  | StageEffects => 6
  | StageWatermarkText => 7
  | StageWatermarkImage => 8
  | StageFlatten => 9
  end%nat.

(** Each stage of [events] was given the handle that was current before it,
    starting from [h]; a stage that fails leaves the handle as it was. *)
Fixpoint chained {World Image : Type} (h : ptr Image)
    (events : list (StageEvent World Image)) : Prop :=
  match events with
  | [] => True
  | ev :: rest =>
      ev_input ev = h
      /\ chained (match ev_error ev with None => ev_output ev | Some _ => h end) rest
  end.

(** The options without the four fields [applyDefaults] writes. *)
Definition without_defaults (o : Options) : Options :=
  set_Quality 0 (set_Compression 0 (set_Type UNKNOWN (set_Interpretation 0 o))).

(** The dimension a bound leaves, given the dimension [d] requested, the
    bound [b] and whether the bound applies: the nested [if] of lines 203 to
    209 for a maximum, and of lines 223 to 229 for a minimum. *)
Definition bounded_above (applies : bool) (d b : Z) : Z :=
  if applies then (if d >? 0 then (if d >? b then b else d) else b) else d.

Definition bounded_below (applies : bool) (d b : Z) : Z :=
  if applies then (if d >? 0 then (if d <? b then b else d) else b) else d.

(** The guard of lines 84 to 86 of [process]. *)
Definition shrinkOnLoadGuard {World Image : Type} (vips : Vips World Image)
    (imageType : ImageType) (shrink : Z) : bool :=
  (ImageType_eqb imageType WEBP && (VipsMajorVersion vips >=? 8)
   && (VipsMinorVersion vips >=? 3)
   || ImageType_eqb imageType JPEG)
  && (shrink >=? 2).

(** Sizes that [float64] holds exactly: of an image, and of a request. *)
Definition image_dimension (z : Z) : Prop := 0 < z < 2 ^ 53.
Definition requested_dimension (z : Z) : Prop := 0 <= z < 2 ^ 53.

(** *** Example options *)

(** A bare request for 200x200 with a JPEG output. *)
Definition bare_200x200 : Options :=
  set_Type JPEG (set_Height 200 (set_Width 200 Double.zeroOptions)).

(** The same request in embed mode. *)
Definition embed_200x200 : Options := set_Embed true bare_200x200.


(** A bare request for a width of 200. *)
Definition width_200 : Options := set_Width 200 Double.zeroOptions.

(** Crop and embed together. *)
Definition crop_embed : Options :=
  set_Embed true (set_Crop true bare_200x200).

(** Crop, embed and smart crop together. *)
Definition crop_embed_smart : Options := set_SmartCrop true crop_embed.

(** Force with crop and embed. *)
Definition force_crop_embed : Options := set_Force true crop_embed.

(** An area extraction that names an offset and no size. *)
Definition area_without_size : Options := set_Top 10 Double.zeroOptions.

(** A height of 100 and an offset, for a tall strip: the automatic width of
    a 1x1000 input rounds to 0. *)
Definition strip_with_offset : Options :=
  set_Type PNG (set_Top 1 (set_Height 100 Double.zeroOptions)).

(** An offset and nothing else. *)
Definition offset_alone : Options := set_Type PNG (set_Top 1 Double.zeroOptions).

(** Sharpening asked for through [Y3] alone. *)
Definition sharpen_y3_only : Options :=
  set_Sharpen
    (mkSharpen 0 F64.zero F64.zero (F64.of_int 1) F64.zero F64.zero)
    Double.zeroOptions.

(** The same on a JPEG output. *)
Definition sharpen_y3_jpeg : Options := set_Type JPEG sharpen_y3_only.

(** A blur with sigma 2. *)
Definition blur_sigma_2 : Options :=
  set_GaussianBlur (mkGaussianBlur (F64.of_int 2) F64.zero) Double.zeroOptions.

(** An area given by its offset, with the size taken from Width and Height. *)
Definition area_from_size : Options := set_Top 10 bare_200x200.

(** A crop to 30x20. *)
Definition crop_30x20 : Options :=
  set_Crop true (set_Height 20 (set_Width 30 Double.zeroOptions)).

(** A binding whose blur fails. *)
Definition blur_fails : Vips Double.World Double.Image :=
  Double.vips (String.eqb "vipsGaussianBlur").

(** A binding whose affine transform fails. *)
Definition affine_fails : Vips Double.World Double.Image :=
  Double.vips (String.eqb "vipsAffine").

(** The state in which the forced 200x200 resize of a 100x100 JPEG ends on
    that binding. *)
Definition affine_failure_state : State Double.World Double.Image :=
  Eval vm_compute in
    match process affine_fails (Some (100, 100)) JPEG bare_200x200 [] Double.start with
    | Returned _ st => st
    | Panicked => Double.start
    end.

(** *** Further examples *)

(** Assignments to three more fields. *)
Definition set_MaxWidth (v : Z) (o : Options) : Options :=
  mkOptions (Height o) (Width o) (AreaHeight o) (AreaWidth o) (Top o) (Left o)
    (Quality o) (Compression o) (Zoom o) (Crop o) (SmartCrop o) (Enlarge o)
    (Embed o) (Flip o) (Flop o) (Force o) (NoAutoRotate o) (NoProfile o)
    (Interlace o) (StripMetadata o) (Trim o) (Lossless o) (Extend o)
    (Rotate o) (Background o) (Gravity o) (Watermark o) (WatermarkImage o)
    (Type_ o) (Interpolator o) (Interpretation o) (GaussianBlur o) (Sharpen o)
    (Threshold o) (OutputICC o) v (MaxHeight o) (MinWidth o) (MinHeight o).

Definition set_Trim (v : bool) (o : Options) : Options :=
  mkOptions (Height o) (Width o) (AreaHeight o) (AreaWidth o) (Top o) (Left o)
    (Quality o) (Compression o) (Zoom o) (Crop o) (SmartCrop o) (Enlarge o)
    (Embed o) (Flip o) (Flop o) (Force o) (NoAutoRotate o) (NoProfile o)
    (Interlace o) (StripMetadata o) v (Lossless o) (Extend o)
    (Rotate o) (Background o) (Gravity o) (Watermark o) (WatermarkImage o)
    (Type_ o) (Interpolator o) (Interpretation o) (GaussianBlur o) (Sharpen o)
    (Threshold o) (OutputICC o) (MaxWidth o) (MaxHeight o) (MinWidth o)
    (MinHeight o).

Definition set_Flop (v : bool) (o : Options) : Options :=
  mkOptions (Height o) (Width o) (AreaHeight o) (AreaWidth o) (Top o) (Left o)
    (Quality o) (Compression o) (Zoom o) (Crop o) (SmartCrop o) (Enlarge o)
    (Embed o) (Flip o) v (Force o) (NoAutoRotate o) (NoProfile o)
    (Interlace o) (StripMetadata o) (Trim o) (Lossless o) (Extend o)
    (Rotate o) (Background o) (Gravity o) (Watermark o) (WatermarkImage o)
    (Type_ o) (Interpolator o) (Interpretation o) (GaussianBlur o) (Sharpen o)
    (Threshold o) (OutputICC o) (MaxWidth o) (MaxHeight o) (MinWidth o)
    (MinHeight o).

(** A width of 5000 under a maximal width of 1000. *)
Definition width_5000_max_1000 : Options :=
  set_MaxWidth 1000 (set_Width 5000 Double.zeroOptions).

(** A rotation by 90 degrees; the same with a vertical flip and the
    automatic rotation off; and with a horizontal flip as well. *)
Definition rotate_90 : Options := set_Rotate 90 Double.zeroOptions.

Definition rotate_90_flip : Options :=
  set_NoAutoRotate true (set_Flip true rotate_90).

Definition rotate_90_flip_flop : Options := set_Flop true rotate_90_flip.

(** A trim. *)
Definition trim_request : Options := set_Trim true Double.zeroOptions.

(** Nothing requested, with the automatic rotation off and a JPEG output;
    and the same with a crop flag and an offset, which ask for nothing
    without a size. *)
Definition nothing_requested : Options :=
  set_NoAutoRotate true (set_Type JPEG Double.zeroOptions).

Definition crop_without_size : Options :=
  set_Top 10 (set_Crop true nothing_requested).

(** A text watermark and an overlay with every other field at zero. *)
Definition text_watermark : WatermarkT :=
  mkWatermark 0 0 0 F64.zero false "bimg" "" ColorBlack.

Definition overlay_watermark : WatermarkImageT :=
  mkWatermarkImage 0 0 [Byte.x01] F64.zero.

(** Bindings on which the rotation, the extraction, the re-reading of the
    buffer, and the saving fail. *)
Definition rotate_fails : Vips Double.World Double.Image :=
  Double.vips (String.eqb "vipsRotate").

Definition extract_fails : Vips Double.World Double.Image :=
  Double.vips (String.eqb "vipsExtract").

Definition buffer_fails : Vips Double.World Double.Image :=
  Double.vips (String.eqb "getImageBuffer").

Definition save_fails : VipsIO Double.World Double.Image :=
  DoubleIO.io (String.eqb "vipsSave").

(** The binding [vips] with [vipsRotate] replaced by [f]. *)
Definition with_vipsRotate {World Image : Type}
    (f : ptr Image -> Angle -> World -> (ptr Image * option error) * World)
    (vips : Vips World Image) : Vips World Image :=
  {| Xsize := Xsize vips;
     Ysize := Ysize vips;
     DefaultQuality := DefaultQuality vips;
     InterpretationSRGB := InterpretationSRGB vips;
     WatermarkFont := WatermarkFont vips;
     VipsMajorVersion := VipsMajorVersion vips;
     VipsMinorVersion := VipsMinorVersion vips;
     IsTypeSupported := IsTypeSupported vips;
     ImageTypeName := ImageTypeName vips;
     InterpolatorString := InterpolatorString vips;
     vipsWindowSize := vipsWindowSize vips;
     vipsExifOrientation := vipsExifOrientation vips;
     vipsRotate := f;
     vipsFlip := vipsFlip vips;
     getImageBuffer := getImageBuffer vips;
     vipsShrinkJpeg := vipsShrinkJpeg vips;
     vipsShrinkWebp := vipsShrinkWebp vips;
     vipsZoom := vipsZoom vips;
     vipsShrink := vipsShrink vips;
     vipsReduce := vipsReduce vips;
     vipsAffine := vipsAffine vips;
     vipsSmartCrop := vipsSmartCrop vips;
     vipsExtract := vipsExtract vips;
     vipsEmbed := vipsEmbed vips;
     vipsTrim := vipsTrim vips;
     vipsGaussianBlur := vipsGaussianBlur vips;
     vipsSharpen := vipsSharpen vips;
     vipsWatermark := vipsWatermark vips;
     vipsDrawWatermark := vipsDrawWatermark vips;
     vipsFlattenBackground := vipsFlattenBackground vips |}.

(** A binding that rotates by right angles only: any other angle makes it
    fail. *)
Definition right_angles_only : Vips Double.World Double.Image :=
  with_vipsRotate
    (fun image angle =>
       if (angle =? 0) || (angle =? 90) || (angle =? 180) || (angle =? 270)
       then vipsRotate Double.ok image angle
       else vipsRotate rotate_fails image angle)
    Double.ok.

(** A rotation by 100 degrees. *)
Definition rotate_100 : Options := set_Rotate 100 Double.zeroOptions.

(** An output type that the double does not support. *)
Definition unknown_output : Options := Double.zeroOptions.

(** A trim with sharpening through [Y3], the automatic rotation off and a
    PNG output. *)
Definition trim_and_sharpen : Options :=
  set_Trim true (set_NoAutoRotate true (set_Type PNG sharpen_y3_only)).

(** A binding whose trim fails. *)
Definition trim_fails : Vips Double.World Double.Image :=
  Double.vips (String.eqb "vipsTrim").

(** The state in which [process] calls [rotateAndFlipImage]: the native
    state is the caller's and the check of the output type is noted. *)
Definition type_checked {World Image : Type} (image0 : ptr Image)
    (st : State World Image) : State World Image :=
  mkState (world st)
    (history st ++ [mkStageEvent StageOutputType image0 image0 None (world st)]).

(* ================================================================== *)
(** ** Facts about Go's [int] and [float64] *)

Module GoIntFacts.
Import GoInt.

Lemma wrap_id z : in_range z -> wrap z = z.
Proof.
  unfold in_range, wrap, min_int, max_int. intros H.
  rewrite Z.mod_small; lia.
Qed.

Lemma wrap_in_range z : in_range (wrap z).
Proof.
  unfold in_range, wrap, min_int, max_int.
  pose proof (Z.mod_pos_bound (z + 2 ^ 63) (2 ^ 64) ltac:(lia)). lia.
Qed.

Lemma sub_exact a b : in_range (a - b) -> sub a b = a - b.
Proof. apply wrap_id. Qed.

Lemma add_exact a b : in_range (a + b) -> add a b = a + b.
Proof. apply wrap_id. Qed.

Lemma div_exact a b : in_range (Z.quot a b) -> div a b = Z.quot a b.
Proof. apply wrap_id. Qed.

End GoIntFacts.

Module F64Facts.
Import F64.

Lemma digits2_pos_bounds p :
  2 ^ (Z.pos (digits2_pos p) - 1) <= Z.pos p < 2 ^ Z.pos (digits2_pos p).
Proof.
  induction p as [p IH | p IH | ]; simpl digits2_pos.
  - rewrite Pos2Z.inj_succ.
    replace (Z.succ (Z.pos (digits2_pos p)) - 1) with (Z.succ (Z.pos (digits2_pos p) - 1)) by lia.
    rewrite !Z.pow_succ_r by lia. lia.
  - rewrite Pos2Z.inj_succ.
    replace (Z.succ (Z.pos (digits2_pos p)) - 1) with (Z.succ (Z.pos (digits2_pos p) - 1)) by lia.
    rewrite !Z.pow_succ_r by lia. lia.
  - simpl. lia.
Qed.

Lemma digits2_pos_iter_xO p k :
  digits2_pos (Pos.iter xO p k) = (digits2_pos p + k)%positive.
Proof.
  induction k using Pos.peano_ind.
  - simpl. lia.
  - rewrite Pos.iter_succ. simpl. rewrite IHk. lia.
Qed.

Lemma pos_iter_xO_value p k : Z.pos (Pos.iter xO p k) = Z.pos p * 2 ^ Z.pos k.
Proof.
  induction k using Pos.peano_ind.
  - simpl. lia.
  - rewrite Pos.iter_succ, Pos2Z.inj_succ, Z.pow_succ_r by lia.
    rewrite Pos2Z.inj_xO, IHk. lia.
Qed.

Lemma shr_1_m mrs : 0 <= shr_m mrs -> shr_m (shr_1 mrs) = shr_m mrs / 2.
Proof.
  destruct mrs as [m r s]. cbn [shr_m]. intros Hm.
  destruct m as [ | [p | p | ] | p]; cbn [shr_1 shr_m];
    first [ reflexivity | lia
          | apply Z.div_unique with 1; lia | apply Z.div_unique with 0; lia ].
Qed.

Lemma iter_shr_1_m n : forall mrs,
  0 <= shr_m mrs -> shr_m (iter_pos shr_1 n mrs) = shr_m mrs / 2 ^ Z.pos n.
Proof.
  induction n as [n IH | n IH | ]; intros mrs Hm; simpl iter_pos.
  - assert (H1 : 0 <= shr_m (shr_1 mrs)) by (rewrite shr_1_m by assumption; apply Z.div_pos; lia).
    assert (H2 : 0 <= shr_m (iter_pos shr_1 n (shr_1 mrs)))
      by (rewrite IH by assumption; apply Z.div_pos; lia).
    rewrite IH, IH, shr_1_m by assumption.
    rewrite !Z.div_div by lia. f_equal.
    rewrite Pos2Z.inj_xI. rewrite <- !Z.pow_add_r by lia.
    replace (2 * Z.pos n + 1) with (1 + Z.pos n + Z.pos n) by lia.
    rewrite !Z.pow_add_r by lia. lia.
  - assert (H2 : 0 <= shr_m (iter_pos shr_1 n mrs))
      by (rewrite IH by assumption; apply Z.div_pos; lia).
    rewrite IH, IH by assumption.
    rewrite !Z.div_div by lia. f_equal.
    rewrite Pos2Z.inj_xO. rewrite <- !Z.pow_add_r by lia. f_equal. lia.
  - rewrite shr_1_m by assumption. reflexivity.
Qed.

Lemma fexp_eq x : -1021 <= x -> fexp prec emax x = x - 53.
Proof. unfold fexp, emin, prec, emax. lia. Qed.

Lemma shr_zero mrs e : shr mrs e 0 = (mrs, e).
Proof. reflexivity. Qed.

(** Rounding a mantissa that already has 53 digits changes nothing. *)
Lemma binary_round_aux_canonical s m e :
  Z.pos (digits2_pos m) = 53 -> -1074 <= e <= 971 ->
  binary_round_aux prec emax s (Z.pos m) e loc_Exact = S754_finite s m e.
Proof.
  intros Hd He. unfold binary_round_aux, shr_fexp.
  cbn [Zdigits2 shr_record_of_loc]. rewrite Hd.
  rewrite fexp_eq by lia.
  replace (53 + e - 53 - e) with 0 by lia. rewrite shr_zero.
  cbn [shr_m loc_of_shr_record round_nearest_even Zdigits2 shr_record_of_loc].
  rewrite Hd, fexp_eq by lia.
  replace (53 + e - 53 - e) with 0 by lia. rewrite shr_zero.
  cbn [shr_m]. unfold emax, prec.
  destruct (Z.leb_spec e (1024 - 53)); [reflexivity | lia].
Qed.

Lemma round_nearest_even_bounds m l :
  m <= round_nearest_even m l <= m + 1.
Proof.
  destruct l as [ | [ | | ]]; cbn [round_nearest_even]; try lia.
  destruct (Z.even m); lia.
Qed.

(** The float of a non-zero integer of at most 1000 binary digits is a
    normal number whose exponent is fixed by the number of digits. *)
Lemma digits2_pos_unique p d :
  2 ^ (d - 1) <= Z.pos p < 2 ^ d -> Z.pos (digits2_pos p) = d.
Proof.
  intros [Hlo Hhi]. pose proof (digits2_pos_bounds p) as [Hlo' Hhi'].
  assert (0 < d).
  { destruct (Z.ltb_spec 0 d) as [ | Hd0 ]; [ assumption | ].
    destruct (Z.eq_dec d 0) as [-> | ]; [ simpl in Hhi; lia | ].
    rewrite (Z.pow_neg_r 2 d) in Hhi by lia. lia. }
  set (d' := Z.pos (digits2_pos p)) in *.
  assert (d' - 1 < d) by (apply (Z.pow_lt_mono_r_iff 2); lia).
  assert (d - 1 < d') by (apply (Z.pow_lt_mono_r_iff 2); lia).
  lia.
Qed.

Lemma binary_round_int_shape s p :
  Z.pos (digits2_pos p) <= 1000 ->
  exists m e,
    binary_round prec emax s p 0 = S754_finite s m e /\
    Z.pos (digits2_pos p) - 53 <= e <= Z.pos (digits2_pos p) - 52 /\
    2 ^ 52 <= Z.pos m < 2 ^ 53.
Proof.
  intros Hd.
  pose proof (digits2_pos_bounds p) as Hp.
  remember (Z.pos (digits2_pos p)) as d eqn:Ed.
  unfold binary_round, shl_align.
  rewrite fexp_eq by lia. rewrite <- Ed.
  destruct (d + 0 - 53 - 0) as [ | k | k ] eqn:Hk.
  - (* exactly 53 digits *)
    assert (Hd53 : d = 53) by lia. rewrite Hd53 in *.
    exists p, 0. split; [ | split ].
    + apply binary_round_aux_canonical; lia.
    + lia.
    + exact Hp.
  - (* more than 53 digits: the low bits are rounded away *)
    assert (Hdk : d = 53 + Z.pos k) by lia.
    unfold binary_round_aux, shr_fexp.
    cbn [Zdigits2 shr_record_of_loc]. rewrite <- Ed, fexp_eq by lia.
    replace (d + 0 - 53 - 0) with (Z.pos k) by lia.
    cbn [shr].
    set (mrs := iter_pos shr_1 k _).
    assert (Hq : shr_m mrs = Z.pos p / 2 ^ Z.pos k).
    { unfold mrs. rewrite iter_shr_1_m; cbn [shr_m]; [ reflexivity | lia ]. }
    assert (Hqb : 2 ^ 52 <= shr_m mrs < 2 ^ 53).
    { rewrite Hq. rewrite Hdk in Hp.
      replace (53 + Z.pos k - 1) with (52 + Z.pos k) in Hp by lia.
      rewrite !Z.pow_add_r in Hp by lia.
      pose proof (Z.pow_pos_nonneg 2 (Z.pos k) ltac:(lia) ltac:(lia)).
      split.
      - apply Z.div_le_lower_bound; lia.
      - apply Z.div_lt_upper_bound; lia. }
    pose proof (round_nearest_even_bounds (shr_m mrs) (loc_of_shr_record mrs)) as Hr.
    destruct (round_nearest_even (shr_m mrs) (loc_of_shr_record mrs))
      as [ | m' | m' ] eqn:Hq'; try lia.
    cbn [Zdigits2].
    destruct (Z.eq_dec (Z.pos m') (2 ^ 53)) as [Hcarry | Hnocarry].
    + (* the rounding carried into a 54th digit *)
      assert (Hdm : Z.pos (digits2_pos m') = 54)
        by (apply digits2_pos_unique; rewrite Hcarry; simpl; lia).
      rewrite Hdm, fexp_eq by lia.
      replace (54 + (0 + Z.pos k) - 53 - (0 + Z.pos k)) with 1 by lia.
      cbn [shr iter_pos].
      assert (Hm2 : shr_m (shr_1 {| shr_m := Z.pos m'; shr_r := false; shr_s := false |})
                    = 2 ^ 52)
        by (rewrite shr_1_m; cbn [shr_m]; [ rewrite Hcarry; reflexivity | lia ]).
      destruct (shr_m (shr_1 _)) as [ | m2 | m2 ] eqn:Hm2'; try (simpl in Hm2; lia).
      exists m2, (0 + Z.pos k + 1). split; [ | split ].
      * unfold emax, prec.
        destruct (Z.leb_spec (0 + Z.pos k + 1) (1024 - 53)); [ reflexivity | lia ].
      * lia.
      * rewrite Hm2. simpl. lia.
    + assert (Hdm : Z.pos (digits2_pos m') = 53)
        by (apply digits2_pos_unique; simpl (53 - 1); lia).
      rewrite Hdm, fexp_eq by lia.
      replace (53 + (0 + Z.pos k) - 53 - (0 + Z.pos k)) with 0 by lia.
      rewrite shr_zero. cbn [shr_m].
      exists m', (0 + Z.pos k). split; [ | split ].
      * unfold emax, prec.
        destruct (Z.leb_spec (0 + Z.pos k) (1024 - 53)); [ reflexivity | lia ].
      * lia.
      * lia.
  - (* fewer than 53 digits: the mantissa is shifted left, exactly *)
    assert (Hdk : d + Z.pos k = 53) by lia.
    exists (Pos.iter xO p k), (d + 0 - 53). split; [ | split ].
    + apply binary_round_aux_canonical; [ | lia ].
      rewrite digits2_pos_iter_xO, Pos2Z.inj_add, <- Ed. lia.
    + lia.
    + rewrite pos_iter_xO_value.
      replace 52 with ((d - 1) + Z.pos k) by lia.
      replace 53 with (d + Z.pos k) by lia.
      rewrite !Z.pow_add_r by lia.
      pose proof (Z.pow_pos_nonneg 2 (Z.pos k) ltac:(lia) ltac:(lia)). nia.
Qed.

(** *** [float64(n)] *)

Lemma digits2_pos_le p n :
  0 <= n -> Z.pos p < 2 ^ n -> Z.pos (digits2_pos p) <= n.
Proof.
  intros Hn Hp. pose proof (digits2_pos_bounds p) as [Hlo _].
  assert (Z.pos (digits2_pos p) - 1 < n) by (apply (Z.pow_lt_mono_r_iff 2); lia).
  lia.
Qed.

Lemma digits2_pos_ge p n :
  0 <= n -> 2 ^ n <= Z.pos p -> n < Z.pos (digits2_pos p).
Proof.
  intros Hn Hp. pose proof (digits2_pos_bounds p) as [_ Hhi].
  apply (Z.pow_lt_mono_r_iff 2); lia.
Qed.

(** From 512 on, the float of an [int] has an exponent above that of 270. *)
Lemma of_int_large z :
  512 <= z <= GoInt.max_int ->
  exists m e, of_int z = S754_finite false m e /\ -43 <= e.
Proof.
  intros [Hlo Hhi]. unfold GoInt.max_int in Hhi.
  destruct z as [ | p | p ]; try lia.
  assert (Hd1 : Z.pos (digits2_pos p) <= 63) by (apply digits2_pos_le; lia).
  assert (Hd2 : 9 < Z.pos (digits2_pos p))
    by (apply digits2_pos_ge; [ lia | change (2 ^ 9) with 512; lia ]).
  destruct (binary_round_int_shape false p ltac:(lia)) as (m & e & Heq & He & _).
  exists m, e. split; [ exact Heq | lia ].
Qed.

(** A positive [int] below [2^62] converts to a positive float below
    [2^63]. *)
Lemma of_int_pos z :
  0 < z < 2 ^ 62 ->
  exists m e, of_int z = S754_finite false m e /\ e <= 10 /\ Z.pos m < 2 ^ 53.
Proof.
  intros [Hlo Hhi].
  destruct z as [ | p | p ]; try lia.
  assert (Hd1 : Z.pos (digits2_pos p) <= 62) by (apply digits2_pos_le; lia).
  destruct (binary_round_int_shape false p ltac:(lia)) as (m & e & Heq & He & Hm).
  exists m, e. split; [ exact Heq | lia ].
Qed.

Lemma of_int_neg z :
  - 2 ^ 62 < z < 0 -> exists m e, of_int z = S754_finite true m e.
Proof.
  intros [Hlo Hhi].
  destruct z as [ | p | p ]; try lia.
  assert (Hd1 : Z.pos (digits2_pos p) <= 62) by (apply digits2_pos_le; lia).
  destruct (binary_round_int_shape true p ltac:(lia)) as (m & e & Heq & _).
  exists m, e. exact Heq.
Qed.

Lemma trunc_finite_nonneg m e : 0 <= trunc_finite false m e.
Proof.
  unfold trunc_finite. destruct (0 <=? e) eqn:He.
  - apply Z.leb_le in He.
    pose proof (Z.pow_pos_nonneg 2 e ltac:(lia) He). nia.
  - apply Z.div_pos; [ lia | ]. apply Z.pow_pos_nonneg; lia.
Qed.

Lemma trunc_finite_bound m e :
  e <= 10 -> Z.pos m < 2 ^ 53 -> trunc_finite false m e < 2 ^ 63.
Proof.
  intros He Hm. unfold trunc_finite. destruct (0 <=? e) eqn:He0.
  - apply Z.leb_le in He0.
    assert (2 ^ e <= 2 ^ 10) by (apply Z.pow_le_mono_r; lia).
    pose proof (Z.pow_pos_nonneg 2 e ltac:(lia) He0).
    change (2 ^ 63) with (2 ^ 53 * 2 ^ 10). nia.
  - apply Z.leb_gt in He0.
    pose proof (Z.pow_pos_nonneg 2 (- e) ltac:(lia) ltac:(lia)) as Hp.
    assert (Z.pos m / 2 ^ (- e) <= Z.pos m)
      by (apply Z.div_le_upper_bound; [ lia | nia ]).
    lia.
Qed.

(** [int(math.Max(float64(z), 0))] is never negative. *)
Lemma clamp_nonneg z :
  - 2 ^ 62 < z < 2 ^ 62 -> 0 <= to_int (max (of_int z) zero).
Proof.
  intros Hz.
  destruct (Z.lt_trichotomy z 0) as [Hneg | [-> | Hpos]].
  - destruct (of_int_neg z ltac:(lia)) as (m & e & ->). cbn. lia.
  - cbn. lia.
  - destruct (of_int_pos z ltac:(lia)) as (m & e & -> & He & Hm).
    replace (max (S754_finite false m e) zero) with (S754_finite false m e)
      by reflexivity.
    pose proof (trunc_finite_nonneg m e) as H0.
    pose proof (trunc_finite_bound m e He Hm) as H1.
    unfold to_int.
    destruct ((GoInt.min_int <=? trunc_finite false m e)
              && (trunc_finite false m e <=? GoInt.max_int)) eqn:Hr.
    + exact H0.
    + apply andb_false_iff in Hr.
      unfold GoInt.min_int, GoInt.max_int in Hr.
      destruct Hr as [Hr | Hr]; [ apply Z.leb_gt in Hr | apply Z.leb_gt in Hr ]; lia.
Qed.

End F64Facts.

(* ================================================================== *)
(** ** [getAngle] *)

Lemma getAngle_snapped (a : Z) :
  0 <= a <= GoInt.max_int -> Z.rem a 90 = 0 ->
  F64.to_int (F64.min (F64.of_int a) (F64.of_int 270)) = Z.min a 270.
Proof.
  intros Ha Hrem.
  destruct (Z_lt_le_dec a 512) as [Hsmall | Hlarge].
  - (* the multiples of 90 below 512 *)
    assert (Hk : a = 90 * Z.quot a 90) by (pose proof (Z.quot_rem' a 90); lia).
    assert (Hq : 0 <= Z.quot a 90 <= 5) by lia.
    assert (Hcases : a = 0 \/ a = 90 \/ a = 180 \/ a = 270 \/ a = 360 \/ a = 450) by lia.
    destruct Hcases as [-> | [-> | [-> | [-> | [-> | ->]]]]]; vm_compute; reflexivity.
  - destruct (F64Facts.of_int_large a ltac:(lia)) as (m & e & -> & He).
    change (F64.of_int 270) with (S754_finite false 4749890231992320 (-44)).
    unfold F64.min, F64.ltb, SFltb. cbn [F64.is_inf F64.is_nan orb F64.eqb SFeqb
      SFcompare F64.zero andb].
    destruct (Z.compare_spec e (-44)) as [H | H | H]; try lia.
    rewrite Z.min_r by lia. vm_compute. reflexivity.
Qed.

(** The angle [getAngle] converts: the argument without its remainder. *)
Lemma getAngle_floor (x : Z) :
  0 <= x <= GoInt.max_int ->
  (if negb (GoInt.rem x 90 =? 0) then GoInt.sub x (GoInt.rem x 90) else x)
  = 90 * (x / 90).
Proof.
  intros Hx. unfold GoInt.rem, GoInt.max_int in *.
  rewrite Z.rem_mod_nonneg by lia.
  pose proof (Z.mod_pos_bound x 90 ltac:(lia)) as Hm.
  pose proof (Z.div_mod x 90 ltac:(lia)) as Hdm.
  destruct (x mod 90 =? 0) eqn:E; cbn [negb].
  - apply Z.eqb_eq in E. lia.
  - rewrite GoIntFacts.sub_exact by (unfold GoInt.in_range, GoInt.min_int, GoInt.max_int; lia).
    lia.
Qed.

Lemma getAngle_formula (x : Z) :
  0 <= x <= GoInt.max_int -> getAngle x = Z.min (90 * (x / 90)) 270.
Proof.
  intros Hx. unfold getAngle. rewrite getAngle_floor by assumption.
  pose proof (Z.div_mod x 90 ltac:(lia)) as Hdm.
  pose proof (Z.mod_pos_bound x 90 ltac:(lia)) as Hm.
  apply getAngle_snapped.
  - lia.
  - rewrite Z.mul_comm. apply Z.rem_mul. lia.
Qed.

(** C7.  [getAngle] is defined on every non-negative angle and snaps it down
    to the nearest lower multiple of 90, capped at 270: the result is
    [min (90 * floor (x / 90)) 270], one of 0, 90, 180 and 270, and applying
    [getAngle] again changes nothing; getAngle(45)=0, getAngle(90)=90,
    getAngle(100)=90, getAngle(370)=270 and getAngle(400)=270. *)
Theorem getAngle_snaps_to_quadrant :
  (forall x : Angle,
      0 <= x <= GoInt.max_int ->
      getAngle x = Z.min (90 * (x / 90)) 270
      /\ In (getAngle x) [0; 90; 180; 270]
      /\ getAngle (getAngle x) = getAngle x)
  /\ getAngle 45 = 0 /\ getAngle 90 = 90 /\ getAngle 100 = 90
  /\ getAngle 370 = 270 /\ getAngle 400 = 270.
Proof.
  split; [ | repeat split; vm_compute; reflexivity ].
  intros x Hx.
  pose proof (getAngle_formula x Hx) as Hf.
  assert (Hq : 0 <= x / 90) by (apply Z.div_pos; lia).
  assert (Hin : In (getAngle x) [0; 90; 180; 270]).
  { rewrite Hf. cbn [In].
    assert (x / 90 = 0 \/ x / 90 = 1 \/ x / 90 = 2 \/ 3 <= x / 90) by lia. lia. }
  split; [ exact Hf | split; [ exact Hin | ] ].
  cbn [In] in Hin.
  destruct Hin as [<- | [<- | [<- | [<- | []]]]]; vm_compute; reflexivity.
Qed.

(** The angle 370 is snapped to 270. *)
Lemma getAngle_snaps_to_quadrant_witness :
  0 <= 370 <= GoInt.max_int /\ getAngle 370 = Z.min (90 * (370 / 90)) 270.
Proof.
  split.
  - unfold GoInt.max_int. lia.
  - apply (proj1 getAngle_snaps_to_quadrant 370). unfold GoInt.max_int. lia.
Defined.

(* ================================================================== *)
(** ** Running computations in proofs *)

(** Case analysis on the scrutinee a term is stuck on. *)
Ltac destruct_head t :=
  lazymatch t with
  | match ?x with _ => _ end => first [ destruct_head x | destruct x eqn:? ]
  | ?f _ => destruct_head f
  end.

Ltac run_in H :=
  cbv beta iota zeta delta [bind ret record_stage native deref] in H;
  cbn [world history] in H.

Ltac step_in H :=
  lazymatch type of H with
  | Panicked = _ => discriminate H
  | Returned _ _ = _ => fail
  | ?lhs = _ => destruct_head lhs; run_in H
  end.

(** Runs both sides of an equation between computations, case by case. *)
Ltac run_both :=
  cbv beta iota zeta delta [bind ret native deref];
  repeat (try reflexivity;
          lazymatch goal with
          | |- ?lhs = _ => destruct_head lhs
          end;
          cbv beta iota zeta delta [bind ret native deref]);
  try reflexivity.

(** Splits a list written out in full into its front and its last element. *)
Ltac snoc_of l :=
  lazymatch l with
  | [?x] => let T := type of x in constr:((@Datatypes.nil T, x))
  | ?x :: ?r =>
      lazymatch snoc_of r with
      | (?d, ?e) => constr:((x :: d, e))
      end
  end.

(* ================================================================== *)
(** ** The stages leave the ghost history alone *)

Section History.
Context {World Image : Type}.

Lemma preserves_ret {A : Type} (a : A) : preserves_history (@ret World Image A a).
Proof. intros st a' st' H. inversion H. reflexivity. Qed.

Lemma preserves_bind {A B : Type} (m : M World Image A) (k : A -> M World Image B) :
  preserves_history m -> (forall a, preserves_history (k a)) ->
  preserves_history (bind m k).
Proof.
  intros Hm Hk st b st' H. unfold bind in H.
  destruct (m st) as [a st1 | ] eqn:E; [ | discriminate ].
  rewrite (Hk a _ _ _ H). exact (Hm _ _ _ E).
Qed.

Lemma preserves_native {A : Type} (f : World -> A * World) :
  preserves_history (@native World Image A f).
Proof.
  intros st a st' H. unfold native in H.
  destruct (f (world st)). inversion H. reflexivity.
Qed.

Lemma preserves_deref (p : ptr Image) : preserves_history (@deref World Image p).
Proof.
  intros st a st' H. unfold deref in H.
  destruct p; inversion H. reflexivity.
Qed.

End History.

Create HintDb history.

(** Decomposes a computation built from [bind], [ret], [native], [deref] and
    case analysis. *)
Ltac preserves :=
  repeat first
    [ assumption
    | solve [ auto with history nocore ]
    | apply preserves_ret
    | apply preserves_native
    | apply preserves_deref
    | apply preserves_bind; [ | intros ]
    | match goal with
      | |- preserves_history (match ?x with _ => _ end) => destruct x
      | |- preserves_history (let (_, _) := ?x in _) => destruct x
      end ].

Section StagesPreserveHistory.
Context {World Image : Type}.
Variable vips : Vips World Image.

Lemma extractOrEmbedImage_preserves image o :
  preserves_history (extractOrEmbedImage vips image o).
Proof. unfold extractOrEmbedImage. preserves. Qed.

#[local] Hint Resolve extractOrEmbedImage_preserves : history.

Lemma calculateRotationAndFlip_preserves image angle :
  preserves_history (calculateRotationAndFlip vips image angle).
Proof. unfold calculateRotationAndFlip. preserves. Qed.

Lemma rotateAndFlipImage_preserves image o :
  preserves_history (rotateAndFlipImage vips image o).
Proof.
  pose proof (calculateRotationAndFlip_preserves image (Rotate o)).
  unfold rotateAndFlipImage. preserves.
Qed.

Lemma shrinkOnLoad_preserves buf input imageType factor shrink :
  preserves_history (shrinkOnLoad vips buf input imageType factor shrink).
Proof. unfold shrinkOnLoad. preserves. Qed.

Lemma zoomImage_preserves image zoom : preserves_history (zoomImage vips image zoom).
Proof. unfold zoomImage. preserves. Qed.

Lemma shrinkImage_preserves image o residual shrink :
  preserves_history (shrinkImage vips image o residual shrink).
Proof. unfold shrinkImage. preserves. Qed.

Lemma transformImage_preserves image o shrink residual :
  preserves_history (transformImage vips image o shrink residual).
Proof.
  pose proof (shrinkImage_preserves image o residual shrink).
  unfold transformImage. preserves.
Qed.

Lemma applyEffects_preserves image o : preserves_history (applyEffects vips image o).
Proof. unfold applyEffects. preserves. Qed.

Lemma watermarkImageWithText_preserves image w :
  preserves_history (watermarkImageWithText vips image w).
Proof. unfold watermarkImageWithText. preserves. Qed.

Lemma watermarkImageWithAnotherImage_preserves image w :
  preserves_history (watermarkImageWithAnotherImage vips image w).
Proof. unfold watermarkImageWithAnotherImage. preserves. Qed.

Lemma imageFlatten_preserves image imageType o :
  preserves_history (imageFlatten vips image imageType o).
Proof. unfold imageFlatten. preserves. Qed.

End StagesPreserveHistory.

(** Replaces the history a stage returns by the history it was given. *)
Ltac stage_frame :=
  repeat match goal with
    | Hq : _ = Returned _ ?s' |- _ =>
        first
          [ apply rotateAndFlipImage_preserves in Hq
          | apply shrinkOnLoad_preserves in Hq
          | apply zoomImage_preserves in Hq
          | apply transformImage_preserves in Hq
          | apply applyEffects_preserves in Hq
          | apply watermarkImageWithText_preserves in Hq
          | apply watermarkImageWithAnotherImage_preserves in Hq
          | apply imageFlatten_preserves in Hq ];
        rewrite ?Hq in *
    end.

(* ================================================================== *)
(** ** [normalizeOperation] and the no-enlargement guard *)

(** Without bounds, [normalizeOperation] may only set [Force]. *)
Lemma normalizeOperation_unbounded (o : Options) (inWidth inHeight : Z) :
  MaxWidth o = 0 -> MaxHeight o = 0 -> MinWidth o = 0 -> MinHeight o = 0 ->
  normalizeOperation o inWidth inHeight =
  if negb (Force o) && negb (Crop o) && negb (Embed o) && negb (Enlarge o)
     && (Rotate o =? 0) && ((Width o >? 0) || (Height o >? 0))
  then set_Force true o else o.
Proof.
  intros HMW HMH HmW HmH.
  destruct o as
    [ oHeight oWidth oAreaHeight oAreaWidth oTop oLeft oQuality oCompression
      oZoom oCrop oSmartCrop oEnlarge oEmbed oFlip oFlop oForce oNoAutoRotate
      oNoProfile oInterlace oStripMetadata oTrim oLossless oExtend oRotate
      oBackground oGravity oWatermark oWatermarkImage oType oInterpolator
      oInterpretation oGaussianBlur oSharpen oThreshold oOutputICC oMaxWidth
      oMaxHeight oMinWidth oMinHeight ].
  cbn [MaxWidth MaxHeight MinWidth MinHeight] in HMW, HMH, HmW, HmH; subst.
  cbv beta delta [normalizeOperation].
  match goal with
  | |- _ = if ?c then _ else _ => destruct c
  end;
  cbv beta iota zeta delta
    [set_Force set_Width set_Height MaxWidth MaxHeight MinWidth MinHeight
     Width Height andb Z.gtb Z.ltb Z.compare];
  reflexivity.
Qed.

(** The transform stage is its resize part followed by the selector. *)
Lemma transformImage_split {World Image : Type} (vips : Vips World Image)
    (image : ptr Image) (o : Options) (shrink : Z) (residual : float64)
    (st : State World Image) :
  transformImage vips image o shrink residual st =
  (' (img, err) <- transformResize vips image o shrink residual ;;
   match err with
   | Some e => ret (img, Some e)
   | None =>
       transformExtract vips img
         (if Force o then set_Embed false (set_Crop false o) else o)
   end)%go st.
Proof.
  unfold transformImage, transformResize, transformExtract.
  run_both.
Qed.






(* ================================================================== *)
(** ** Error short-circuit in [process] *)

(** A run of [process] without error: every stage that ran succeeded, and the
    handle returned is the one current after them. *)
Lemma process_success :
  forall (World Image : Type) (vips : Vips World Image)
    (image0 : ptr Image) (imageType : ImageType) (o : Options)
    (buf : list Byte.byte) (st : State World Image)
    (h : ptr Image) (buf' : list Byte.byte)
    (st' : State World Image),
    process vips image0 imageType o buf st = Returned (h, None, buf') st' ->
    exists done : list (StageEvent World Image),
      history st' = history st ++ done
      /\ Forall (fun x => ev_error x = None) done
      /\ h = current_handle image0 done.
Proof.
  intros World Image vips image0 imageType o buf st h buf' st' H.
  unfold process in H. run_in H.
  repeat step_in H.
  all: inversion H; subst; clear H; stage_frame.
  all: cbn [history world]; rewrite <- ?app_assoc; cbn [app].
  all: eexists; split; [ reflexivity | ].
  all: split; [ repeat constructor | reflexivity ].
Qed.

(** What reaches [process] as a stage error is what the stage returns.  Two
    stages drop errors of the binding on the way: in [rotateAndFlipImage] a
    flip that follows a failed rotation overwrites its error, and in the
    trim case of [extractOrEmbedImage] the error of [vipsTrim] lives in a
    variable of the case and is never returned. *)
Lemma rotate_error_overwritten_by_flip {World Image : Type} (vips : Vips World Image)
    (image rotatedImage flipped : ptr Image) (o : Options) (e : error)
    (st : State World Image) (w1 w2 : World) :
  NoAutoRotate o = true -> (Rotate o >? 0) = true -> Flip o = true -> Flop o = false ->
  vipsRotate vips image (getAngle (Rotate o)) (world st) = ((rotatedImage, Some e), w1) ->
  vipsFlip vips rotatedImage Vertical w1 = ((flipped, None), w2) ->
  rotateAndFlipImage vips image o st =
  Returned (flipped, true, None) (mkState w2 (history st)).
Proof.
  intros HN HR HF HP Hrot Hflip.
  unfold rotateAndFlipImage. rewrite HN. cbn [negb].
  cbv beta iota zeta delta [bind ret].
  rewrite HR, HF, HP.
  cbv beta iota zeta delta [native]. rewrite Hrot.
  cbv beta iota zeta. cbn [world]. rewrite Hflip. reflexivity.
Qed.

Lemma trim_error_is_dropped {World Image : Type} (vips : Vips World Image)
    (img : Image) (o : Options) (e : error) (box : Z * Z * Z * Z)
    (st : State World Image) (w1 : World) :
  extractOrEmbedCase o = CaseTrim ->
  vipsTrim vips (Some img) (Background o) (Threshold o) (world st) = ((box, Some e), w1) ->
  extractOrEmbedImage vips (Some img) o st =
  Returned (Some img, None) (mkState w1 (history st)).
Proof.
  intros Hcase Htrim.
  unfold extractOrEmbedImage, bind, native, ret, deref.
  rewrite Hcase, Htrim. destruct box as [[[x y] width] height]. reflexivity.
Qed.

(** C2.  An error that a stage returns stops [process]: the stages that ran
    are a sequence of successful stages followed by the failing one, nothing
    ran after it (it is the last entry of the history, and the native state
    is the one it left), its error is the error returned, and the handle
    returned is the one the failing stage was given, which is the handle
    current after the successful stages.  When [process] returns no error,
    no stage returned one.  Inside [applyEffects], a failing blur returns at
    once, before any sharpening.  But not every error of the binding is
    returned by its stage: in the trim case of [extractOrEmbedImage] a
    failure of [vipsTrim] is dropped and the stage returns the handle it was
    given without error, and in [rotateAndFlipImage] the error of a failed
    rotation is overwritten by the flip that follows it.  After such a
    failure the later stages run and [process] does not return the error. *)
Theorem process_short_circuits :
  (forall (World Image : Type) (vips : Vips World Image)
     (image0 : ptr Image) (imageType : ImageType) (o : Options)
     (buf : list Byte.byte) (st : State World Image)
     (h : ptr Image) (e : error) (buf' : list Byte.byte) (st' : State World Image),
     process vips image0 imageType o buf st = Returned (h, Some e, buf') st' ->
     exists (done : list (StageEvent World Image)) (ev : StageEvent World Image),
       history st' = history st ++ done ++ [ev]
       /\ Forall (fun x => ev_error x = None) done
       /\ ev_error ev = Some e
       /\ ev_input ev = h
       /\ h = current_handle image0 done
       /\ ev_world ev = world st')
  /\ (forall (World Image : Type) (vips : Vips World Image)
        (image0 : ptr Image) (imageType : ImageType) (o : Options)
        (buf : list Byte.byte) (st : State World Image)
        (h : ptr Image) (buf' : list Byte.byte) (st' : State World Image),
        process vips image0 imageType o buf st = Returned (h, None, buf') st' ->
        exists done : list (StageEvent World Image),
          history st' = history st ++ done
          /\ Forall (fun x => ev_error x = None) done
          /\ h = current_handle image0 done)
  /\ (forall (World Image : Type) (vips : Vips World Image)
        (image blurred : ptr Image) (o : Options) (st : State World Image)
        (e : error) (w' : World),
        blur_requested o ->
        vipsGaussianBlur vips image (GaussianBlur o) (world st) =
          ((blurred, Some e), w') ->
        applyEffects vips image o st =
        Returned (None, Some e) (mkState w' (history st)))
  /\ (forall (World Image : Type) (vips : Vips World Image) (img : Image)
        (o : Options) (e : error) (box : Z * Z * Z * Z)
        (st : State World Image) (w1 : World),
        extractOrEmbedCase o = CaseTrim ->
        vipsTrim vips (Some img) (Background o) (Threshold o) (world st) =
          ((box, Some e), w1) ->
        extractOrEmbedImage vips (Some img) o st =
        Returned (Some img, None) (mkState w1 (history st)))
  /\ (forall (World Image : Type) (vips : Vips World Image)
        (image rotatedImage flipped : ptr Image) (o : Options) (e : error)
        (st : State World Image) (w1 w2 : World),
        NoAutoRotate o = true -> (Rotate o >? 0) = true ->
        Flip o = true -> Flop o = false ->
        vipsRotate vips image (getAngle (Rotate o)) (world st) =
          ((rotatedImage, Some e), w1) ->
        vipsFlip vips rotatedImage Vertical w1 = ((flipped, None), w2) ->
        rotateAndFlipImage vips image o st =
        Returned (flipped, true, None) (mkState w2 (history st))).
Proof.
  split; [ | split; [ exact process_success | split; [ | split ] ] ].
  - intros World Image vips image0 imageType o buf st h e buf' st' H.
    unfold process in H. run_in H.
    repeat step_in H.
    all: inversion H; subst; clear H; stage_frame.
    all: cbn [history world]; rewrite <- ?app_assoc; cbn [app].
    all: lazymatch goal with
         | |- exists done ev, _ ++ ?l = _ /\ _ =>
             lazymatch snoc_of l with
             | (?d, ?x) => exists d, x
             end
         end.
    all: repeat split; try reflexivity; repeat constructor.
  - intros World Image vips image blurred o st e w' Hblur Hcall.
    unfold blur_requested, positive_float in Hblur.
    apply orb_true_iff in Hblur.
    unfold applyEffects, bind, native. rewrite Hblur, Hcall. reflexivity.
  - intros World Image vips img o e box st w1.
    exact (trim_error_is_dropped vips img o e box st w1).
  - intros World Image vips image rotatedImage flipped o e st w1 w2.
    exact (rotate_error_overwritten_by_flip vips image rotatedImage flipped o e st w1 w2).
Qed.

(** A forced resize whose affine transform fails: [process] stops in the
    transform stage and hands back the handle it had before that stage.  The
    same resize on a binding that works runs every stage without error, and
    a failing blur ends [applyEffects] with one call of the binding.  A trim
    that fails is not reported by its stage, and neither is a rotation that
    fails before a flip. *)
Lemma process_short_circuits_witness :
  (process affine_fails (Some (100, 100)) JPEG bare_200x200 [] Double.start =
   Returned (Some (100, 100), Some (VipsError "vipsAffine"), []) affine_failure_state
   /\ exists done ev,
        history affine_failure_state = history Double.start ++ done ++ [ev]
        /\ Forall (fun x => ev_error x = None) done
        /\ ev_error ev = Some (VipsError "vipsAffine")
        /\ ev_input ev = Some (100, 100)
        /\ Some (100, 100) = current_handle (Some (100, 100)) done
        /\ ev_world ev = world affine_failure_state)
  /\ (exists st' done,
        process Double.ok (Some (100, 100)) JPEG bare_200x200 [] Double.start =
        Returned (Some (200, 200), None, []) st'
        /\ history st' = history Double.start ++ done
        /\ Forall (fun x => ev_error x = None) done
        /\ Some (200, 200) = current_handle (Some (100, 100)) done)
  /\ applyEffects blur_fails (Some (100, 100)) blur_sigma_2 Double.start =
     Returned (None, Some (VipsError "vipsGaussianBlur"))
       (mkState ["vipsGaussianBlur"%string] [])
  /\ extractOrEmbedImage trim_fails (Some (100, 100)) trim_and_sharpen Double.start =
     Returned (Some (100, 100), None) (mkState ["vipsTrim"%string] [])
  /\ rotateAndFlipImage rotate_fails (Some (100, 50)) rotate_90_flip Double.start =
     Returned (None, true, None) (mkState ["vipsRotate"; "vipsFlip"]%string []).
Proof.
  split; [ | split; [ | split; [ | split ] ] ].
  - assert (Hrun :
      process affine_fails (Some (100, 100)) JPEG bare_200x200 [] Double.start =
      Returned (Some (100, 100), Some (VipsError "vipsAffine"), []) affine_failure_state)
      by (vm_compute; reflexivity).
    split; [ exact Hrun | ].
    exact (proj1 process_short_circuits _ _ _ _ _ _ _ _ _ _ _ _ Hrun).
  - destruct (process Double.ok (Some (100, 100)) JPEG bare_200x200 [] Double.start)
      as [[[h err] buf'] st' | ] eqn:Hrun; [ | vm_compute in Hrun; discriminate ].
    assert (Hres : h = Some (200, 200) /\ err = None /\ buf' = [])
      by (vm_compute in Hrun; inversion Hrun; repeat split).
    destruct Hres as (-> & -> & ->).
    destruct (proj1 (proj2 process_short_circuits) _ _ _ _ _ _ _ _ _ _ _ Hrun)
      as (done & Hh & Hok & Hcur).
    exists st', done. repeat split; assumption.
  - apply (proj1 (proj2 (proj2 process_short_circuits)) _ _ blur_fails (Some (100, 100))
             None blur_sigma_2 Double.start).
    + left. reflexivity.
    + vm_compute. reflexivity.
  - apply (proj1 (proj2 (proj2 (proj2 process_short_circuits))) _ _ trim_fails
             (100, 100) trim_and_sharpen (VipsError "vipsTrim") (0, 0, 0, 0)
             Double.start ["vipsTrim"%string]).
    + reflexivity.
    + reflexivity.
  - apply (proj2 (proj2 (proj2 (proj2 process_short_circuits))) _ _ rotate_fails
             (Some (100, 50)) None None rotate_90_flip (VipsError "vipsRotate")
             Double.start ["vipsRotate"%string] ["vipsRotate"; "vipsFlip"]%string).
    + reflexivity.
    + reflexivity.
    + reflexivity.
    + reflexivity.
    + reflexivity.
    + reflexivity.
Defined.

(** The claim fails on a PNG of 100x100 with a trim, sharpening and the
    automatic rotation off, when [vipsTrim] fails: the transform stage
    returns no error, the sharpening runs after the failure, every later
    stage runs, and [process] returns no error.  On a binding that works the
    same run calls [vipsExtract] between the two.  And when a rotation fails
    before a flip, the rotation stage returns a nil handle without error,
    and [process] goes on and panics on it instead of returning the error. *)
Lemma process_short_circuits_counterexample :
  vipsTrim trim_fails (Some (100, 100)) (Background trim_and_sharpen)
    (Threshold trim_and_sharpen) ["vipsAffine"%string] =
  (((0, 0, 0, 0), Some (VipsError "vipsTrim")), ["vipsAffine"; "vipsTrim"]%string)
  /\ (exists st' : State Double.World Double.Image,
        process trim_fails (Some (100, 100)) PNG trim_and_sharpen [] Double.start =
        Returned (Some (100, 100), None, []) st'
        /\ world st' = ["vipsAffine"; "vipsTrim"; "vipsSharpen"]%string
        /\ map ev_stage (history st') =
           [StageOutputType; StageRotateAndFlip; StageZoom; StageTransform;
            StageEffects; StageWatermarkText; StageWatermarkImage; StageFlatten]
        /\ Forall (fun x => ev_error x = None) (history st'))
  /\ (exists st' : State Double.World Double.Image,
        process Double.ok (Some (100, 100)) PNG trim_and_sharpen [] Double.start =
        Returned (Some (100, 100), None, []) st'
        /\ world st' = ["vipsAffine"; "vipsTrim"; "vipsExtract"; "vipsSharpen"]%string)
  /\ vipsRotate rotate_fails (Some (100, 50)) (getAngle (Rotate rotate_90_flip)) [] =
     ((None, Some (VipsError "vipsRotate")), ["vipsRotate"%string])
  /\ rotateAndFlipImage rotate_fails (Some (100, 50)) (set_Type PNG rotate_90_flip)
       Double.start =
     Returned (None, true, None) (mkState ["vipsRotate"; "vipsFlip"]%string [])
  /\ process rotate_fails (Some (100, 50)) PNG (set_Type PNG rotate_90_flip) []
       Double.start = Panicked.
Proof.
  split; [ reflexivity | ].
  split; [ eexists; split; [ vm_compute; reflexivity | ];
           split; [ reflexivity | split; [ reflexivity | repeat constructor ] ] | ].
  split; [ eexists; split; [ vm_compute; reflexivity | reflexivity ] | ].
  split; [ reflexivity | ].
  split; vm_compute; reflexivity.
Qed.

(* ================================================================== *)
(** ** The operation selector *)

(** C3.  In the area-extract case with AreaWidth and AreaHeight unset, the
    area defaults to Width and Height; when one of these is zero as well the
    function does not extract and returns an error.  That error is a new
    value made by [errors.New], with a capitalised text: it is not the
    package's [ErrExtractAreaParamsRequired]. *)
Theorem extract_area_requires_size :
  forall (World Image : Type) (vips : Vips World Image) (img : Image)
    (o : Options) (st : State World Image),
    extractOrEmbedCase o = CaseExtractArea ->
    AreaWidth o = 0 -> AreaHeight o = 0 ->
    (Width o = 0 \/ Height o = 0 ->
     extractOrEmbedImage vips (Some img) o st =
     Returned (None, Some (errors_New "Extract area width/height params are required"))
       st)
    /\ (Width o <> 0 -> Height o <> 0 ->
        extractOrEmbedImage vips (Some img) o st =
        (' (tmpImage, err) <-
           native (vipsExtract vips (Some img) (Left o) (Top o) (Width o) (Height o)) ;;
         ret (extractOrEmbedExit (Some img) tmpImage err))%go st)
    /\ errors_New "Extract area width/height params are required"
       <> ErrExtractAreaParamsRequired
    /\ error_message (errors_New "Extract area width/height params are required")
       <> error_message ErrExtractAreaParamsRequired.
Proof.
  intros World Image vips img o st Hcase HAW HAH.
  repeat match goal with |- _ /\ _ => split end.
  - intros Hzero. unfold extractOrEmbedImage. unfold bind at 1. cbn [deref].
    rewrite Hcase. cbv zeta. rewrite HAW.
    cbn [Z.eqb AreaWidth AreaHeight set_AreaWidth]. rewrite HAH.
    cbn [Z.eqb AreaWidth AreaHeight set_AreaWidth set_AreaHeight Height Width].
    destruct Hzero as [-> | ->]; cbn [Z.eqb orb]; rewrite ?orb_true_r; reflexivity.
  - intros HW HH. unfold extractOrEmbedImage. unfold bind at 1. cbn [deref].
    rewrite Hcase. cbv zeta. rewrite HAW.
    cbn [Z.eqb AreaWidth AreaHeight set_AreaWidth]. rewrite HAH.
    cbn [Z.eqb AreaWidth AreaHeight set_AreaWidth set_AreaHeight Height Width Left Top].
    apply Z.eqb_neq in HW, HH. rewrite HW, HH. reflexivity.
  - discriminate.
  - cbn. discriminate.
Qed.

(** An offset without any size, on a 100x100 image; and an offset with
    Width and Height 200, which extracts 200x200. *)
Lemma extract_area_requires_size_witness :
  (extractOrEmbedCase area_without_size = CaseExtractArea
   /\ extractOrEmbedImage Double.ok (Some (100, 100)) area_without_size Double.start =
      Returned (None, Some (errors_New "Extract area width/height params are required"))
        Double.start)
  /\ extractOrEmbedImage Double.ok (Some (300, 300)) area_from_size Double.start =
     Returned (Some (200, 200), None) (mkState ["vipsExtract"%string] []).
Proof.
  split; [ split; [ reflexivity | ] | ].
  - apply (extract_area_requires_size _ _ Double.ok (100, 100) area_without_size
             Double.start); try reflexivity.
    left. reflexivity.
  - etransitivity.
    + apply (proj1 (proj2 (extract_area_requires_size _ _ Double.ok (300, 300)
                             area_from_size Double.start eq_refl eq_refl eq_refl)));
        discriminate.
    + vm_compute. reflexivity.
Defined.

(** Through [process] the error is reached when the automatic width or height
    rounds to zero: a 1x1000 PNG with Height=100 and Top=1.  An offset alone
    never reaches the selector: [imageCalculations] fills Width and Height
    with the input dimensions and [shouldTransformImage] skips the stage. *)
Lemma extract_area_error_through_process :
  exists st,
    process Double.ok (Some (1, 1000)) PNG strip_with_offset [] Double.start =
    Returned
      (Some (1, 1000),
       Some (errors_New "Extract area width/height params are required"), []) st.
Proof. eexists. vm_compute. reflexivity. Qed.

Lemma offset_alone_is_ignored :
  exists st,
    process Double.ok (Some (100, 100)) PNG offset_alone [] Double.start =
    Returned (Some (100, 100), None, []) st
    /\ world st = ["vipsExifOrientation"%string].
Proof. eexists. split; [ vm_compute; reflexivity | reflexivity ]. Qed.

(** C4, as the code has it.  The switch of [extractOrEmbedImage] takes
    exactly one case, the first in the order smart crop, Crop, Embed, Trim,
    area extract, none.  With Crop and Embed both set the embed case is never
    taken: the crop case is taken when smart crop is not selected, and the
    smart-crop case when it is. *)
Theorem extractOrEmbed_priority :
  forall o : Options,
    (extractOrEmbedCase o = CaseSmartCrop <-> smart_selected o = true)
    /\ (extractOrEmbedCase o = CaseCrop <->
        smart_selected o = false /\ Crop o = true)
    /\ (extractOrEmbedCase o = CaseEmbed <->
        smart_selected o = false /\ Crop o = false /\ Embed o = true)
    /\ (extractOrEmbedCase o = CaseTrim <->
        smart_selected o = false /\ Crop o = false /\ Embed o = false
        /\ Trim o = true)
    /\ (extractOrEmbedCase o = CaseExtractArea <->
        smart_selected o = false /\ Crop o = false /\ Embed o = false
        /\ Trim o = false /\ area_selected o = true)
    /\ (extractOrEmbedCase o = CaseNone <->
        smart_selected o = false /\ Crop o = false /\ Embed o = false
        /\ Trim o = false /\ area_selected o = false)
    /\ (Crop o = true -> Embed o = true ->
        extractOrEmbedCase o <> CaseEmbed
        /\ (smart_selected o = false -> extractOrEmbedCase o = CaseCrop)
        /\ (smart_selected o = true -> extractOrEmbedCase o = CaseSmartCrop))
    /\ (forall (World Image : Type) (vips : Vips World Image) (img : Image)
          (st : State World Image),
          Crop o = true -> Embed o = true -> smart_selected o = false ->
          exists x y width height : Z,
            extractOrEmbedImage vips (Some img) o st =
            (' (tmpImage, err) <- native (vipsExtract vips (Some img) x y width height) ;;
             ret (extractOrEmbedExit (Some img) tmpImage err))%go st).
Proof.
  intros o.
  assert (Hcase :
    extractOrEmbedCase o =
    if smart_selected o then CaseSmartCrop
    else if Crop o then CaseCrop
    else if Embed o then CaseEmbed
    else if Trim o then CaseTrim
    else if area_selected o then CaseExtractArea
    else CaseNone) by reflexivity.
  repeat match goal with |- _ /\ _ => split end.
  1-6: rewrite Hcase;
    destruct (smart_selected o), (Crop o), (Embed o), (Trim o), (area_selected o);
    split; intros H; repeat split; try destruct H as (? & ? & ? & ? & ?);
    try destruct H as (? & ? & ? & ?); try destruct H as (? & ? & ?);
    try destruct H as (? & ?); congruence.
  - intros HC HE. rewrite Hcase, HC.
    destruct (smart_selected o); repeat split; congruence.
  - intros World Image vips img st HC HE HS.
    unfold extractOrEmbedImage. unfold bind at 1. cbn [deref].
    rewrite Hcase, HS, HC.
    destruct (calculateCrop (Xsize vips img) (Ysize vips img) (Width o) (Height o)
                (Gravity o)) as [x y].
    eexists _, _, _, _. reflexivity.
Qed.

(** Crop and embed without smart crop: the crop case. *)
Lemma extractOrEmbed_priority_witness :
  Crop crop_embed = true /\ Embed crop_embed = true
  /\ smart_selected crop_embed = false
  /\ extractOrEmbedCase crop_embed = CaseCrop.
Proof.
  split; [ reflexivity | split; [ reflexivity | split; [ reflexivity | ] ] ].
  pose proof (extractOrEmbed_priority crop_embed) as (_ & _ & _ & _ & _ & _ & H & _).
  exact (proj1 (proj2 (H eq_refl eq_refl)) eq_refl).
Defined.

(** C4 fails as stated: with Crop, Embed and SmartCrop all set, the case
    taken is smart crop, not crop. *)
Lemma crop_with_embed_counterexample :
  Crop crop_embed_smart = true /\ Embed crop_embed_smart = true
  /\ extractOrEmbedCase crop_embed_smart = CaseSmartCrop
  /\ extractOrEmbedCase crop_embed_smart <> CaseCrop
  /\ (exists r st,
        extractOrEmbedImage Double.ok (Some (100, 100)) crop_embed_smart Double.start
        = Returned r st
        /\ world st = ["vipsSmartCrop"%string]).
Proof.
  repeat match goal with |- _ /\ _ => split end; try reflexivity.
  - discriminate.
  - eexists _, _. split; [ vm_compute; reflexivity | reflexivity ].
Qed.

(** C5.  With Force set, [transformImage] is its resize part followed by a
    call of [extractOrEmbedImage] on options whose Crop and Embed are both
    false, whatever the caller requested: neither the crop nor the embed case
    can be taken, and the result is the one for a request without Crop and
    Embed. *)
Theorem force_disables_crop_and_embed :
  forall (World Image : Type) (vips : Vips World Image) (image : ptr Image)
    (o : Options) (shrink : Z) (residual : float64) (st : State World Image),
    Force o = true ->
    let o' := set_Embed false (set_Crop false o) in
    transformImage vips image o shrink residual st =
      (' (img, err) <- transformResize vips image o shrink residual ;;
       match err with
       | Some e => ret (img, Some e)
       | None =>
           ' (imageOut, err) <- extractOrEmbedImage vips img o' ;;
           match err with
           | Some e => ret (img, Some e)
           | None => ret (imageOut, None)
           end
       end)%go st
    /\ Crop o' = false /\ Embed o' = false
    /\ extractOrEmbedCase o' <> CaseCrop
    /\ extractOrEmbedCase o' <> CaseEmbed
    /\ transformImage vips image o' shrink residual st =
       transformImage vips image o shrink residual st.
Proof.
  intros World Image vips image o shrink residual st HF o'.
  repeat match goal with |- _ /\ _ => split end.
  - rewrite transformImage_split. rewrite HF. reflexivity.
  - reflexivity.
  - reflexivity.
  - unfold extractOrEmbedCase.
    change (Crop o') with false. change (Embed o') with false.
    repeat match goal with
           | |- context [if ?c then _ else _] => destruct c
           end; discriminate.
  - unfold extractOrEmbedCase.
    change (Crop o') with false. change (Embed o') with false.
    repeat match goal with
           | |- context [if ?c then _ else _] => destruct c
           end; discriminate.
  - unfold o'. rewrite !transformImage_split.
    unfold transformResize, shrinkImage.
    cbn [Force Width Height Interpolator Crop set_Embed set_Crop].
    rewrite HF. cbn [orb].
    run_both.
Qed.

(** Force together with crop and embed, on a 100x100 image. *)
Lemma force_disables_crop_and_embed_witness :
  Force force_crop_embed = true /\ Crop force_crop_embed = true
  /\ Embed force_crop_embed = true
  /\ transformImage Double.ok (Some (100, 100))
       (set_Embed false (set_Crop false force_crop_embed)) 1 (F64.of_int 2)
       Double.start =
     transformImage Double.ok (Some (100, 100)) force_crop_embed 1 (F64.of_int 2)
       Double.start.
Proof.
  split; [ reflexivity | split; [ reflexivity | split; [ reflexivity | ] ] ].
  apply (force_disables_crop_and_embed _ _ Double.ok (Some (100, 100))
           force_crop_embed 1 (F64.of_int 2) Double.start).
  reflexivity.
Defined.

(* ================================================================== *)
(** ** Crop offsets *)

Lemma half_offset (a b : Z) :
  dimension a -> dimension b ->
  GoInt.div (GoInt.add (GoInt.sub a b) 1) 2 = Z.quot (a - b + 1) 2
  /\ - 2 ^ 62 < Z.quot (a - b + 1) 2 < 2 ^ 62.
Proof.
  unfold dimension. intros Ha Hb.
  assert (Hr : forall z, - 2 ^ 62 < z < 2 ^ 62 -> GoInt.in_range z)
    by (unfold GoInt.in_range, GoInt.min_int, GoInt.max_int; lia).
  rewrite GoIntFacts.sub_exact by (apply Hr; lia).
  rewrite GoIntFacts.add_exact by (apply Hr; lia).
  assert (Hq : - 2 ^ 62 < Z.quot (a - b + 1) 2 < 2 ^ 62).
  { pose proof (Z.quot_rem' (a - b + 1) 2) as Hqr.
    pose proof (Z.rem_bound_abs (a - b + 1) 2 ltac:(lia)) as Habs.
    lia. }
  split; [ apply GoIntFacts.div_exact, Hr, Hq | exact Hq ].
Qed.

Lemma full_offset (a b : Z) :
  dimension a -> dimension b ->
  GoInt.sub a b = a - b /\ - 2 ^ 62 < a - b < 2 ^ 62.
Proof.
  unfold dimension. intros Ha Hb.
  split; [ | lia ].
  apply GoIntFacts.sub_exact.
  unfold GoInt.in_range, GoInt.min_int, GoInt.max_int; lia.
Qed.

Lemma calculateCrop_formula (inWidth inHeight outWidth outHeight : Z) (g : GravityT) :
  dimension inWidth -> dimension inHeight ->
  dimension outWidth -> dimension outHeight ->
  calculateCrop inWidth inHeight outWidth outHeight g =
  match g with
  | GravityNorth => (Z.quot (inWidth - outWidth + 1) 2, 0)
  | GravityEast => (inWidth - outWidth, Z.quot (inHeight - outHeight + 1) 2)
  | GravitySouth => (Z.quot (inWidth - outWidth + 1) 2, inHeight - outHeight)
  | GravityWest => (0, Z.quot (inHeight - outHeight + 1) 2)
  | GravityCentre | GravitySmart =>
      (Z.quot (inWidth - outWidth + 1) 2, Z.quot (inHeight - outHeight + 1) 2)
  end.
Proof.
  intros HiW HiH HoW HoH.
  destruct (half_offset inWidth outWidth HiW HoW) as [Hx _].
  destruct (half_offset inHeight outHeight HiH HoH) as [Hy _].
  destruct (full_offset inWidth outWidth HiW HoW) as [Hx' _].
  destruct (full_offset inHeight outHeight HiH HoH) as [Hy' _].
  destruct g; cbn [calculateCrop]; rewrite ?Hx, ?Hy, ?Hx', ?Hy'; reflexivity.
Qed.

Lemma calculateCrop_bounds (inWidth inHeight outWidth outHeight : Z) (g : GravityT) :
  dimension inWidth -> dimension inHeight ->
  dimension outWidth -> dimension outHeight ->
  - 2 ^ 62 < fst (calculateCrop inWidth inHeight outWidth outHeight g) < 2 ^ 62
  /\ - 2 ^ 62 < snd (calculateCrop inWidth inHeight outWidth outHeight g) < 2 ^ 62.
Proof.
  intros HiW HiH HoW HoH.
  rewrite calculateCrop_formula by assumption.
  destruct (half_offset inWidth outWidth HiW HoW) as [_ Hx].
  destruct (half_offset inHeight outHeight HiH HoH) as [_ Hy].
  destruct (full_offset inWidth outWidth HiW HoW) as [_ Hx'].
  destruct (full_offset inHeight outHeight HiH HoH) as [_ Hy'].
  destruct g; cbn [fst snd]; split; first [ assumption | lia ].
Qed.

(** C6, as the code has it.  On dimensions of magnitude at most [2^60],
    [calculateCrop] computes the offsets with truncating division by
    gravity (North: left=(inW-outW+1)/2, top=0; East: left=inW-outW,
    top=(inH-outH+1)/2; South: left=(inW-outW+1)/2, top=inH-outH; West:
    left=0, top=(inH-outH+1)/2; otherwise both (dim-outdim+1)/2), the crop
    case of [extractOrEmbedImage] passes offsets that are never negative to
    the extraction, and for the centre gravity with inW=100 and outW=30 the
    left offset is 35. *)
Theorem calculateCrop_offsets :
  (forall (inWidth inHeight outWidth outHeight : Z) (g : GravityT),
      dimension inWidth -> dimension inHeight ->
      dimension outWidth -> dimension outHeight ->
      calculateCrop inWidth inHeight outWidth outHeight g =
      match g with
      | GravityNorth => (Z.quot (inWidth - outWidth + 1) 2, 0)
      | GravityEast => (inWidth - outWidth, Z.quot (inHeight - outHeight + 1) 2)
      | GravitySouth => (Z.quot (inWidth - outWidth + 1) 2, inHeight - outHeight)
      | GravityWest => (0, Z.quot (inHeight - outHeight + 1) 2)
      | GravityCentre | GravitySmart =>
          (Z.quot (inWidth - outWidth + 1) 2, Z.quot (inHeight - outHeight + 1) 2)
      end)
  /\ (forall (World Image : Type) (vips : Vips World Image) (img : Image)
        (o : Options) (st : State World Image),
        extractOrEmbedCase o = CaseCrop ->
        dimension (Xsize vips img) -> dimension (Ysize vips img) ->
        dimension (Width o) -> dimension (Height o) ->
        exists x y width height : Z,
          0 <= x /\ 0 <= y
          /\ extractOrEmbedImage vips (Some img) o st =
             (' (tmpImage, err) <- native (vipsExtract vips (Some img) x y width height) ;;
              ret (extractOrEmbedExit (Some img) tmpImage err))%go st)
  /\ (forall inHeight outHeight : Z,
        fst (calculateCrop 100 inHeight 30 outHeight GravityCentre) = 35).
Proof.
  split; [ | split ].
  - exact calculateCrop_formula.
  - intros World Image vips img o st Hcase HiW HiH HoW HoH.
    pose proof (calculateCrop_bounds _ _ _ _ (Gravity o) HiW HiH HoW HoH) as [Hx Hy].
    unfold extractOrEmbedImage. unfold bind at 1. cbn [deref]. rewrite Hcase.
    destruct (calculateCrop (Xsize vips img) (Ysize vips img) (Width o) (Height o)
                (Gravity o)) as [x y].
    cbn [fst snd] in Hx, Hy.
    eexists _, _, _, _. split; [ | split; [ | reflexivity ] ].
    + apply F64Facts.clamp_nonneg; assumption.
    + apply F64Facts.clamp_nonneg; assumption.
  - intros inHeight outHeight. reflexivity.
Qed.

(** Cropping 100x80 to 30x20 around the centre starts at (35, 30), and the
    crop case extracts at offsets that are not negative. *)
Lemma calculateCrop_offsets_witness :
  calculateCrop 100 80 30 20 GravityCentre = (35, 30)
  /\ exists x y width height : Z,
       0 <= x /\ 0 <= y
       /\ extractOrEmbedImage Double.ok (Some (100, 80)) crop_30x20 Double.start =
          (' (tmpImage, err) <-
             native (vipsExtract Double.ok (Some (100, 80)) x y width height) ;;
           ret (extractOrEmbedExit (Some (100, 80)) tmpImage err))%go Double.start.
Proof.
  split.
  - rewrite (proj1 calculateCrop_offsets 100 80 30 20 GravityCentre);
      [ reflexivity | | | | ]; unfold dimension; lia.
  - apply (proj1 (proj2 calculateCrop_offsets) _ _ Double.ok (100, 80) crop_30x20
             Double.start); [ reflexivity | | | | ];
      unfold dimension; vm_compute; split; discriminate.
Defined.

(** C6 fails as stated: (100 - 30 + 1) / 2 truncates to 35, not 36. *)
Lemma calculateCrop_counterexample :
  fst (calculateCrop 100 100 30 30 GravityCentre) = 35
  /\ fst (calculateCrop 100 100 30 30 GravityCentre) <> 36.
Proof. split; [ reflexivity | discriminate ]. Qed.

(* ================================================================== *)
(** ** Automatic height *)


(** The quotient is the [float64] one: for a 112x7 input 112/200 rounds up
    to the nearest double, 7 divided by it is just below 12.5, and Height is
    12. *)
Lemma auto_height_uses_float_quotient :
  Height (fst (imageCalculations (normalizeOperation width_200 112 7) 112 7)) = 12.
Proof. vm_compute. reflexivity. Qed.


(* ================================================================== *)
(** ** Effects *)

Lemma same_effects_refl o : same_effects o o.
Proof. split; reflexivity. Qed.

Lemma same_effects_set_Force o o' v : same_effects o o' -> same_effects o (set_Force v o').
Proof. intros H. exact H. Qed.

Lemma same_effects_set_Width o o' v : same_effects o o' -> same_effects o (set_Width v o').
Proof. intros H. exact H. Qed.

Lemma same_effects_set_Height o o' v :
  same_effects o o' -> same_effects o (set_Height v o').
Proof. intros H. exact H. Qed.

Ltac same_effects_step :=
  repeat first
    [ assumption
    | apply same_effects_set_Force
    | apply same_effects_set_Width
    | apply same_effects_set_Height
    | match goal with
      | |- same_effects _ (if ?c then _ else _) => destruct c
      end ].

Lemma normalizeOperation_same_effects (o : Options) (inWidth inHeight : Z) :
  same_effects o (normalizeOperation o inWidth inHeight).
Proof.
  pose proof (same_effects_refl o) as H.
  cbv beta delta [normalizeOperation].
  repeat lazymatch goal with
    | |- same_effects ?o0 (let x := ?v in @?b x) =>
        let Hv := fresh "Hv" in
        assert (Hv : same_effects o0 v) by same_effects_step;
        change (same_effects o0 (b v));
        generalize Hv; generalize v; clear Hv;
        let o1 := fresh "o" in
        let H1 := fresh "H" in
        intros o1 H1; cbv beta
    end.
  assumption.
Qed.

Lemma imageCalculations_same_effects (o : Options) (inWidth inHeight : Z) :
  same_effects o (fst (imageCalculations o inWidth inHeight)).
Proof.
  pose proof (same_effects_refl o) as H.
  unfold imageCalculations.
  repeat match goal with
         | |- context [if ?c then _ else _] => destruct c
         end; cbn [fst]; same_effects_step.
Qed.

Lemma processGeometry_same_effects {World Image : Type} (vips : Vips World Image)
    (o : Options) (inWidth inHeight : Z) :
  same_effects o (fst (fst (fst (processGeometry vips o inWidth inHeight)))).
Proof.
  unfold processGeometry.
  pose proof (normalizeOperation_same_effects o inWidth inHeight) as H1.
  pose proof (imageCalculations_same_effects (normalizeOperation o inWidth inHeight)
                inWidth inHeight) as H2.
  destruct (imageCalculations (normalizeOperation o inWidth inHeight) inWidth inHeight)
    as [o2 factor].
  cbn [fst] in H2.
  assert (H3 : same_effects o o2).
  { destruct H1 as [H1a H1b], H2 as [H2a H2b]. split; congruence. }
  repeat match goal with
         | |- context [if ?c then _ else _] => destruct c
         end; cbn [fst]; same_effects_step.
Qed.

Lemma shouldApplyEffects_same (o o' : Options) :
  same_effects o o' -> shouldApplyEffects o' = shouldApplyEffects o.
Proof.
  intros [HG HS]. unfold shouldApplyEffects. rewrite HG, HS. reflexivity.
Qed.

Ltac geometry_effects :=
  repeat match goal with
    | H : processGeometry ?v ?o ?a ?b = _ |- _ =>
        let Hse := fresh "Hse" in
        pose proof (processGeometry_same_effects v o a b) as Hse;
        rewrite H in Hse; cbn [fst] in Hse;
        apply shouldApplyEffects_same in Hse; clear H
    end.

(** The effects stage of [process] runs only if [shouldApplyEffects] holds of
    the caller's options, and runs in every run without error in which it
    holds. *)
Lemma process_effects_stage :
  forall (World Image : Type) (vips : Vips World Image)
    (image0 : ptr Image) (imageType : ImageType) (o : Options)
    (buf : list Byte.byte) (st : State World Image)
    (h : ptr Image) (err : option error) (buf' : list Byte.byte)
    (st' : State World Image),
    process vips image0 imageType o buf st = Returned (h, err, buf') st' ->
    exists events : list (StageEvent World Image),
      history st' = history st ++ events
      /\ (In StageEffects (map ev_stage events) -> shouldApplyEffects o = true)
      /\ (err = None -> shouldApplyEffects o = true ->
          In StageEffects (map ev_stage events)).
Proof.
  intros World Image vips image0 imageType o buf st h err buf' st' H.
  unfold process in H. run_in H.
  repeat step_in H.
  all: inversion H; subst; clear H; stage_frame; geometry_effects.
  all: cbn [history world]; rewrite <- ?app_assoc; cbn [app].
  all: eexists; split; [ reflexivity | ].
  all: cbn [map ev_stage In].
  all: split; [ intros Hin | intros Herr Hshould ].
  all: try discriminate.
  all: try congruence.
  all: try (repeat destruct Hin as [Hin | Hin]; discriminate || contradiction).
  all: try tauto.
Qed.

Lemma sharpen_requested_iff (o : Options) :
  ((Radius (Sharpen o) >? 0) && F64.gtb (Y2 (Sharpen o)) F64.zero)
  || F64.gtb (Y3 (Sharpen o)) F64.zero = true <-> sharpen_requested o.
Proof.
  unfold sharpen_requested, positive_float.
  rewrite orb_true_iff, andb_true_iff, Z.gtb_ltb, Z.ltb_lt. reflexivity.
Qed.

(** C9.  [shouldApplyEffects] holds exactly when Sigma > 0 or MinAmpl > 0 or
    (Radius > 0 and Y2 > 0) or Y3 > 0; so Y3 > 0 alone is enough, whatever
    Radius and Y2 are.  Inside [applyEffects], once the blur step is over
    without error, the sharpen operation is called exactly when
    (Radius > 0 and Y2 > 0) or Y3 > 0.  In [process], the effects stage runs
    only if [shouldApplyEffects] holds of the caller's options, and it runs
    in every run without error in which it holds. *)
Theorem effects_trigger :
  forall (World Image : Type) (vips : Vips World Image) (o : Options),
    (shouldApplyEffects o = true <->
       positive_float (Sigma (GaussianBlur o))
       \/ positive_float (MinAmpl (GaussianBlur o))
       \/ (0 < Radius (Sharpen o) /\ positive_float (Y2 (Sharpen o)))
       \/ positive_float (Y3 (Sharpen o)))
    /\ (positive_float (Y3 (Sharpen o)) ->
        shouldApplyEffects o = true /\ sharpen_requested o)
    /\ (forall (image : ptr Image) (st : State World Image),
          match
            (if F64.gtb (Sigma (GaussianBlur o)) F64.zero
                || F64.gtb (MinAmpl (GaussianBlur o)) F64.zero
             then native (vipsGaussianBlur vips image (GaussianBlur o))
             else ret (image, None)) st
          with
          | Returned (blurred, None) st1 =>
              (sharpen_requested o ->
               applyEffects vips image o st =
               (' (sharpened, err) <- native (vipsSharpen vips blurred (Sharpen o)) ;;
                match err with
                | Some e => ret (None, Some e)
                | None => ret (sharpened, None)
                end)%go st1)
              /\ (~ sharpen_requested o ->
                  applyEffects vips image o st = Returned (blurred, None) st1)
          | Returned (_, Some e) st1 =>
              applyEffects vips image o st = Returned (None, Some e) st1
          | Panicked => applyEffects vips image o st = Panicked
          end)
    /\ (forall (image0 : ptr Image) (imageType : ImageType) (buf : list Byte.byte)
          (st : State World Image) (h : ptr Image) (err : option error)
          (buf' : list Byte.byte) (st' : State World Image),
          process vips image0 imageType o buf st = Returned (h, err, buf') st' ->
          exists events : list (StageEvent World Image),
            history st' = history st ++ events
            /\ (In StageEffects (map ev_stage events) -> shouldApplyEffects o = true)
            /\ (err = None -> shouldApplyEffects o = true ->
                In StageEffects (map ev_stage events))).
Proof.
  intros World Image vips o. split; [ | split; [ | split ] ];
    [ | | | intros image0 imageType buf st h err buf' st' Hrun;
            exact (process_effects_stage _ _ _ _ _ _ _ _ _ _ _ _ Hrun) ].
  - unfold shouldApplyEffects, positive_float.
    rewrite !orb_true_iff, andb_true_iff, Z.gtb_ltb, Z.ltb_lt. tauto.
  - intros HY3. split.
    + unfold shouldApplyEffects. unfold positive_float in HY3. rewrite HY3.
      apply orb_true_r.
    + right. exact HY3.
  - intros image st. unfold applyEffects, bind.
    destruct ((if F64.gtb (Sigma (GaussianBlur o)) F64.zero
                  || F64.gtb (MinAmpl (GaussianBlur o)) F64.zero
               then native (vipsGaussianBlur vips image (GaussianBlur o))
               else ret (image, None)) st) as [[blurred [e | ]] st1 | ].
    + reflexivity.
    + pose proof (sharpen_requested_iff o) as Hiff.
      destruct (((Radius (Sharpen o) >? 0) && F64.gtb (Y2 (Sharpen o)) F64.zero)
                || F64.gtb (Y3 (Sharpen o)) F64.zero).
      * split; [ reflexivity | ]. intros Hn. exfalso. apply Hn, Hiff. reflexivity.
      * split; [ | reflexivity ].
        intros Hs. apply Hiff in Hs. discriminate.
    + reflexivity.
Qed.

(** With Radius = 0, Y2 = 0 and Y3 = 1 the effects stage applies and
    sharpens: the run of [process] records the stage and calls
    [vipsSharpen]. *)
Lemma effects_trigger_witness :
  (Radius (Sharpen sharpen_y3_only) = 0
   /\ positive_float (Y3 (Sharpen sharpen_y3_only))
   /\ shouldApplyEffects sharpen_y3_only = true
   /\ sharpen_requested sharpen_y3_only)
  /\ (exists h buf' st' events,
        process Double.ok (Some (100, 100)) JPEG sharpen_y3_jpeg [] Double.start =
        Returned (h, None, buf') st'
        /\ history st' = history Double.start ++ events
        /\ In StageEffects (map ev_stage events)
        /\ world st' = ["vipsExifOrientation"; "vipsSharpen"]%string).
Proof.
  split.
  - assert (HY3 : positive_float (Y3 (Sharpen sharpen_y3_only))) by reflexivity.
    split; [ reflexivity | split; [ exact HY3 | ] ].
    exact (proj1 (proj2 (effects_trigger _ _ Double.ok sharpen_y3_only)) HY3).
  - destruct (process Double.ok (Some (100, 100)) JPEG sharpen_y3_jpeg [] Double.start)
      as [[[h err] buf'] st' | ] eqn:Hrun; [ | vm_compute in Hrun; discriminate ].
    assert (Hres : err = None /\ world st' = ["vipsExifOrientation"; "vipsSharpen"]%string)
      by (vm_compute in Hrun; inversion Hrun; split; reflexivity).
    destruct Hres as (-> & Hw).
    destruct (proj2 (proj2 (proj2 (effects_trigger _ _ Double.ok sharpen_y3_jpeg)))
                _ _ _ _ _ _ _ _ Hrun) as (events & Hh & _ & Hin).
    exists h, buf', st', events.
    split; [ reflexivity | split; [ exact Hh | split; [ | exact Hw ] ] ].
    apply Hin; reflexivity.
Defined.

(* ================================================================== *)
(** ** The [VipsImage] wrapper *)

(** C10.  When the call of [process] inside [Process] returns an error,
    [Process] returns that error and the receiver keeps its image handle;
    the handle is replaced, by the one [process] returned, only when
    [process] returns no error. *)
Theorem Process_keeps_image_on_error :
  forall (World Image : Type) (vips : Vips World Image) (i : VipsImage)
    (o : Options) (st : State World Image)
    (img : ptr Image) (err : option error) (buf : list Byte.byte)
    (st' : State World Image),
    process vips (image i) (imageType i) (applyDefaults vips o (imageType i))
      (srcBuf i) st = Returned (img, err, buf) st' ->
    exists i' : VipsImage,
      Process vips i o st = Returned (i', err) st'
      /\ (err <> None -> image i' = image i)
      /\ (err = None -> image i' = img)
      /\ (image i' <> image i -> err = None).
Proof.
  intros World Image vips i o st img err buf st' H.
  unfold Process, bind. rewrite H.
  destruct err as [e | ]; eexists; (split; [ reflexivity | ]); cbn [image];
    repeat split; congruence.
Qed.

(** The failing forced resize, through the wrapper: the error comes back and
    the stored handle is still the 100x100 image. *)
Lemma Process_keeps_image_on_error_witness :
  exists i' : VipsImage,
    Process affine_fails (mkVipsImage (Some (100, 100)) [] JPEG) bare_200x200
      Double.start = Returned (i', Some (VipsError "vipsAffine")) affine_failure_state
    /\ image i' = Some (100, 100).
Proof.
  assert (Hrun :
    process affine_fails (Some (100, 100)) JPEG
      (applyDefaults affine_fails bare_200x200 JPEG) [] Double.start =
    Returned (Some (100, 100), Some (VipsError "vipsAffine"), []) affine_failure_state)
    by (vm_compute; reflexivity).
  destruct (Process_keeps_image_on_error _ _ affine_fails
              (mkVipsImage (Some (100, 100)) [] JPEG) bare_200x200 Double.start
              _ _ _ _ Hrun) as (i' & Hp & Hkeep & _).
  exists i'. split; [ exact Hp | ].
  apply Hkeep. discriminate.
Defined.

(* ================================================================== *)
(** * Further properties of the code *)

(** Reads the fields of options built with the setters. *)
Ltac options_fields :=
  cbn [Height Width AreaHeight AreaWidth Top Left Quality Compression Zoom Crop
       SmartCrop Enlarge Embed Flip Flop Force NoAutoRotate NoProfile Interlace
       StripMetadata Trim Lossless Extend Rotate Background Gravity Watermark
       WatermarkImage Type_ Interpolator Interpretation GaussianBlur Sharpen
       Threshold OutputICC MaxWidth MaxHeight MinWidth MinHeight
       set_Height set_Width set_AreaHeight set_AreaWidth set_Quality
       set_Compression set_Crop set_Embed set_Flip set_Force set_Rotate set_Type
       set_Interpretation set_Top set_SmartCrop set_Sharpen set_NoAutoRotate
       set_GaussianBlur].

(** Equality of options built with the setters: both sides are computed
    field by field. *)
Ltac options_eq :=
  cbv beta iota delta
    [without_geometry without_defaults
     Height Width AreaHeight AreaWidth Top Left Quality Compression Zoom Crop
     SmartCrop Enlarge Embed Flip Flop Force NoAutoRotate NoProfile Interlace
     StripMetadata Trim Lossless Extend Rotate Background Gravity Watermark
     WatermarkImage Type_ Interpolator Interpretation GaussianBlur Sharpen
     Threshold OutputICC MaxWidth MaxHeight MinWidth MinHeight
     set_Height set_Width set_AreaHeight set_AreaWidth set_Quality
     set_Compression set_Crop set_Embed set_Flip set_Force set_Rotate set_Type
     set_Interpretation set_Top set_SmartCrop set_Sharpen set_NoAutoRotate
     set_GaussianBlur];
  reflexivity.

Lemma ImageType_eqb_eq (a b : ImageType) : ImageType_eqb a b = true <-> a = b.
Proof.
  destruct a, b; cbn; split; intros H; try congruence; try discriminate.
  - apply Nat.eqb_eq in H. congruence.
  - inversion H. apply Nat.eqb_refl.
Qed.

(* ================================================================== *)
(** ** [applyDefaults] *)

(** An assignment under a condition is an assignment of a conditional
    value. *)
Section ConditionalAssignment.
Variable c : bool.
Variable o : Options.

Lemma if_set_Quality v :
  (if c then set_Quality v o else o) = set_Quality (if c then v else Quality o) o.
Proof. destruct c; [ reflexivity | destruct o; reflexivity ]. Qed.

Lemma if_set_Compression v :
  (if c then set_Compression v o else o) =
  set_Compression (if c then v else Compression o) o.
Proof. destruct c; [ reflexivity | destruct o; reflexivity ]. Qed.

Lemma if_set_Type v :
  (if c then set_Type v o else o) = set_Type (if c then v else Type_ o) o.
Proof. destruct c; [ reflexivity | destruct o; reflexivity ]. Qed.

Lemma if_set_Interpretation v :
  (if c then set_Interpretation v o else o) =
  set_Interpretation (if c then v else Interpretation o) o.
Proof. destruct c; [ reflexivity | destruct o; reflexivity ]. Qed.

End ConditionalAssignment.

Lemma applyDefaults_value {World Image : Type} (vips : Vips World Image)
    (o : Options) (t : ImageType) :
  applyDefaults vips o t =
  set_Interpretation
    (if Interpretation o =? 0 then InterpretationSRGB vips else Interpretation o)
    (set_Type (if ImageType_eqb (Type_ o) UNKNOWN then t else Type_ o)
       (set_Compression (if Compression o =? 0 then 6 else Compression o)
          (set_Quality (if Quality o =? 0 then DefaultQuality vips else Quality o) o))).
Proof.
  unfold applyDefaults.
  rewrite if_set_Interpretation, if_set_Type, if_set_Compression, if_set_Quality.
  options_fields. reflexivity.
Qed.

Lemma default_twice (a d : Z) :
  (if (if a =? 0 then d else a) =? 0 then d else if a =? 0 then d else a)
  = if a =? 0 then d else a.
Proof.
  destruct (a =? 0) eqn:Ha; [ | rewrite Ha; reflexivity ].
  destruct (d =? 0) eqn:Hd; [ | reflexivity ].
  apply Z.eqb_eq in Hd. congruence.
Qed.

Lemma default_type_twice (a d : ImageType) :
  (if ImageType_eqb (if ImageType_eqb a UNKNOWN then d else a) UNKNOWN then d
   else if ImageType_eqb a UNKNOWN then d else a)
  = if ImageType_eqb a UNKNOWN then d else a.
Proof.
  destruct (ImageType_eqb a UNKNOWN) eqn:Ha; [ | rewrite Ha; reflexivity ].
  destruct (ImageType_eqb d UNKNOWN) eqn:Hd; [ | reflexivity ].
  apply ImageType_eqb_eq in Hd. congruence.
Qed.

(** X1.  [applyDefaults] writes Quality, Compression, Type and
    Interpretation, each only where the caller left the zero value, and
    nothing else.  After it Compression is never 0, and Type is not the
    unknown type when the type of the input is known.  Applying it a second
    time with the same input type changes nothing. *)
Theorem applyDefaults_fills_unset_fields :
  forall (World Image : Type) (vips : Vips World Image) (o : Options)
    (t : ImageType),
    let o' := applyDefaults vips o t in
    (Quality o' = if Quality o =? 0 then DefaultQuality vips else Quality o)
    /\ (Compression o' = if Compression o =? 0 then 6 else Compression o)
    /\ (Type_ o' = if ImageType_eqb (Type_ o) UNKNOWN then t else Type_ o)
    /\ (Interpretation o' =
        if Interpretation o =? 0 then InterpretationSRGB vips else Interpretation o)
    /\ Compression o' <> 0
    /\ (t <> UNKNOWN -> Type_ o' <> UNKNOWN)
    /\ without_defaults o' = without_defaults o
    /\ applyDefaults vips o' t = o'.
Proof.
  intros World Image vips o t o'. subst o'.
  rewrite (applyDefaults_value vips (applyDefaults vips o t) t).
  rewrite !(applyDefaults_value vips o t).
  options_fields.
  split; [ reflexivity | ]. split; [ reflexivity | ].
  split; [ reflexivity | ]. split; [ reflexivity | ].
  split; [ | split; [ | split ] ].
  - destruct (Compression o =? 0) eqn:HC; [ discriminate | apply Z.eqb_neq, HC ].
  - intros Ht. destruct (ImageType_eqb (Type_ o) UNKNOWN) eqn:HT; [ exact Ht | ].
    intros E. rewrite E in HT. discriminate.
  - options_eq.
  - rewrite !default_twice, default_type_twice. options_eq.
Qed.

(** The zero options for a JPEG input: the type becomes JPEG, and a second
    application changes nothing. *)
Lemma applyDefaults_fills_unset_fields_witness :
  JPEG <> UNKNOWN
  /\ Type_ (applyDefaults Double.ok Double.zeroOptions JPEG) <> UNKNOWN
  /\ applyDefaults Double.ok (applyDefaults Double.ok Double.zeroOptions JPEG) JPEG
     = applyDefaults Double.ok Double.zeroOptions JPEG.
Proof.
  pose proof (applyDefaults_fills_unset_fields _ _ Double.ok Double.zeroOptions JPEG)
    as H.
  cbv zeta in H. destruct H as (_ & _ & _ & _ & _ & HT & _ & Hidem).
  split; [ discriminate | split; [ apply HT; discriminate | exact Hidem ] ].
Defined.

(* ================================================================== *)
(** ** [normalizeOperation] and the geometry *)

Lemma normalizeOperation_steps (o : Options) (inWidth inHeight : Z) :
  normalizeOperation o inWidth inHeight =
  boundMinHeight inHeight
    (boundMinWidth inWidth
       (boundMaxHeight inHeight (boundMaxWidth inWidth (promoteForce o)))).
Proof. reflexivity. Qed.

Lemma set_Width_same o : set_Width (Width o) o = o.
Proof. destruct o; reflexivity. Qed.

Lemma set_Height_same o : set_Height (Height o) o = o.
Proof. destruct o; reflexivity. Qed.

Lemma set_Force_same o : set_Force (Force o) o = o.
Proof. destruct o; reflexivity. Qed.

Lemma promoteForce_value o :
  promoteForce o =
  set_Force
    (Force o
     || (negb (Crop o) && negb (Embed o) && negb (Enlarge o)
         && (Rotate o =? 0) && ((Width o >? 0) || (Height o >? 0)))) o.
Proof.
  unfold promoteForce.
  destruct (Force o) eqn:HF; cbn [negb andb orb].
  - rewrite <- HF. symmetry. apply set_Force_same.
  - match goal with |- context [if ?c then _ else _] => destruct c end;
      [ reflexivity | rewrite <- HF; symmetry; apply set_Force_same ].
Qed.

Lemma boundMaxWidth_value w o :
  boundMaxWidth w o =
  set_Width
    (bounded_above ((MaxWidth o >? 0) && (w >? MaxWidth o)) (Width o) (MaxWidth o)) o.
Proof.
  unfold boundMaxWidth, bounded_above.
  repeat match goal with |- context [if ?c then _ else _] => destruct c end;
    first [ reflexivity | symmetry; apply set_Width_same ].
Qed.

Lemma boundMinWidth_value w o :
  boundMinWidth w o =
  set_Width
    (bounded_below ((MinWidth o >? 0) && (w <? MinWidth o)) (Width o) (MinWidth o)) o.
Proof.
  unfold boundMinWidth, bounded_below.
  repeat match goal with |- context [if ?c then _ else _] => destruct c end;
    first [ reflexivity | symmetry; apply set_Width_same ].
Qed.

Lemma boundMaxHeight_value h o :
  boundMaxHeight h o =
  set_Height
    (bounded_above ((MaxHeight o >? 0) && (h >? MaxHeight o)) (Height o) (MaxHeight o)) o.
Proof.
  unfold boundMaxHeight, bounded_above.
  repeat match goal with |- context [if ?c then _ else _] => destruct c end;
    first [ reflexivity | symmetry; apply set_Height_same ].
Qed.

Lemma boundMinHeight_value h o :
  boundMinHeight h o =
  set_Height
    (bounded_below ((MinHeight o >? 0) && (h <? MinHeight o)) (Height o) (MinHeight o)) o.
Proof.
  unfold boundMinHeight, bounded_below.
  repeat match goal with |- context [if ?c then _ else _] => destruct c end;
    first [ reflexivity | symmetry; apply set_Height_same ].
Qed.

Ltac normalizeOperation_values :=
  rewrite normalizeOperation_steps;
  rewrite boundMinHeight_value, boundMinWidth_value, boundMaxHeight_value,
    boundMaxWidth_value, promoteForce_value.

Lemma normalizeOperation_Width o w h :
  Width (normalizeOperation o w h) =
  bounded_below ((MinWidth o >? 0) && (w <? MinWidth o))
    (bounded_above ((MaxWidth o >? 0) && (w >? MaxWidth o)) (Width o) (MaxWidth o))
    (MinWidth o).
Proof. normalizeOperation_values. options_fields. reflexivity. Qed.

Lemma normalizeOperation_Height o w h :
  Height (normalizeOperation o w h) =
  bounded_below ((MinHeight o >? 0) && (h <? MinHeight o))
    (bounded_above ((MaxHeight o >? 0) && (h >? MaxHeight o)) (Height o) (MaxHeight o))
    (MinHeight o).
Proof. normalizeOperation_values. options_fields. reflexivity. Qed.

Lemma normalizeOperation_Force o w h :
  Force (normalizeOperation o w h) =
  Force o
  || (negb (Crop o) && negb (Embed o) && negb (Enlarge o)
      && (Rotate o =? 0) && ((Width o >? 0) || (Height o >? 0))).
Proof. normalizeOperation_values. options_fields. reflexivity. Qed.

Lemma normalizeOperation_frame o w h :
  without_geometry (normalizeOperation o w h) = without_geometry o.
Proof. normalizeOperation_values. options_eq. Qed.

Lemma bounded_above_spec (applies : bool) (d b : Z) :
  (applies = true -> 0 < b -> 0 < bounded_above applies d b <= b)
  /\ (applies = false -> bounded_above applies d b = d).
Proof.
  unfold bounded_above. split; intros ->; [ intros Hb | reflexivity ].
  destruct (Z.gtb_spec d 0); [ destruct (Z.gtb_spec d b) | ]; lia.
Qed.

Lemma bounded_below_spec (applies : bool) (d b : Z) :
  (applies = true -> b <= bounded_below applies d b)
  /\ (applies = false -> bounded_below applies d b = d).
Proof.
  unfold bounded_below. split; intros ->; [ | reflexivity ].
  destruct (Z.gtb_spec d 0); [ destruct (Z.ltb_spec d b) | ]; lia.
Qed.

Lemma above_Max_iff (m d : Z) : (m >? 0) && (d >? m) = true <-> 0 < m < d.
Proof. rewrite andb_true_iff, !Z.gtb_lt. lia. Qed.

Lemma below_Min_iff (m d : Z) : (m >? 0) && (d <? m) = true <-> 0 < m /\ d < m.
Proof. rewrite andb_true_iff, Z.gtb_lt, Z.ltb_lt. lia. Qed.

Lemma not_true_false (b : bool) (P : Prop) : (b = true <-> P) -> ~ P -> b = false.
Proof. destruct b; intuition. Qed.

(** X2.  The bounds of [normalizeOperation] are tested against the size of
    the input, not against the size requested.  When the input is narrower
    than a minimal width that is set, the width requested becomes at least
    that minimum.  Otherwise, when the input is wider than a maximal width
    that is set, the width requested becomes positive and at most that
    maximum.  When the input is neither, the width requested is left as it
    is, whatever it is.  The same holds of the height. *)
Theorem normalizeOperation_bounds :
  forall (o : Options) (inWidth inHeight : Z),
    let o' := normalizeOperation o inWidth inHeight in
    (below_MinWidth o inWidth -> MinWidth o <= Width o')
    /\ (above_MaxWidth o inWidth -> ~ below_MinWidth o inWidth ->
        0 < Width o' <= MaxWidth o)
    /\ (~ above_MaxWidth o inWidth -> ~ below_MinWidth o inWidth ->
        Width o' = Width o)
    /\ (below_MinHeight o inHeight -> MinHeight o <= Height o')
    /\ (above_MaxHeight o inHeight -> ~ below_MinHeight o inHeight ->
        0 < Height o' <= MaxHeight o)
    /\ (~ above_MaxHeight o inHeight -> ~ below_MinHeight o inHeight ->
        Height o' = Height o).
Proof.
  intros o inWidth inHeight o'. subst o'.
  rewrite normalizeOperation_Width, normalizeOperation_Height.
  unfold below_MinWidth, above_MaxWidth, below_MinHeight, above_MaxHeight.
  repeat match goal with |- _ /\ _ => split end.
  - intros H. apply bounded_below_spec. apply below_Min_iff. exact H.
  - intros HM Hm.
    rewrite (proj2 (bounded_below_spec _ _ _))
      by (eapply not_true_false; [ apply below_Min_iff | exact Hm ]).
    apply bounded_above_spec; [ apply above_Max_iff; exact HM | lia ].
  - intros HM Hm.
    rewrite (proj2 (bounded_below_spec _ _ _))
      by (eapply not_true_false; [ apply below_Min_iff | exact Hm ]).
    apply bounded_above_spec. eapply not_true_false; [ apply above_Max_iff | exact HM ].
  - intros H. apply bounded_below_spec. apply below_Min_iff. exact H.
  - intros HM Hm.
    rewrite (proj2 (bounded_below_spec _ _ _))
      by (eapply not_true_false; [ apply below_Min_iff | exact Hm ]).
    apply bounded_above_spec; [ apply above_Max_iff; exact HM | lia ].
  - intros HM Hm.
    rewrite (proj2 (bounded_below_spec _ _ _))
      by (eapply not_true_false; [ apply below_Min_iff | exact Hm ]).
    apply bounded_above_spec. eapply not_true_false; [ apply above_Max_iff | exact HM ].
Qed.

(** A width of 5000 under a maximal width of 1000: it is cut to 1000 for an
    input 2000 wide, and left at 5000 for an input 800 wide. *)
Lemma normalizeOperation_bounds_witness :
  (above_MaxWidth width_5000_max_1000 2000
   /\ 0 < Width (normalizeOperation width_5000_max_1000 2000 600) <= 1000)
  /\ (~ above_MaxWidth width_5000_max_1000 800
      /\ Width (normalizeOperation width_5000_max_1000 800 600) = 5000).
Proof.
  assert (Hmin : forall w, ~ below_MinWidth width_5000_max_1000 w)
    by (intros w [H _]; vm_compute in H; discriminate).
  assert (Hin : above_MaxWidth width_5000_max_1000 2000)
    by (split; reflexivity).
  assert (Hout : ~ above_MaxWidth width_5000_max_1000 800)
    by (intros [_ H]; vm_compute in H; discriminate).
  pose proof (normalizeOperation_bounds width_5000_max_1000 2000 600) as H1.
  pose proof (normalizeOperation_bounds width_5000_max_1000 800 600) as H2.
  cbv zeta in H1, H2.
  split.
  - split; [ exact Hin | ].
    exact (proj1 (proj2 H1) Hin (Hmin 2000)).
  - split; [ exact Hout | ].
    exact (proj1 (proj2 (proj2 H2)) Hout (Hmin 800)).
Defined.

Lemma imageCalculations_frame (o : Options) (inWidth inHeight : Z) :
  without_geometry (fst (imageCalculations o inWidth inHeight)) = without_geometry o
  /\ Force (fst (imageCalculations o inWidth inHeight)) = Force o.
Proof.
  unfold imageCalculations.
  destruct ((Width o >? 0) && (Height o >? 0));
    [ destruct (Crop o); cbn [fst]; split; reflexivity | ].
  destruct (Width o >? 0).
  { destruct (Crop o); cbn [fst]; [ split; [ options_eq | reflexivity ] | ].
    generalize (roundFloat (F64.div (F64.of_int inHeight)
                  (F64.div (F64.of_int inWidth) (F64.of_int (Width o))))).
    intros z. split; [ options_eq | reflexivity ]. }
  destruct (Height o >? 0).
  { destruct (Crop o); cbn [fst]; [ split; [ options_eq | reflexivity ] | ].
    generalize (roundFloat (F64.div (F64.of_int inWidth)
                  (F64.div (F64.of_int inHeight) (F64.of_int (Height o))))).
    intros z. split; [ options_eq | reflexivity ]. }
  cbn [fst]. split; [ options_eq | reflexivity ].
Qed.

(** The options [processGeometry] returns are those of [imageCalculations],
    or, under the guard against enlarging, those with the size of the
    input. *)
Lemma processGeometry_options {World Image : Type} (vips : Vips World Image)
    (o : Options) (inWidth inHeight : Z) :
  let o1 := fst (imageCalculations (normalizeOperation o inWidth inHeight)
                   inWidth inHeight) in
  let o' := fst (fst (fst (processGeometry vips o inWidth inHeight))) in
  o' = o1 \/ (Force o1 = false /\ o' = set_Height inHeight (set_Width inWidth o1)).
Proof.
  unfold processGeometry.
  destruct (imageCalculations (normalizeOperation o inWidth inHeight) inWidth inHeight)
    as [o1 factor].
  cbn [fst].
  destruct (Enlarge o1); cbn [negb andb]; [ left; reflexivity | ].
  destruct (Force o1); cbn [negb]; [ left; reflexivity | ].
  destruct ((inWidth <? Width o1) && (inHeight <? Height o1));
    [ right; split; reflexivity | left; reflexivity ].
Qed.

Lemma processGeometry_frame {World Image : Type} (vips : Vips World Image)
    (o : Options) (inWidth inHeight : Z) :
  without_geometry (fst (fst (fst (processGeometry vips o inWidth inHeight))))
  = without_geometry o
  /\ Force (fst (fst (fst (processGeometry vips o inWidth inHeight)))) =
     Force o
     || (negb (Crop o) && negb (Embed o) && negb (Enlarge o)
         && (Rotate o =? 0) && ((Width o >? 0) || (Height o >? 0))).
Proof.
  pose proof (processGeometry_options vips o inWidth inHeight) as Hcases.
  cbv zeta in Hcases.
  destruct (imageCalculations_frame (normalizeOperation o inWidth inHeight)
              inWidth inHeight) as [Hframe HForce].
  rewrite normalizeOperation_frame in Hframe.
  rewrite normalizeOperation_Force in HForce.
  remember (fst (imageCalculations (normalizeOperation o inWidth inHeight)
                   inWidth inHeight)) as o1 eqn:Eo1.
  remember (fst (fst (fst (processGeometry vips o inWidth inHeight)))) as o' eqn:Eo'.
  clear Eo1 Eo'.
  split.
  - destruct Hcases as [-> | [_ ->]]; [ exact Hframe | ].
    rewrite <- Hframe. options_eq.
  - rewrite <- HForce. destruct Hcases as [-> | [_ ->]]; reflexivity.
Qed.

Lemma bare_request_forces (o : Options) :
  Force o
  || (negb (Crop o) && negb (Embed o) && negb (Enlarge o)
      && (Rotate o =? 0) && ((Width o >? 0) || (Height o >? 0))) = true
  <-> Force o = true \/ (bare_request o /\ (0 < Width o \/ 0 < Height o)).
Proof.
  unfold bare_request.
  rewrite orb_true_iff, !andb_true_iff, orb_true_iff, !negb_true_iff,
    Z.eqb_eq, !Z.gtb_lt.
  split.
  - intros [H | H]; [ left; exact H | ].
    destruct (Force o) eqn:HF; [ left; reflexivity | right ]. tauto.
  - intros [H | H]; [ left; exact H | right; tauto ].
Qed.

(** X3.  The geometry of [process] (lines 63 to 81: [normalizeOperation],
    [imageCalculations] and the guard against enlarging) writes only Width,
    Height and Force: every other option reaches the later stages as the
    caller gave it.  Force is never cleared, and it is set exactly when the
    caller set it or asked for a width or a height with none of Force, Crop,
    Embed, Enlarge and Rotate. *)
Theorem geometry_writes_only_size_and_force :
  forall (World Image : Type) (vips : Vips World Image) (o : Options)
    (inWidth inHeight : Z),
    let o' := fst (fst (fst (processGeometry vips o inWidth inHeight))) in
    without_geometry o' = without_geometry o
    /\ (Force o' = true <->
        Force o = true \/ (bare_request o /\ (0 < Width o \/ 0 < Height o))).
Proof.
  intros World Image vips o inWidth inHeight. cbv zeta.
  destruct (processGeometry_frame vips o inWidth inHeight) as [Hframe HForce].
  split; [ exact Hframe | ].
  rewrite HForce. apply bare_request_forces.
Qed.

(* ================================================================== *)
(** ** The stages of [process] *)

(** What a run of [process] leaves in the history, read off the function
    once for the three theorems below. *)
Lemma process_trace :
  forall (World Image : Type) (vips : Vips World Image)
    (image0 : ptr Image) (imageType : ImageType) (o : Options)
    (buf : list Byte.byte) (st : State World Image)
    (h : ptr Image) (err : option error) (buf' : list Byte.byte)
    (st' : State World Image),
    process vips image0 imageType o buf st = Returned (h, err, buf') st' ->
    exists events : list (StageEvent World Image),
      history st' = history st ++ events
      /\ StronglySorted lt (map (fun ev => stage_index (ev_stage ev)) events)
      /\ chained image0 events
      /\ (err = None ->
          incl [StageOutputType; StageRotateAndFlip; StageZoom; StageWatermarkText;
                StageWatermarkImage; StageFlatten] (map ev_stage events))
      /\ (buf' = buf
          \/ (imageType = JPEG /\ NoAutoRotate o = false
              /\ exists (ev : StageEvent World Image) (w : World),
                   In ev events /\ ev_stage ev = StageImageBuffer
                   /\ getImageBuffer vips (ev_input ev) w =
                      ((buf', ev_error ev), ev_world ev)))
      /\ (~ In StageImageBuffer (map ev_stage events) -> buf' = buf)
      /\ (err = None ->
          exists (ev : StageEvent World Image) (img1 : Image) (o1 : Options)
            (factor : float64) (shrink : Z) (residual : float64),
            In ev events /\ ev_stage ev = StageRotateAndFlip
            /\ ev_output ev = Some img1
            /\ processGeometry vips o (Xsize vips img1) (Ysize vips img1) =
               (o1, factor, shrink, residual)
            /\ (In StageShrinkOnLoad (map ev_stage events) <->
                shrinkOnLoadGuard vips imageType shrink = true)
            /\ (In StageTransform (map ev_stage events) <->
                shouldTransformImage o1 (Xsize vips img1) (Ysize vips img1) = true)).
Proof.
  intros World Image vips image0 imageType o buf st h err buf' st' H.
  unfold process in H. run_in H.
  repeat step_in H.
  all: inversion H; subst; clear H; stage_frame.
  all: cbn [history world]; rewrite <- ?app_assoc; cbn [app].
  all: eexists; split; [ reflexivity | ].
  all: cbn [map ev_stage stage_index chained ev_input ev_output ev_error].
  all: split; [ repeat constructor | ].
  all: split; [ repeat split | ].
  all: split;
    [ intros Herr; try discriminate Herr;
      intros s Hs; cbn [In] in Hs |- *; intuition | ].
  all: split;
    [ first
        [ left; reflexivity
        | right;
          match goal with
          | Hg : _ && ImageType_eqb _ JPEG && negb (NoAutoRotate _) = true |- _ =>
              apply andb_true_iff in Hg; destruct Hg as [Hg Hna];
              apply andb_true_iff in Hg; destruct Hg as [_ Hjpeg];
              apply ImageType_eqb_eq in Hjpeg; apply negb_true_iff in Hna
          end;
          split; [ assumption | split; [ assumption | ] ];
          eexists _, _; split; [ cbn [In]; right; right; left; reflexivity | ];
          split; [ reflexivity | cbn [ev_input ev_error ev_world]; eassumption ] ]
    | ].
  all: split;
    [ intros Hn; first [ reflexivity | exfalso; apply Hn; cbn [In]; tauto ] | ].
  all: intros Herr; try discriminate Herr.
  all: eexists _, _, _, _, _, _;
    split; [ cbn [In]; right; left; reflexivity | ];
    split; [ reflexivity | ]; split; [ reflexivity | ]; split; [ eassumption | ].
  all: unfold shrinkOnLoadGuard; cbn [In].
  all: split;
    match goal with
    | Hc : ?c = ?b |- _ <-> ?c = true =>
        rewrite Hc; split; [ intros Hin | intros Hb ];
        first [ reflexivity | discriminate Hb | tauto
              | repeat destruct Hin as [Hin | Hin]; discriminate || contradiction ]
    end.
Qed.

(** X4.  Whatever the options and the binding, a run of [process] goes
    through its stages in one fixed order (output type, rotate and flip,
    buffer, shrink on load, zoom, transform, effects, text watermark, image
    watermark, flatten), each at most once, and each stage is given the
    handle the stage before it produced.  A run without error always passes
    the six stages that are not optional. *)
Theorem process_stages_in_order :
  forall (World Image : Type) (vips : Vips World Image)
    (image0 : ptr Image) (imageType : ImageType) (o : Options)
    (buf : list Byte.byte) (st : State World Image)
    (h : ptr Image) (err : option error) (buf' : list Byte.byte)
    (st' : State World Image),
    process vips image0 imageType o buf st = Returned (h, err, buf') st' ->
    exists events : list (StageEvent World Image),
      history st' = history st ++ events
      /\ StronglySorted lt (map (fun ev => stage_index (ev_stage ev)) events)
      /\ chained image0 events
      /\ (err = None ->
          incl [StageOutputType; StageRotateAndFlip; StageZoom; StageWatermarkText;
                StageWatermarkImage; StageFlatten] (map ev_stage events)).
Proof.
  intros World Image vips image0 imageType o buf st h err buf' st' H.
  destruct (process_trace _ _ _ _ _ _ _ _ _ _ _ _ H)
    as (events & Hh & Hsorted & Hchain & Hall & _).
  exists events. repeat split; assumption.
Qed.

(** The forced resize of a 100x100 JPEG to 200x200. *)
Lemma process_stages_in_order_witness :
  exists (st' : State Double.World Double.Image)
    (events : list (StageEvent Double.World Double.Image)),
    process Double.ok (Some (100, 100)) JPEG bare_200x200 [] Double.start =
    Returned (Some (200, 200), None, []) st'
    /\ history st' = history Double.start ++ events
    /\ StronglySorted lt (map (fun ev => stage_index (ev_stage ev)) events)
    /\ chained (Some (100, 100)) events.
Proof.
  destruct (process Double.ok (Some (100, 100)) JPEG bare_200x200 [] Double.start)
    as [[[h err] buf'] st' | ] eqn:Hrun; [ | vm_compute in Hrun; discriminate ].
  assert (Hres : h = Some (200, 200) /\ err = None /\ buf' = [])
    by (vm_compute in Hrun; inversion Hrun; repeat split).
  destruct Hres as (-> & -> & ->).
  destruct (process_stages_in_order _ _ _ _ _ _ _ _ _ _ _ _ Hrun)
    as (events & Hh & Hsorted & Hchain & _).
  exists st', events. repeat split; assumption.
Defined.

(** The guard of the buffer stage. *)
Lemma buffer_guard_spec (rotated : bool) (imageType : ImageType) (o : Options)
    (b : bool) :
  rotated && ImageType_eqb imageType JPEG && negb (NoAutoRotate o) = b ->
  if b then rotated = true /\ imageType = JPEG /\ NoAutoRotate o = false
  else ~ (rotated = true /\ imageType = JPEG /\ NoAutoRotate o = false).
Proof.
  intros H. destruct b.
  - apply andb_true_iff in H. destruct H as [H Hn].
    apply andb_true_iff in H. destruct H as [Hr Hj].
    apply ImageType_eqb_eq in Hj. apply negb_true_iff in Hn. auto.
  - intros (Hr & Hj & Hn). subst. rewrite Hn in H.
    cbn in H. discriminate H.
Qed.

(** X5.  [process] hands back the buffer it was given, except when the
    buffer stage runs, and that is exactly when the rotation stage returned
    without error and reported a rotation, the input is a JPEG and the
    automatic rotation is on.  Then the buffer handed back is the one
    [getImageBuffer] returned for the rotated image, also when that call
    failed; in that case [process] returns its error with the rotated
    handle.  An unsupported output type leaves the buffer alone. *)
Theorem process_buffer_rewritten_only_for_jpeg :
  forall (World Image : Type) (vips : Vips World Image)
    (image0 : ptr Image) (imageType : ImageType) (o : Options)
    (buf : list Byte.byte) (st : State World Image)
    (h : ptr Image) (err : option error) (buf' : list Byte.byte)
    (st' : State World Image),
    process vips image0 imageType o buf st = Returned (h, err, buf') st' ->
    exists events : list (StageEvent World Image),
      history st' = history st ++ events
      /\ (IsTypeSupported vips (Type_ o) = false -> buf' = buf)
      /\ (IsTypeSupported vips (Type_ o) = true ->
          exists (image1 : ptr Image) (rotated : bool) (rerr : option error)
            (st1 : State World Image),
            rotateAndFlipImage vips image0 o (type_checked image0 st) =
              Returned (image1, rotated, rerr) st1
            /\ (In StageImageBuffer (map ev_stage events) <->
                rerr = None /\ rotated = true /\ imageType = JPEG
                /\ NoAutoRotate o = false)
            /\ (~ In StageImageBuffer (map ev_stage events) -> buf' = buf)
            /\ (In StageImageBuffer (map ev_stage events) ->
                exists (gerr : option error) (w2 : World),
                  getImageBuffer vips image1 (world st1) = ((buf', gerr), w2)
                  /\ In (mkStageEvent StageImageBuffer image1 image1 gerr w2) events
                  /\ (forall e : error,
                         gerr = Some e ->
                         h = image1 /\ err = Some e /\ world st' = w2))).
Proof.
  intros World Image vips image0 imageType o buf st h err buf' st' H.
  unfold process in H. run_in H.
  repeat step_in H.
  all: inversion H; subst; clear H.
  all: try match goal with
       | Hr : rotateAndFlipImage _ _ _ _ = Returned _ _ |- _ =>
           pose proof (f_equal (fun x => x) Hr) as Hrot
       end.
  all: stage_frame.
  all: cbn [history world]; rewrite <- ?app_assoc; cbn [app].
  all: eexists; split; [ reflexivity | ].
  all: cbn [map ev_stage].
  all: try cbv beta in Hrot.
  all: split;
    [ intros Hsup;
      first [ reflexivity | rewrite Hsup in *; discriminate ]
    | intros Hsup ].
  all: try (rewrite Hsup in *; discriminate).
  all: unfold type_checked; eexists _, _, _, _; split; [ exact Hrot | ].
  all: try match goal with
       | Hg : _ && ImageType_eqb _ JPEG && negb (NoAutoRotate _) = _ |- _ =>
           pose proof (buffer_guard_spec _ _ _ _ Hg) as Hguard; clear Hg
       end.
  all: cbn [In].
  all: split; [ split; [ intros Hin | intros Hc ] | ].
  all: try (exfalso; clear - Hin; intuition discriminate).
  all: try (destruct Hc as [Hc _]; discriminate Hc).
  all: try (exfalso; apply Hguard; destruct Hc as (_ & ? & ? & ?); auto).
  all: try (split; [ reflexivity | exact Hguard ]).
  all: try tauto.
  all: split;
    [ intros Hn; first [ reflexivity | exfalso; apply Hn; tauto ] | intros Hin ].
  all: try (exfalso; clear - Hin; intuition discriminate).
  all: eexists _, _; split; [ eassumption | ].
  all: split; [ right; right; left; reflexivity | ].
  all: intros e0 He0; try discriminate He0.
  all: inversion He0; subst; repeat split.
Qed.

(** The rotation of a JPEG of 100x50 with a buffer of one byte, on a binding
    whose [getImageBuffer] fails: the buffer comes back empty, as the
    failing call returned it, together with its error. *)
Lemma process_buffer_rewritten_only_for_jpeg_witness :
  exists (h : ptr Double.Image) (st' : State Double.World Double.Image),
    process buffer_fails (Some (100, 50)) JPEG (set_Type JPEG rotate_90) [Byte.xff]
      Double.start =
    Returned (h, Some (VipsError "getImageBuffer"), []) st'
    /\ h = Some (50, 100)
    /\ world st' = ["vipsRotate"; "getImageBuffer"]%string.
Proof.
  destruct (process buffer_fails (Some (100, 50)) JPEG (set_Type JPEG rotate_90)
              [Byte.xff] Double.start)
    as [[[h err] buf'] st' | ] eqn:Hrun; [ | vm_compute in Hrun; discriminate ].
  destruct (process_buffer_rewritten_only_for_jpeg _ _ _ _ _ _ _ _ _ _ _ _ Hrun)
    as (events & _ & _ & Hsup).
  destruct (Hsup eq_refl) as (image1 & rotated & rerr & st1 & Hrot & Hiff & _ & Hin).
  vm_compute in Hrot. inversion Hrot; subst; clear Hrot.
  destruct (Hin (proj2 Hiff (conj eq_refl (conj eq_refl (conj eq_refl eq_refl)))))
    as (gerr & w2 & Hget & _ & Hfail).
  vm_compute in Hget. inversion Hget; subst; clear Hget.
  destruct (Hfail _ eq_refl) as (-> & -> & Hw).
  exists (Some (50, 100)), st'. repeat split. exact Hw.
Defined.

(** X6.  In a run of [process] without error, with the geometry computed
    from the size of the image as the rotation stage left it: the
    shrink-on-load stage runs exactly under the guard of lines 84 to 86, and
    the transform stage exactly when [shouldTransformImage] holds of the
    options the geometry returned.  A request for a width or a height with
    none of Force, Crop, Embed, Enlarge and Rotate always runs the transform
    stage, also when the size requested is the size of the input. *)
Theorem process_optional_stages :
  forall (World Image : Type) (vips : Vips World Image)
    (image0 : ptr Image) (imageType : ImageType) (o : Options)
    (buf : list Byte.byte) (st : State World Image)
    (h : ptr Image) (buf' : list Byte.byte) (st' : State World Image),
    process vips image0 imageType o buf st = Returned (h, None, buf') st' ->
    exists (events : list (StageEvent World Image)) (ev : StageEvent World Image)
      (img1 : Image) (o1 : Options) (factor : float64) (shrink : Z)
      (residual : float64),
      history st' = history st ++ events
      /\ In ev events /\ ev_stage ev = StageRotateAndFlip
      /\ ev_output ev = Some img1
      /\ processGeometry vips o (Xsize vips img1) (Ysize vips img1) =
         (o1, factor, shrink, residual)
      /\ (In StageShrinkOnLoad (map ev_stage events) <->
          shrinkOnLoadGuard vips imageType shrink = true)
      /\ (In StageTransform (map ev_stage events) <->
          shouldTransformImage o1 (Xsize vips img1) (Ysize vips img1) = true)
      /\ (bare_request o -> 0 < Width o \/ 0 < Height o ->
          In StageTransform (map ev_stage events)).
Proof.
  intros World Image vips image0 imageType o buf st h buf' st' H.
  destruct (process_trace _ _ _ _ _ _ _ _ _ _ _ _ H)
    as (events & Hh & _ & _ & _ & _ & _ & Hopt).
  destruct (Hopt eq_refl)
    as (ev & img1 & o1 & factor & shrink & residual & Hin & Hst & Hout & Hgeo
        & Hshrink & Htrans).
  exists events, ev, img1, o1, factor, shrink, residual.
  repeat match goal with |- _ /\ _ => split end; try assumption.
  intros Hbare Hsize. apply Htrans.
  destruct (processGeometry_frame vips o (Xsize vips img1) (Ysize vips img1))
    as [_ HForce].
  rewrite Hgeo in HForce. cbn [fst] in HForce.
  unfold shouldTransformImage. rewrite HForce.
  replace (Force o || _) with true; [ reflexivity | ].
  symmetry. apply bare_request_forces. right. split; assumption.
Qed.

(** A bare request for 100x100 on an input of 100x100: the transform stage
    runs, and the binding is asked for an affine transform. *)
Lemma process_optional_stages_witness :
  exists (st' : State Double.World Double.Image)
    (events : list (StageEvent Double.World Double.Image)),
    process Double.ok (Some (200, 200)) JPEG bare_200x200 [] Double.start =
    Returned (Some (200, 200), None, []) st'
    /\ history st' = history Double.start ++ events
    /\ In StageTransform (map ev_stage events)
    /\ In "vipsAffine"%string (world st').
Proof.
  destruct (process Double.ok (Some (200, 200)) JPEG bare_200x200 [] Double.start)
    as [[[h err] buf'] st' | ] eqn:Hrun; [ | vm_compute in Hrun; discriminate ].
  assert (Hres : h = Some (200, 200) /\ err = None /\ buf' = []
                 /\ In "vipsAffine"%string (world st')).
  { vm_compute in Hrun. inversion Hrun. repeat split. cbn. auto. }
  destruct Hres as (-> & -> & -> & Hw).
  destruct (process_optional_stages _ _ _ _ _ _ _ _ _ _ _ Hrun)
    as (events & ev & img1 & o1 & factor & shrink & residual & Hh & _ & _ & _ & _
        & _ & _ & Hbare).
  exists st', events.
  split; [ reflexivity | split; [ exact Hh | split; [ | exact Hw ] ] ].
  apply Hbare.
  - repeat split.
  - left. reflexivity.
Defined.

(** [calculateShrink] of the factor 1. *)
Lemma calculateShrink_one {World Image : Type} (vips : Vips World Image)
    (i : InterpolatorT) : calculateShrink vips F64.one i = 1.
Proof.
  unfold calculateShrink.
  change (F64.geb F64.one (F64.of_int 2)) with false. cbn [andb].
  reflexivity.
Qed.

(** The geometry of a request without a size and without bounds. *)
Lemma identity_geometry {World Image : Type} (vips : Vips World Image)
    (o : Options) (inWidth inHeight : Z) :
  Width o = 0 -> Height o = 0 ->
  MaxWidth o = 0 -> MaxHeight o = 0 -> MinWidth o = 0 -> MinHeight o = 0 ->
  processGeometry vips o inWidth inHeight =
  (set_Height inHeight (set_Width inWidth o), F64.one, 1, F64.one).
Proof.
  intros HW HH HMW HMH HmW HmH.
  assert (Hnorm : normalizeOperation o inWidth inHeight = o).
  { rewrite normalizeOperation_unbounded by assumption.
    rewrite HW, HH. cbn [Z.gtb Z.compare orb]. rewrite !andb_false_r. reflexivity. }
  unfold processGeometry. rewrite Hnorm. unfold imageCalculations.
  rewrite HW, HH. cbn [Z.gtb Z.compare andb].
  cbn [Interpolator set_Height set_Width Enlarge Force Width Height].
  rewrite calculateShrink_one.
  change (calculateResidual F64.one 1) with F64.one.
  rewrite !Z.ltb_irrefl. cbn [andb].
  destruct (negb (Enlarge o) && negb (Force o)); reflexivity.
Qed.

(** X7.  Without a width, a height, Force, bounds, rotation, flip, zoom,
    area size, trim, effect, watermark and background to flatten, [process]
    returns the handle and the buffer it was given and never calls the
    binding, for an input of any size and type: Crop, Embed, SmartCrop, a
    gravity, and the offsets Top and Left ask for nothing on their own. *)
Theorem process_without_request_is_identity :
  forall (World Image : Type) (vips : Vips World Image) (img : Image)
    (imageType : ImageType) (o : Options) (buf : list Byte.byte)
    (st : State World Image),
    Width o = 0 -> Height o = 0 -> Force o = false ->
    MaxWidth o = 0 -> MaxHeight o = 0 -> MinWidth o = 0 -> MinHeight o = 0 ->
    IsTypeSupported vips (Type_ o) = true ->
    only_size_requested o imageType ->
    exists st' : State World Image,
      process vips (Some img) imageType o buf st = Returned (Some img, None, buf) st'
      /\ world st' = world st.
Proof.
  intros World Image vips img imageType o buf st HW HH HF HMW HMH HmW HmH
    Hsup (HNA & HR & HFl & HFp & HZ & HAW & HAH & HT & Heff & Hwm & Hwi & Hflat).
  pose proof (identity_geometry vips o (Xsize vips img) (Ysize vips img)
                HW HH HMW HMH HmW HmH) as Hgeo.
  assert (Hrot : forall s, rotateAndFlipImage vips (Some img) o s =
                           Returned (Some img, false, None) s).
  { intros s. unfold rotateAndFlipImage. rewrite HNA. cbn [negb].
    cbv beta iota zeta delta [bind ret]. rewrite HR, HFl, HFp. reflexivity. }
  eexists. split.
  - unfold process. rewrite Hsup. cbn [negb].
    cbv beta iota zeta delta [bind ret record_stage].
    rewrite Hrot. cbn [andb].
    cbv beta iota zeta delta [deref].
    rewrite Hgeo.
    cbv beta iota zeta.
    change (1 >=? 2) with false. rewrite andb_false_r.
    unfold zoomImage. cbn [Zoom set_Height set_Width]. rewrite HZ.
    cbn [Z.eqb]. cbv beta iota zeta delta [ret].
    unfold shouldTransformImage.
    cbn [Force Width Height AreaWidth AreaHeight Trim set_Height set_Width].
    rewrite HF, HAW, HAH, HT, !Z.eqb_refl. cbn [negb Z.gtb Z.compare orb].
    rewrite !andb_false_r. cbn [orb].
    replace (shouldApplyEffects (set_Height (Ysize vips img) (set_Width (Xsize vips img) o)))
      with (shouldApplyEffects o) by reflexivity.
    rewrite Heff.
    unfold watermarkImageWithText. cbn [Watermark set_Height set_Width].
    rewrite Hwm. cbn [String.eqb]. cbv beta iota zeta delta [ret].
    unfold watermarkImageWithAnotherImage. cbn [WatermarkImage set_Height set_Width].
    rewrite Hwi. cbn [List.length Z.of_nat Z.eqb]. cbv beta iota zeta delta [ret].
    unfold imageFlatten. cbn [Background set_Height set_Width].
    assert (Hfl : negb (ImageType_eqb imageType PNG) || Color_eqb (Background o) ColorBlack
                  = true).
    { destruct Hflat as [Hne | ->].
      - destruct imageType; try reflexivity. contradiction.
      - rewrite orb_true_r. reflexivity. }
    rewrite Hfl. cbv beta iota zeta delta [ret]. reflexivity.
  - reflexivity.
Qed.

(** A crop flag and an offset without any size, on a 640x480 PNG. *)
Lemma process_without_request_is_identity_witness :
  exists st' : State Double.World Double.Image,
    process Double.ok (Some (640, 480)) PNG crop_without_size [Byte.x89] Double.start =
    Returned (Some (640, 480), None, [Byte.x89]) st'
    /\ world st' = world Double.start.
Proof.
  apply (process_without_request_is_identity _ _ Double.ok (640, 480) PNG
           crop_without_size [Byte.x89] Double.start); try reflexivity.
  repeat split. right. reflexivity.
Defined.

(* ================================================================== *)
(** ** [rotateAndFlipImage] *)

(** X8.  With a rotation above 0 in the options, [rotateAndFlipImage] does
    not consult the EXIF orientation: it does what it does with the
    automatic rotation switched off, which is to call [vipsRotate] with
    [getAngle] of the rotation, one of 0, 90, 180 and 270, and then to flip
    as the options say. *)
Theorem explicit_rotation_skips_exif :
  forall (World Image : Type) (vips : Vips World Image) (image : ptr Image)
    (o : Options) (st : State World Image),
    0 < Rotate o <= GoInt.max_int ->
    rotateAndFlipImage vips image o st =
      rotateAndFlipImage vips image (set_NoAutoRotate true o) st
    /\ rotateAndFlipImage vips image o st =
       (' (image1, err) <- native (vipsRotate vips image (getAngle (Rotate o))) ;;
        ' (image2, rotated, err) <-
          (if Flip o then
             ' (image2, err) <- native (vipsFlip vips image1 Vertical) ;;
             ret (image2, true, err)
           else ret (image1, true, err)) ;;
        if Flop o then
          ' (image3, err) <- native (vipsFlip vips image2 Horizontal) ;;
          ret (image3, true, err)
        else ret (image2, rotated, err))%go st
    /\ In (getAngle (Rotate o)) [0; 90; 180; 270].
Proof.
  intros World Image vips image o st [Hlo Hhi].
  assert (HR : (Rotate o >? 0) = true) by (apply Z.gtb_lt; exact Hlo).
  assert (Hrun : forall o', Rotate o' = Rotate o -> Flip o' = Flip o -> Flop o' = Flop o ->
            rotateAndFlipImage vips image o' st =
       (' (image1, err) <- native (vipsRotate vips image (getAngle (Rotate o))) ;;
        ' (image2, rotated, err) <-
          (if Flip o then
             ' (image2, err) <- native (vipsFlip vips image1 Vertical) ;;
             ret (image2, true, err)
           else ret (image1, true, err)) ;;
        if Flop o then
          ' (image3, err) <- native (vipsFlip vips image2 Horizontal) ;;
          ret (image3, true, err)
        else ret (image2, rotated, err))%go st).
  { intros o' ER EF EP.
    unfold rotateAndFlipImage, calculateRotationAndFlip.
    rewrite ER, HR.
    destruct (NoAutoRotate o'); cbn [negb];
      cbv beta iota zeta delta [bind ret]; cbn [andb Z.gtb Z.compare D0];
      rewrite ?ER, ?EF, ?EP, ?HR; run_both. }
  split; [ | split ].
  - rewrite (Hrun o eq_refl eq_refl eq_refl).
    rewrite (Hrun (set_NoAutoRotate true o) eq_refl eq_refl eq_refl). reflexivity.
  - apply Hrun; reflexivity.
  - rewrite getAngle_formula by lia.
    assert (Hq : 0 <= Rotate o / 90) by (apply Z.div_pos; lia).
    cbn [In].
    assert (Rotate o / 90 = 0 \/ Rotate o / 90 = 1 \/ Rotate o / 90 = 2 \/ 3 <= Rotate o / 90)
      by lia.
    lia.
Qed.

(** A rotation by 90 degrees of a 100x50 image. *)
Lemma explicit_rotation_skips_exif_witness :
  rotateAndFlipImage Double.ok (Some (100, 50)) rotate_90 Double.start =
  rotateAndFlipImage Double.ok (Some (100, 50)) (set_NoAutoRotate true rotate_90)
    Double.start
  /\ In (getAngle (Rotate rotate_90)) [0; 90; 180; 270].
Proof.
  assert (H : 0 < Rotate rotate_90 <= GoInt.max_int)
    by (vm_compute; split; [ reflexivity | discriminate ]).
  destruct (explicit_rotation_skips_exif _ _ Double.ok (Some (100, 50)) rotate_90
              Double.start H) as (H1 & _ & H3).
  split; assumption.
Defined.

(** The options [rotateAndFlipImage] works with once the EXIF orientation
    has been read keep Flop, and have Flip set when the caller or the
    orientation asks for it. *)
Lemma exif_keeps_Flop (c b : bool) (a : Angle) (o : Options) :
  Flop (if c then set_Rotate a (if b then set_Flip b o else o)
        else if b then set_Flip b o else o) = Flop o.
Proof. destruct c, b; reflexivity. Qed.

Lemma exif_adds_Flip (c b : bool) (a : Angle) (o : Options) :
  Flip (if c then set_Rotate a (if b then set_Flip b o else o)
        else if b then set_Flip b o else o) = b || Flip o.
Proof. destruct c, b; reflexivity. Qed.

(** X9.  [rotateAndFlipImage] returns the handle and the error of the last
    operation it ran, whatever the earlier ones reported: with Flop set, the
    result of the horizontal flip; with Flip set and Flop unset, the result
    of the vertical flip.  The error of a failed rotation is lost when a
    flip follows.  When it reports that it did not rotate, the handle is the
    one it was given, there is no error, and neither flip was requested. *)
Theorem rotateAndFlipImage_last_step_decides :
  forall (World Image : Type) (vips : Vips World Image) (image : ptr Image)
    (o : Options) (st : State World Image)
    (h : ptr Image) (rotated : bool) (err : option error) (st' : State World Image),
    rotateAndFlipImage vips image o st = Returned (h, rotated, err) st' ->
    (rotated = false -> h = image /\ err = None /\ Flip o = false /\ Flop o = false)
    /\ (Flop o = true ->
        rotated = true
        /\ exists (h0 : ptr Image) (w0 : World),
             vipsFlip vips h0 Horizontal w0 = ((h, err), world st'))
    /\ (Flop o = false -> Flip o = true ->
        rotated = true
        /\ exists (h0 : ptr Image) (w0 : World),
             vipsFlip vips h0 Vertical w0 = ((h, err), world st')).
Proof.
  intros World Image vips image o st h rotated err st' H.
  unfold rotateAndFlipImage in H. run_in H.
  repeat step_in H.
  all: inversion H; subst; clear H.
  all: rewrite ?exif_keeps_Flop, ?exif_adds_Flip in *.
  all: cbn [world].
  all: repeat match goal with
       | Hx : _ || _ = false |- _ => apply orb_false_iff in Hx; destruct Hx
       end.
  all: split; [ intros Hr; try discriminate Hr; repeat split; assumption | ].
  all: split;
    [ intros HP;
      first [ congruence | split; [ reflexivity | eexists _, _; eassumption ] ]
    | intros HP HF;
      first [ congruence
            | rewrite HF, ?orb_true_r in *; discriminate
            | split; [ reflexivity | eexists _, _; eassumption ] ] ].
Qed.

(** A rotation that fails, followed by a vertical flip that succeeds: the
    function returns the nil handle of the failed rotation and no error. *)
Lemma rotateAndFlipImage_last_step_decides_witness :
  exists st' : State Double.World Double.Image,
    rotateAndFlipImage rotate_fails (Some (100, 50)) rotate_90_flip Double.start =
    Returned (None, true, None) st'
    /\ world st' = ["vipsRotate"; "vipsFlip"]%string
    /\ exists (h0 : ptr Double.Image) (w0 : Double.World),
         vipsFlip rotate_fails h0 Vertical w0 = ((None, None), world st').
Proof.
  destruct (rotateAndFlipImage rotate_fails (Some (100, 50)) rotate_90_flip Double.start)
    as [[[h rotated] err] st' | ] eqn:Hrun; [ | vm_compute in Hrun; discriminate ].
  assert (Hres : h = None /\ rotated = true /\ err = None
                 /\ world st' = ["vipsRotate"; "vipsFlip"]%string)
    by (vm_compute in Hrun; inversion Hrun; repeat split).
  destruct Hres as (-> & -> & -> & Hw).
  destruct (rotateAndFlipImage_last_step_decides _ _ _ _ _ _ _ _ _ _ Hrun)
    as (_ & _ & Hflip).
  exists st'. split; [ reflexivity | split; [ exact Hw | ] ].
  apply Hflip; reflexivity.
Defined.

(* ================================================================== *)
(** ** Integers that [float64] holds exactly *)

Module F64Exact.
Import F64 F64Facts.

(** The float of a positive integer below [2^53] holds it exactly, in a
    mantissa of 53 digits. *)
Lemma binary_round_exact s p :
  Z.pos p < 2 ^ 53 ->
  exists m e,
    binary_round prec emax s p 0 = S754_finite s m e
    /\ -52 <= e <= 0
    /\ Z.pos m = Z.pos p * 2 ^ (- e)
    /\ 2 ^ 52 <= Z.pos m < 2 ^ 53.
Proof.
  intros Hp.
  pose proof (digits2_pos_bounds p) as Hb.
  assert (Hd : Z.pos (digits2_pos p) <= 53) by (apply digits2_pos_le; lia).
  remember (Z.pos (digits2_pos p)) as d eqn:Ed.
  assert (Hd1 : 1 <= d) by lia.
  unfold binary_round, shl_align.
  rewrite fexp_eq by lia. rewrite <- Ed.
  destruct (d + 0 - 53 - 0) as [ | k | k ] eqn:Hk.
  - assert (Hd53 : d = 53) by lia. rewrite Hd53 in *.
    exists p, 0. split; [ | split; [ | split ] ].
    + apply binary_round_aux_canonical; lia.
    + lia.
    + simpl. lia.
    + exact Hb.
  - lia.
  - assert (Hdk : d + Z.pos k = 53) by lia.
    exists (Pos.iter xO p k), (d + 0 - 53).
    assert (Hv : Z.pos (Pos.iter xO p k) = Z.pos p * 2 ^ Z.pos k)
      by apply pos_iter_xO_value.
    split; [ | split; [ | split ] ].
    + apply binary_round_aux_canonical; [ | lia ].
      rewrite digits2_pos_iter_xO, Pos2Z.inj_add, <- Ed. lia.
    + lia.
    + rewrite Hv. f_equal. f_equal. lia.
    + rewrite Hv.
      replace 52 with ((d - 1) + Z.pos k) by lia.
      replace 53 with (d + Z.pos k) by lia.
      rewrite !Z.pow_add_r by lia.
      pose proof (Z.pow_pos_nonneg 2 (Z.pos k) ltac:(lia) ltac:(lia)). nia.
Qed.

Lemma of_int_exact_pos z :
  0 < z < 2 ^ 53 ->
  exists m e,
    of_int z = S754_finite false m e
    /\ -52 <= e <= 0 /\ Z.pos m = z * 2 ^ (- e) /\ 2 ^ 52 <= Z.pos m < 2 ^ 53.
Proof.
  intros [Hlo Hhi]. destruct z as [ | p | p ]; try lia.
  exact (binary_round_exact false p Hhi).
Qed.

Lemma of_int_exact_neg z :
  - 2 ^ 53 < z < 0 ->
  exists m e,
    of_int z = S754_finite true m e
    /\ -52 <= e <= 0 /\ Z.pos m = - z * 2 ^ (- e) /\ 2 ^ 52 <= Z.pos m < 2 ^ 53.
Proof.
  intros [Hlo Hhi]. destruct z as [ | p | p ]; try lia.
  exact (binary_round_exact true p ltac:(lia)).
Qed.

Lemma trunc_exact (s : bool) (m : positive) (e z : Z) :
  -52 <= e <= 0 -> 0 < z < 2 ^ 53 -> Z.pos m = z * 2 ^ (- e) ->
  to_int (S754_finite s m e) = if s then - z else z.
Proof.
  intros He Hz Hm.
  assert (Ht : trunc_finite s m e = if s then - z else z).
  { unfold trunc_finite.
    destruct (Z.leb_spec 0 e) as [H0 | H0].
    - assert (e = 0) by lia. subst e. change (- 0) with 0 in Hm.
      rewrite Z.pow_0_r, Z.mul_1_r in *. rewrite Hm. reflexivity.
    - rewrite Hm, Z.div_mul by (apply Z.pow_nonzero; lia). reflexivity. }
  unfold to_int. rewrite Ht.
  assert (Hr : (GoInt.min_int <=? (if s then - z else z))
               && ((if s then - z else z) <=? GoInt.max_int) = true).
  { unfold GoInt.min_int, GoInt.max_int.
    apply andb_true_iff. rewrite !Z.leb_le. destruct s; lia. }
  rewrite Hr. reflexivity.
Qed.

(** [int(float64(z))] is [z]. *)
Lemma to_int_of_int z : - 2 ^ 53 < z < 2 ^ 53 -> to_int (of_int z) = z.
Proof.
  intros Hz.
  destruct (Z.lt_trichotomy z 0) as [Hneg | [-> | Hpos]].
  - destruct (of_int_exact_neg z ltac:(lia)) as (m & e & -> & He & Hm & _).
    rewrite (trunc_exact true m e (- z)) by lia. lia.
  - reflexivity.
  - destruct (of_int_exact_pos z ltac:(lia)) as (m & e & -> & He & Hm & _).
    apply (trunc_exact false m e z); lia.
Qed.

(** On positive integers the order of the floats is the order of the
    integers. *)
Lemma ltb_of_int a b :
  0 < a < 2 ^ 53 -> 0 < b < 2 ^ 53 -> ltb (of_int a) (of_int b) = (a <? b).
Proof.
  intros Ha Hb.
  destruct (of_int_exact_pos a Ha) as (m1 & e1 & -> & He1 & Hm1 & Hr1).
  destruct (of_int_exact_pos b Hb) as (m2 & e2 & -> & He2 & Hm2 & Hr2).
  unfold ltb, SFltb. cbn [SFcompare].
  assert (Hp1 : 0 < 2 ^ (- e1)) by (apply Z.pow_pos_nonneg; lia).
  assert (Hp2 : 0 < 2 ^ (- e2)) by (apply Z.pow_pos_nonneg; lia).
  destruct (Z.compare_spec e1 e2) as [He | He | He].
  - subst e2. rewrite Pos.compare_cont_spec. cbn [Pos.switch_Eq].
    change (Pos.compare m1 m2) with (Z.compare (Z.pos m1) (Z.pos m2)).
    rewrite Hm1, Hm2.
    destruct (Z.compare_spec (a * 2 ^ (- e1)) (b * 2 ^ (- e1))) as [H | H | H];
      symmetry; [ apply Z.ltb_ge | apply Z.ltb_lt | apply Z.ltb_ge ]; nia.
  - (* the exponent of [a] is smaller: [a < b] *)
    symmetry. apply Z.ltb_lt.
    assert (Hsplit : 2 ^ (- e1) = 2 ^ (- e2) * 2 ^ (e2 - e1))
      by (rewrite <- Z.pow_add_r by lia; f_equal; lia).
    assert (Hge : 2 <= 2 ^ (e2 - e1))
      by (change 2 with (2 ^ 1) at 1; apply Z.pow_le_mono_r; lia).
    apply Z.nle_gt. intros Hle.
    assert (b * 2 ^ (- e2) * 2 ^ (e2 - e1) <= a * 2 ^ (- e1)) by (rewrite Hsplit; nia).
    nia.
  - symmetry. apply Z.ltb_ge.
    assert (Hsplit : 2 ^ (- e2) = 2 ^ (- e1) * 2 ^ (e1 - e2))
      by (rewrite <- Z.pow_add_r by lia; f_equal; lia).
    assert (Hge : 2 <= 2 ^ (e1 - e2))
      by (change 2 with (2 ^ 1) at 1; apply Z.pow_le_mono_r; lia).
    apply Z.nlt_ge. intros Hlt.
    assert (a * 2 ^ (- e1) * 2 ^ (e1 - e2) < b * 2 ^ (- e2)) by (rewrite Hsplit; nia).
    nia.
Qed.

(** [int(math.Min(float64(a), float64(b)))] on integers that are not
    negative. *)
Lemma min_of_int a b :
  0 <= a < 2 ^ 53 -> 0 <= b < 2 ^ 53 ->
  to_int (min (of_int a) (of_int b)) = Z.min a b.
Proof.
  intros Ha Hb.
  destruct (Z.eq_dec a 0) as [-> | Ha0]; [ | destruct (Z.eq_dec b 0) as [-> | Hb0] ].
  - rewrite Z.min_l by lia.
    destruct (Z.eq_dec b 0) as [-> | Hb0]; [ reflexivity | ].
    destruct (of_int_exact_pos b ltac:(lia)) as (m & e & -> & _). reflexivity.
  - rewrite Z.min_r by lia.
    destruct (of_int_exact_pos a ltac:(lia)) as (m & e & -> & _). reflexivity.
  - pose proof (ltb_of_int a b ltac:(lia) ltac:(lia)) as Hlt.
    destruct (of_int_exact_pos a ltac:(lia)) as (m1 & e1 & E1 & _).
    destruct (of_int_exact_pos b ltac:(lia)) as (m2 & e2 & E2 & _).
    assert (Hmin : min (of_int a) (of_int b) = if a <? b then of_int a else of_int b).
    { rewrite <- Hlt. rewrite E1, E2. reflexivity. }
    rewrite Hmin.
    destruct (Z.ltb_spec a b); [ rewrite Z.min_l by lia | rewrite Z.min_r by lia ];
      apply to_int_of_int; lia.
Qed.

(** [int(math.Max(float64(z), 0))]. *)
Lemma clamp_of_int z :
  - 2 ^ 53 < z < 2 ^ 53 -> to_int (max (of_int z) zero) = Z.max z 0.
Proof.
  intros Hz.
  destruct (Z.lt_trichotomy z 0) as [Hneg | [-> | Hpos]].
  - destruct (of_int_exact_neg z ltac:(lia)) as (m & e & -> & _).
    rewrite Z.max_r by lia. reflexivity.
  - reflexivity.
  - rewrite Z.max_l by lia.
    destruct (of_int_exact_pos z ltac:(lia)) as (m & e & E & He & Hm & _).
    rewrite E.
    replace (max (S754_finite false m e) zero) with (S754_finite false m e)
      by reflexivity.
    apply (trunc_exact false m e z); lia.
Qed.

(** [math.Floor] leaves the float of an integer alone. *)
Lemma floor_of_int z : 0 <= z < 2 ^ 53 -> floor (of_int z) = of_int z.
Proof.
  intros Hz.
  destruct (Z.eq_dec z 0) as [-> | Hz0]; [ reflexivity | ].
  destruct (of_int_exact_pos z ltac:(lia)) as (m & e & E & He & Hm & _).
  rewrite E. unfold floor.
  destruct (Z.leb_spec 0 e) as [H0 | H0]; [ reflexivity | ].
  rewrite Hm, Z.div_mul by (apply Z.pow_nonzero; lia).
  exact E.
Qed.

End F64Exact.

(* ================================================================== *)
(** ** The cases of [extractOrEmbedImage] *)

Lemma half_offset_bounds (d : Z) :
  (0 <= d -> 0 <= Z.quot (d + 1) 2 <= d) /\ (d < 0 -> Z.quot (d + 1) 2 <= 0).
Proof.
  pose proof (Z.quot_rem' (d + 1) 2) as Hqr.
  split; intros Hd.
  - pose proof (Z.rem_bound_pos (d + 1) 2 ltac:(lia) ltac:(lia)). lia.
  - pose proof (Z.rem_bound_abs (d + 1) 2 ltac:(lia)). lia.
Qed.

(** The clamped offset of a crop and the width it goes with stay inside the
    input, for each of the three ways [calculateCrop] computes an offset. *)
Lemma crop_span (inSize outSize offset : Z) :
  0 < inSize -> 0 <= outSize ->
  offset = Z.quot (inSize - outSize + 1) 2 \/ offset = inSize - outSize \/ offset = 0 ->
  0 <= Z.max offset 0 /\ Z.max offset 0 + Z.min inSize outSize <= inSize.
Proof.
  intros Hin Hout Hoff.
  destruct (half_offset_bounds (inSize - outSize)) as [Hpos Hneg].
  destruct (Z_lt_le_dec (inSize - outSize) 0) as [Hd | Hd];
    [ specialize (Hneg Hd) | specialize (Hpos Hd) ];
    destruct Hoff as [-> | [-> | ->]]; lia.
Qed.

(** X10.  In the crop case, for an image and a request whose sizes
    [float64] holds exactly, the rectangle [extractOrEmbedImage] asks
    [vipsExtract] for lies inside the image, for every gravity: its width
    and height are the smaller of the input's and the requested one's, its
    offsets are not negative, and offset plus size does not exceed the size
    of the input. *)
Theorem crop_window_within_image :
  forall (World Image : Type) (vips : Vips World Image) (img : Image)
    (o : Options) (st : State World Image),
    extractOrEmbedCase o = CaseCrop ->
    image_dimension (Xsize vips img) -> image_dimension (Ysize vips img) ->
    requested_dimension (Width o) -> requested_dimension (Height o) ->
    exists x y width height : Z,
      extractOrEmbedImage vips (Some img) o st =
      (' (tmpImage, err) <- native (vipsExtract vips (Some img) x y width height) ;;
       ret (extractOrEmbedExit (Some img) tmpImage err))%go st
      /\ width = Z.min (Xsize vips img) (Width o)
      /\ height = Z.min (Ysize vips img) (Height o)
      /\ 0 <= x /\ 0 <= y
      /\ x + width <= Xsize vips img /\ y + height <= Ysize vips img.
Proof.
  intros World Image vips img o st Hcase HiW HiH HoW HoH.
  unfold image_dimension, requested_dimension in *.
  assert (Hdim : forall z, - 2 ^ 53 < z < 2 ^ 53 -> dimension z)
    by (unfold dimension; lia).
  pose proof (calculateCrop_formula (Xsize vips img) (Ysize vips img) (Width o)
                (Height o) (Gravity o)
                (Hdim (Xsize vips img) ltac:(lia)) (Hdim (Ysize vips img) ltac:(lia))
                (Hdim (Width o) ltac:(lia)) (Hdim (Height o) ltac:(lia))) as Hcc.
  destruct (calculateCrop (Xsize vips img) (Ysize vips img) (Width o) (Height o)
              (Gravity o)) as [cx cy] eqn:Ecc.
  assert (Hx : cx = Z.quot (Xsize vips img - Width o + 1) 2
               \/ cx = Xsize vips img - Width o \/ cx = 0)
    by (destruct (Gravity o); inversion Hcc; auto).
  assert (Hy : cy = Z.quot (Ysize vips img - Height o + 1) 2
               \/ cy = Ysize vips img - Height o \/ cy = 0)
    by (destruct (Gravity o); inversion Hcc; auto).
  destruct (crop_span (Xsize vips img) (Width o) cx ltac:(lia) ltac:(lia) Hx)
    as [Hx0 Hx1].
  destruct (crop_span (Ysize vips img) (Height o) cy ltac:(lia) ltac:(lia) Hy)
    as [Hy0 Hy1].
  assert (Hcx : - 2 ^ 53 < cx < 2 ^ 53).
  { pose proof (Z.quot_rem' (Xsize vips img - Width o + 1) 2).
    pose proof (Z.rem_bound_abs (Xsize vips img - Width o + 1) 2 ltac:(lia)).
    destruct Hx as [-> | [-> | ->]]; lia. }
  assert (Hcy : - 2 ^ 53 < cy < 2 ^ 53).
  { pose proof (Z.quot_rem' (Ysize vips img - Height o + 1) 2).
    pose proof (Z.rem_bound_abs (Ysize vips img - Height o + 1) 2 ltac:(lia)).
    destruct Hy as [-> | [-> | ->]]; lia. }
  exists (Z.max cx 0), (Z.max cy 0), (Z.min (Xsize vips img) (Width o)),
    (Z.min (Ysize vips img) (Height o)).
  split; [ | repeat split; assumption ].
  unfold extractOrEmbedImage. unfold bind at 1. cbn [deref].
  rewrite Hcase, Ecc.
  rewrite (F64Exact.clamp_of_int cx Hcx), (F64Exact.clamp_of_int cy Hcy).
  rewrite (F64Exact.min_of_int (Xsize vips img) (Width o)) by lia.
  rewrite (F64Exact.min_of_int (Ysize vips img) (Height o)) by lia.
  reflexivity.
Qed.

(** A crop to 30x20 of a 100x100 image. *)
Lemma crop_window_within_image_witness :
  exists x y width height : Z,
    extractOrEmbedImage Double.ok (Some (100, 100)) crop_30x20 Double.start =
    (' (tmpImage, err) <-
       native (vipsExtract Double.ok (Some (100, 100)) x y width height) ;;
     ret (extractOrEmbedExit (Some (100, 100)) tmpImage err))%go Double.start
    /\ width = Z.min (Xsize Double.ok (100, 100)) (Width crop_30x20)
    /\ height = Z.min (Ysize Double.ok (100, 100)) (Height crop_30x20)
    /\ 0 <= x /\ 0 <= y
    /\ x + width <= Xsize Double.ok (100, 100)
    /\ y + height <= Ysize Double.ok (100, 100).
Proof.
  apply (crop_window_within_image _ _ Double.ok (100, 100) crop_30x20 Double.start).
  - reflexivity.
  - vm_compute. split; reflexivity.
  - vm_compute. split; reflexivity.
  - vm_compute. split; [ discriminate | reflexivity ].
  - vm_compute. split; [ discriminate | reflexivity ].
Defined.

(** X11.  In the embed case, on sizes of magnitude at most [2^60],
    [extractOrEmbedImage] calls [vipsEmbed] with the canvas Width by Height
    and the offsets (Width - inWidth) / 2 and (Height - inHeight) / 2, the
    division truncating towards zero.  These centre the image in the
    canvas: when the canvas is at least as wide as the image, the left
    margin is not negative and the right margin is the left one or one
    more; when it is narrower, the offset is not positive.  The same holds
    of the height. *)
Theorem embed_centres_the_image :
  forall (World Image : Type) (vips : Vips World Image) (img : Image)
    (o : Options) (st : State World Image),
    extractOrEmbedCase o = CaseEmbed ->
    dimension (Xsize vips img) -> dimension (Ysize vips img) ->
    dimension (Width o) -> dimension (Height o) ->
    exists x y : Z,
      x = Z.quot (Width o - Xsize vips img) 2
      /\ y = Z.quot (Height o - Ysize vips img) 2
      /\ extractOrEmbedImage vips (Some img) o st =
         (' (tmpImage, err) <-
            native (vipsEmbed vips (Some img) x y (Width o) (Height o)
                      (Extend o) (Background o)) ;;
          ret (extractOrEmbedExit (Some img) tmpImage err))%go st
      /\ (Xsize vips img <= Width o ->
          0 <= x /\ x <= Width o - Xsize vips img - x <= x + 1)
      /\ (Ysize vips img <= Height o ->
          0 <= y /\ y <= Height o - Ysize vips img - y <= y + 1)
      /\ (Width o < Xsize vips img -> x <= 0)
      /\ (Height o < Ysize vips img -> y <= 0).
Proof.
  intros World Image vips img o st Hcase HiW HiH HoW HoH.
  destruct (full_offset (Width o) (Xsize vips img) HoW HiW) as [Hsx Hbx].
  destruct (full_offset (Height o) (Ysize vips img) HoH HiH) as [Hsy Hby].
  assert (Hq : forall d, - 2 ^ 62 < d < 2 ^ 62 ->
             GoInt.div d 2 = Z.quot d 2
             /\ (0 <= d -> 0 <= Z.quot d 2 /\ Z.quot d 2 <= d - Z.quot d 2 <= Z.quot d 2 + 1)
             /\ (d < 0 -> Z.quot d 2 <= 0)).
  { intros d Hd.
    pose proof (Z.quot_rem' d 2) as Hqr.
    pose proof (Z.rem_bound_abs d 2 ltac:(lia)) as Habs.
    split; [ | split ].
    - apply GoIntFacts.div_exact.
      unfold GoInt.in_range, GoInt.min_int, GoInt.max_int. lia.
    - intros H0. pose proof (Z.rem_bound_pos d 2 H0 ltac:(lia)). lia.
    - intros H0. lia. }
  destruct (Hq _ Hbx) as (Hdx & Hpx & Hnx).
  destruct (Hq _ Hby) as (Hdy & Hpy & Hny).
  exists (Z.quot (Width o - Xsize vips img) 2), (Z.quot (Height o - Ysize vips img) 2).
  split; [ reflexivity | split; [ reflexivity | ] ].
  split; [ | split; [ | split; [ | split ] ] ].
  - unfold extractOrEmbedImage. unfold bind at 1. cbn [deref].
    rewrite Hcase. rewrite Hsx, Hsy, Hdx, Hdy. reflexivity.
  - intros H. apply Hpx. lia.
  - intros H. apply Hpy. lia.
  - intros H. apply Hnx. lia.
  - intros H. apply Hny. lia.
Qed.

(** A 100x100 image on a 200x200 canvas is placed at (50, 50); a 101x100
    image on a canvas of 100x100 is placed at (0, 0), since -1 / 2 is 0. *)
Lemma embed_centres_the_image_witness :
  extractOrEmbedImage Double.ok (Some (100, 100)) embed_200x200 Double.start =
  (' (tmpImage, err) <-
     native (vipsEmbed Double.ok (Some (100, 100)) 50 50 200 200
               (Extend embed_200x200) (Background embed_200x200)) ;;
   ret (extractOrEmbedExit (Some (100, 100)) tmpImage err))%go Double.start
  /\ extractOrEmbedImage Double.ok (Some (101, 100))
       (set_Height 100 (set_Width 100 embed_200x200)) Double.start =
     (' (tmpImage, err) <-
        native (vipsEmbed Double.ok (Some (101, 100)) 0 0 100 100
                  (Extend embed_200x200) (Background embed_200x200)) ;;
      ret (extractOrEmbedExit (Some (101, 100)) tmpImage err))%go Double.start.
Proof.
  split.
  - destruct (embed_centres_the_image _ _ Double.ok (100, 100) embed_200x200
                Double.start)
      as (x & y & Hx & Hy & Hrun & _).
    + reflexivity.
    + vm_compute. split; discriminate.
    + vm_compute. split; discriminate.
    + vm_compute. split; discriminate.
    + vm_compute. split; discriminate.
    + subst x y. exact Hrun.
  - destruct (embed_centres_the_image _ _ Double.ok (101, 100)
                (set_Height 100 (set_Width 100 embed_200x200)) Double.start)
      as (x & y & Hx & Hy & Hrun & _).
    + reflexivity.
    + vm_compute. split; discriminate.
    + vm_compute. split; discriminate.
    + vm_compute. split; discriminate.
    + vm_compute. split; discriminate.
    + subst x y. exact Hrun.
Defined.

(** X12.  In the trim case [extractOrEmbedImage] never returns an error,
    whatever the binding reports: when [vipsTrim] fails it returns the
    handle it was given, and when the extraction that follows fails it
    returns the handle that extraction returned, both without an error. *)
Theorem trim_never_reports_an_error :
  forall (World Image : Type) (vips : Vips World Image) (img : Image)
    (o : Options) (st : State World Image),
    extractOrEmbedCase o = CaseTrim ->
    (forall (r : ptr Image * option error) (st' : State World Image),
        extractOrEmbedImage vips (Some img) o st = Returned r st' -> snd r = None)
    /\ (forall (box : Z * Z * Z * Z) (e : error) (w1 : World),
          vipsTrim vips (Some img) (Background o) (Threshold o) (world st) =
            ((box, Some e), w1) ->
          extractOrEmbedImage vips (Some img) o st =
          Returned (Some img, None) (mkState w1 (history st)))
    /\ (forall (x y width height : Z) (w1 w2 : World) (extracted : ptr Image)
          (xerr : option error),
          vipsTrim vips (Some img) (Background o) (Threshold o) (world st) =
            (((x, y, width, height), None), w1) ->
          vipsExtract vips (Some img) x y width height w1 = ((extracted, xerr), w2) ->
          extractOrEmbedImage vips (Some img) o st =
          Returned (extracted, None) (mkState w2 (history st))).
Proof.
  intros World Image vips img o st Hcase.
  split; [ | split ].
  - intros r st' H.
    unfold extractOrEmbedImage in H. unfold bind at 1 in H. cbn [deref] in H.
    rewrite Hcase in H. run_in H.
    repeat step_in H.
    all: inversion H; reflexivity.
  - intros box e w1 Htrim.
    unfold extractOrEmbedImage, bind, native, ret, deref.
    rewrite Hcase, Htrim. destruct box as [[[x y] width] height]. reflexivity.
  - intros x y width height w1 w2 extracted xerr Htrim Hext.
    unfold extractOrEmbedImage, bind, native, ret, deref.
    rewrite Hcase, Htrim. cbn [world]. rewrite Hext. reflexivity.
Qed.

(** A trim whose extraction fails: the nil handle and no error. *)
Lemma trim_never_reports_an_error_witness :
  extractOrEmbedImage extract_fails (Some (100, 100)) trim_request Double.start =
  Returned (None, None) (mkState ["vipsTrim"; "vipsExtract"]%string []).
Proof.
  apply (proj2 (proj2 (trim_never_reports_an_error _ _ extract_fails (100, 100)
                         trim_request Double.start eq_refl))
           0 0 100 100 ["vipsTrim"%string] ["vipsTrim"; "vipsExtract"]%string
           None (Some (VipsError "vipsExtract"))).
  - reflexivity.
  - reflexivity.
Defined.

(* ================================================================== *)
(** ** The watermarks *)

(** X13.  For a text that is not empty, on an image less than [2^53] wide,
    [watermarkImageWithText] calls [vipsWatermark] once, with the caller's
    watermark in which every unset field is filled: an empty font becomes
    the default font, a zero width a sixth of the width of the image, a zero
    DPI 150, a zero margin the width so filled, an opacity of 0 becomes
    0.25 and an opacity above 1 becomes 1; every other value is passed as
    it is.  So the DPI passed is never 0 and the opacity passed is never 0
    and never above 1.  When the call fails the function returns the handle
    it was given together with the error. *)
Theorem watermark_text_defaults :
  forall (World Image : Type) (vips : Vips World Image) (img : Image)
    (w : WatermarkT) (st : State World Image),
    wmText w <> ""%string -> 0 <= Xsize vips img < 2 ^ 53 ->
    exists w' : WatermarkT,
      watermarkImageWithText vips (Some img) w st =
      (' (tmpImage, err) <- native (vipsWatermark vips (Some img) w') ;;
       match err with
       | Some e => ret (Some img, Some e)
       | None => ret (tmpImage, None)
       end)%go st
      /\ wmText w' = wmText w
      /\ wmFont w' =
         (if String.eqb (wmFont w) "" then WatermarkFont vips else wmFont w)
      /\ wmWidth w' = (if wmWidth w =? 0 then Z.quot (Xsize vips img) 6 else wmWidth w)
      /\ wmDPI w' = (if wmDPI w =? 0 then 150 else wmDPI w)
      /\ wmMargin w' = (if wmMargin w =? 0 then wmWidth w' else wmMargin w)
      /\ wmOpacity w' =
         (if F64.eqb (wmOpacity w) F64.zero
          then F64.div (F64.of_int 1) (F64.of_int 4)
          else if F64.gtb (wmOpacity w) F64.one then F64.one else wmOpacity w)
      /\ wmNoReplicate w' = wmNoReplicate w
      /\ wmBackground w' = wmBackground w
      /\ wmDPI w' <> 0
      /\ F64.eqb (wmOpacity w') F64.zero = false
      /\ F64.gtb (wmOpacity w') F64.one = false.
Proof.
  intros World Image vips img w st Htext Hsize.
  assert (Ht : String.eqb (wmText w) "" = false) by (apply String.eqb_neq; exact Htext).
  assert (Hq : 0 <= Z.quot (Xsize vips img) 6 < 2 ^ 53).
  { pose proof (Z.quot_rem' (Xsize vips img) 6).
    pose proof (Z.rem_bound_pos (Xsize vips img) 6 ltac:(lia) ltac:(lia)). lia. }
  assert (Hfl : F64.to_int (F64.floor (F64.of_int (Z.quot (Xsize vips img) 6)))
                = Z.quot (Xsize vips img) 6).
  { rewrite F64Exact.floor_of_int by exact Hq. apply F64Exact.to_int_of_int. lia. }
  set (width := if wmWidth w =? 0 then Z.quot (Xsize vips img) 6 else wmWidth w).
  exists (mkWatermark width
            (if wmDPI w =? 0 then 150 else wmDPI w)
            (if wmMargin w =? 0 then width else wmMargin w)
            (if F64.eqb (wmOpacity w) F64.zero
             then F64.div (F64.of_int 1) (F64.of_int 4)
             else if F64.gtb (wmOpacity w) F64.one then F64.one else wmOpacity w)
            (wmNoReplicate w) (wmText w)
            (if String.eqb (wmFont w) "" then WatermarkFont vips else wmFont w)
            (wmBackground w)).
  split.
  - unfold watermarkImageWithText. rewrite Ht.
    unfold bind at 1. subst width.
    destruct (wmWidth w =? 0) eqn:HW.
    + cbv beta iota zeta delta [bind deref ret]. rewrite Hfl. reflexivity.
    + cbv beta iota zeta delta [bind deref ret]. reflexivity.
  - cbn [wmText wmFont wmWidth wmMargin wmDPI wmOpacity wmNoReplicate wmBackground].
    repeat match goal with |- _ /\ _ => split end.
    1-8: reflexivity.
    + destruct (wmDPI w =? 0) eqn:HD; [ discriminate | apply Z.eqb_neq; exact HD ].
    + destruct (F64.eqb (wmOpacity w) F64.zero) eqn:H0; [ reflexivity | ].
      destruct (F64.gtb (wmOpacity w) F64.one) eqn:H1; [ reflexivity | exact H0 ].
    + destruct (F64.eqb (wmOpacity w) F64.zero) eqn:H0; [ reflexivity | ].
      destruct (F64.gtb (wmOpacity w) F64.one) eqn:H1; [ reflexivity | exact H1 ].
Qed.

(** A text with every other field at zero, on an image 600 wide: the width
    and the margin become 100, the DPI 150, the opacity a quarter, and the
    font the default one. *)
Lemma watermark_text_defaults_witness :
  watermarkImageWithText Double.ok (Some (600, 400)) text_watermark Double.start =
  (' (tmpImage, err) <-
     native (vipsWatermark Double.ok (Some (600, 400))
               (mkWatermark 100 150 100 (F64.div (F64.of_int 1) (F64.of_int 4)) false
                  "bimg" "sans 10" ColorBlack)) ;;
   match err with
   | Some e => ret (Some (600, 400), Some e)
   | None => ret (tmpImage, None)
   end)%go Double.start.
Proof.
  destruct (watermark_text_defaults _ _ Double.ok (600, 400) text_watermark Double.start)
    as (w' & Hrun & HT & HF & HW & HD & HM & HO & HN & HB & _).
  - discriminate.
  - vm_compute. split; [ discriminate | reflexivity ].
  - rewrite HW in HM.
    destruct w' as [width dpi margin opacity noReplicate text font background].
    cbn [wmText wmFont wmWidth wmMargin wmDPI wmOpacity wmNoReplicate wmBackground] in *.
    subst. etransitivity; [ exact Hrun | vm_compute; reflexivity ].
Defined.

(** X14.  [watermarkImageWithAnotherImage] does nothing for an empty
    buffer: it returns the handle it was given, nil or not, without calling
    the binding.  Otherwise it calls [vipsDrawWatermark] once, with the
    caller's overlay in which an opacity of 0 is replaced by 1 and nothing
    else is changed, so that the opacity passed is never 0; on failure it
    returns the nil handle with the error. *)
Theorem watermark_image_defaults :
  forall (World Image : Type) (vips : Vips World Image) (image : ptr Image)
    (w : WatermarkImageT) (st : State World Image),
    (wiBuf w = [] ->
     watermarkImageWithAnotherImage vips image w st = Returned (image, None) st)
    /\ (wiBuf w <> [] ->
        exists w' : WatermarkImageT,
          watermarkImageWithAnotherImage vips image w st =
          (' (image', err) <- native (vipsDrawWatermark vips image w') ;;
           match err with
           | Some e => ret (None, Some e)
           | None => ret (image', None)
           end)%go st
          /\ w' =
             mkWatermarkImage (wiLeft w) (wiTop w) (wiBuf w)
               (if F64.eqb (wiOpacity w) F64.zero then F64.one else wiOpacity w)
          /\ wiBuf w' = wiBuf w /\ wiLeft w' = wiLeft w /\ wiTop w' = wiTop w
          /\ F64.eqb (wiOpacity w') F64.zero = false
          /\ (F64.eqb (wiOpacity w) F64.zero = false -> w' = w)).
Proof.
  intros World Image vips image w st. split.
  - intros Hb. unfold watermarkImageWithAnotherImage. rewrite Hb. reflexivity.
  - intros Hb.
    assert (Hlen : (Z.of_nat (List.length (wiBuf w)) =? 0) = false).
    { destruct (wiBuf w); [ contradiction | ]. apply Z.eqb_neq. cbn [List.length]. lia. }
    exists (if F64.eqb (wiOpacity w) F64.zero
            then mkWatermarkImage (wiLeft w) (wiTop w) (wiBuf w) F64.one else w).
    split.
    + unfold watermarkImageWithAnotherImage. rewrite Hlen. reflexivity.
    + destruct (F64.eqb (wiOpacity w) F64.zero) eqn:H0; cbn [wiBuf wiLeft wiTop wiOpacity].
      * repeat split; try reflexivity. discriminate.
      * split; [ destruct w; reflexivity | ].
        repeat split; try assumption; reflexivity.
Qed.

(** An overlay of one byte with opacity 0 is drawn with opacity 1. *)
Lemma watermark_image_defaults_witness :
  watermarkImageWithAnotherImage Double.ok (Some (100, 100)) overlay_watermark
    Double.start =
  (' (image', err) <-
     native (vipsDrawWatermark Double.ok (Some (100, 100))
               (mkWatermarkImage 0 0 [Byte.x01] F64.one)) ;;
   match err with
   | Some e => ret (None, Some e)
   | None => ret (image', None)
   end)%go Double.start.
Proof.
  destruct (proj2 (watermark_image_defaults _ _ Double.ok (Some (100, 100))
                     overlay_watermark Double.start))
    as (w' & Hrun & Hw' & _).
  - discriminate.
  - subst w'. etransitivity; [ exact Hrun | vm_compute; reflexivity ].
Defined.

(* ================================================================== *)
(** ** Shrinking *)

(** X15.  Under the guard with which [process] calls it, [shrinkOnLoad]
    always calls the binding.  For a JPEG it asks [vipsShrinkJpeg] for the
    largest of 2, 4 and 8 that does not exceed the shrink, and divides the
    factor by it; for a WEBP it asks [vipsShrinkWebp] for the whole shrink
    and returns the factor as it was.  Outside the guard, for a type that is
    neither, or for a JPEG with a shrink below 2, it fails without calling
    the binding. *)
Theorem shrinkOnLoad_on_supported_types :
  forall (World Image : Type) (vips : Vips World Image) (buf : list Byte.byte)
    (input : ptr Image) (imageType : ImageType) (factor : float64) (shrink : Z)
    (st : State World Image),
    (shrinkOnLoadGuard vips imageType shrink = true ->
     (imageType = JPEG
      /\ exists k : Z,
           In k [2; 4; 8] /\ k <= shrink /\ (shrink < 2 * k \/ k = 8)
           /\ shrinkOnLoad vips buf input imageType factor shrink st =
              (' (image, err) <- native (vipsShrinkJpeg vips buf input k) ;;
               ret (image, F64.div factor (F64.of_int k), err))%go st)
     \/ (imageType = WEBP
         /\ shrinkOnLoad vips buf input imageType factor shrink st =
            (' (image, err) <- native (vipsShrinkWebp vips buf input shrink) ;;
             ret (image, factor, err))%go st))
    /\ (imageType <> WEBP -> imageType <> JPEG \/ shrink < 2 ->
        shrinkOnLoad vips buf input imageType factor shrink st =
        Returned
          (None, F64.zero,
           Some (fmt_Errorf
                   (ImageTypeName vips imageType ++ " doesn't support shrink on load")))
          st).
Proof.
  intros World Image vips buf input imageType factor shrink st.
  split.
  - unfold shrinkOnLoadGuard. intros Hg.
    apply andb_true_iff in Hg. destruct Hg as [Ht Hs].
    apply Z.geb_le in Hs.
    destruct (ImageType_eqb imageType JPEG) eqn:HJ.
    + left. apply ImageType_eqb_eq in HJ. subst imageType. split; [ reflexivity | ].
      unfold shrinkOnLoad. cbn [ImageType_eqb andb].
      destruct (Z.geb_spec shrink 2) as [_ | ]; [ | lia ].
      destruct (Z.geb_spec shrink 8) as [H8 | H8].
      { exists 8. cbn [In]. repeat split; lia. }
      destruct (Z.geb_spec shrink 4) as [H4 | H4].
      { exists 4. cbn [In]. repeat split; lia. }
      exists 2. cbn [In]. repeat split; lia.
    + right. rewrite orb_false_r in Ht.
      apply andb_true_iff in Ht. destruct Ht as [Ht _].
      apply andb_true_iff in Ht. destruct Ht as [Ht _].
      apply ImageType_eqb_eq in Ht. subst imageType. split; reflexivity.
  - intros HW HJ. unfold shrinkOnLoad.
    assert (H1 : ImageType_eqb imageType JPEG && (shrink >=? 2) = false).
    { destruct HJ as [HJ | HJ].
      - destruct (ImageType_eqb imageType JPEG) eqn:E; [ | reflexivity ].
        apply ImageType_eqb_eq in E. contradiction.
      - apply andb_false_iff. right. destruct (Z.geb_spec shrink 2); [ lia | reflexivity ]. }
    assert (H2 : ImageType_eqb imageType WEBP = false).
    { destruct (ImageType_eqb imageType WEBP) eqn:E; [ | reflexivity ].
      apply ImageType_eqb_eq in E. contradiction. }
    rewrite H1, H2. reflexivity.
Qed.

(** A JPEG with a shrink of 5 is loaded at a quarter; a PNG is not shrunk
    on load. *)
Lemma shrinkOnLoad_on_supported_types_witness :
  (exists k : Z,
     In k [2; 4; 8] /\ k <= 5 /\ (5 < 2 * k \/ k = 8)
     /\ shrinkOnLoad Double.ok [] (Some (100, 100)) JPEG (F64.of_int 5) 5 Double.start =
        (' (image, err) <- native (vipsShrinkJpeg Double.ok [] (Some (100, 100)) k) ;;
         ret (image, F64.div (F64.of_int 5) (F64.of_int k), err))%go Double.start)
  /\ shrinkOnLoad Double.ok [] (Some (100, 100)) PNG (F64.of_int 5) 5 Double.start =
     Returned (None, F64.zero, Some (fmt_Errorf "png doesn't support shrink on load"))
       Double.start.
Proof.
  split.
  - destruct (proj1 (shrinkOnLoad_on_supported_types _ _ Double.ok [] (Some (100, 100))
                       JPEG (F64.of_int 5) 5 Double.start) eq_refl)
      as [(_ & Hk) | (Hwebp & _)]; [ exact Hk | discriminate Hwebp ].
  - apply (proj2 (shrinkOnLoad_on_supported_types _ _ Double.ok [] (Some (100, 100)) PNG
                    (F64.of_int 5) 5 Double.start)).
    + discriminate.
    + left. discriminate.
Defined.

Module F64Shrink.
Import F64 F64Facts.

(** The float of a positive integer of any size is a normal number that is
    at least 1, or the infinity. *)
Lemma binary_round_int_total s p :
  (exists m e,
     binary_round prec emax s p 0 = S754_finite s m e
     /\ -52 <= e /\ 2 ^ 52 <= Z.pos m)
  \/ binary_round prec emax s p 0 = S754_infinity s.
Proof.
  pose proof (digits2_pos_bounds p) as Hp.
  remember (Z.pos (digits2_pos p)) as d eqn:Ed.
  assert (Hd1 : 1 <= d) by lia.
  unfold binary_round, shl_align.
  rewrite fexp_eq by lia. rewrite <- Ed.
  destruct (d + 0 - 53 - 0) as [ | k | k ] eqn:Hk.
  - assert (Hd53 : d = 53) by lia. rewrite Hd53 in *.
    left. exists p, 0. split; [ | split ].
    + apply binary_round_aux_canonical; lia.
    + lia.
    + apply Hp.
  - assert (Hdk : d = 53 + Z.pos k) by lia.
    unfold binary_round_aux, shr_fexp.
    cbn [Zdigits2 shr_record_of_loc]. rewrite <- Ed, fexp_eq by lia.
    replace (d + 0 - 53 - 0) with (Z.pos k) by lia.
    cbn [shr].
    set (mrs := iter_pos shr_1 k _).
    assert (Hq : shr_m mrs = Z.pos p / 2 ^ Z.pos k).
    { unfold mrs. rewrite iter_shr_1_m; cbn [shr_m]; [ reflexivity | lia ]. }
    assert (Hqb : 2 ^ 52 <= shr_m mrs < 2 ^ 53).
    { rewrite Hq. rewrite Hdk in Hp.
      replace (53 + Z.pos k - 1) with (52 + Z.pos k) in Hp by lia.
      rewrite !Z.pow_add_r in Hp by lia.
      pose proof (Z.pow_pos_nonneg 2 (Z.pos k) ltac:(lia) ltac:(lia)).
      split.
      - apply Z.div_le_lower_bound; lia.
      - apply Z.div_lt_upper_bound; lia. }
    pose proof (round_nearest_even_bounds (shr_m mrs) (loc_of_shr_record mrs)) as Hr.
    destruct (round_nearest_even (shr_m mrs) (loc_of_shr_record mrs))
      as [ | m' | m' ] eqn:Hq'; try lia.
    cbn [Zdigits2].
    destruct (Z.eq_dec (Z.pos m') (2 ^ 53)) as [Hcarry | Hnocarry].
    + assert (Hdm : Z.pos (digits2_pos m') = 54)
        by (apply digits2_pos_unique; rewrite Hcarry; simpl; lia).
      rewrite Hdm, fexp_eq by lia.
      replace (54 + (0 + Z.pos k) - 53 - (0 + Z.pos k)) with 1 by lia.
      cbn [shr iter_pos].
      assert (Hm2 : shr_m (shr_1 {| shr_m := Z.pos m'; shr_r := false; shr_s := false |})
                    = 2 ^ 52)
        by (rewrite shr_1_m; cbn [shr_m]; [ rewrite Hcarry; reflexivity | lia ]).
      destruct (shr_m (shr_1 _)) as [ | m2 | m2 ] eqn:Hm2'; try (simpl in Hm2; lia).
      unfold emax, prec.
      destruct (Z.leb_spec (0 + Z.pos k + 1) (1024 - 53)).
      * left. exists m2, (0 + Z.pos k + 1).
        split; [ reflexivity | split; [ lia | rewrite Hm2; lia ] ].
      * right. reflexivity.
    + assert (Hdm : Z.pos (digits2_pos m') = 53)
        by (apply digits2_pos_unique; simpl (53 - 1); lia).
      rewrite Hdm, fexp_eq by lia.
      replace (53 + (0 + Z.pos k) - 53 - (0 + Z.pos k)) with 0 by lia.
      rewrite shr_zero. cbn [shr_m].
      unfold emax, prec.
      destruct (Z.leb_spec (0 + Z.pos k) (1024 - 53)).
      * left. exists m', (0 + Z.pos k). split; [ reflexivity | split; lia ].
      * right. reflexivity.
  - assert (Hdk : d + Z.pos k = 53) by lia.
    left. exists (Pos.iter xO p k), (d + 0 - 53). split; [ | split ].
    + apply binary_round_aux_canonical; [ | lia ].
      rewrite digits2_pos_iter_xO, Pos2Z.inj_add, <- Ed. lia.
    + lia.
    + rewrite pos_iter_xO_value.
      replace 52 with ((d - 1) + Z.pos k) by lia.
      rewrite !Z.pow_add_r by lia.
      pose proof (Z.pow_pos_nonneg 2 (Z.pos k) ltac:(lia) ltac:(lia)). nia.
Qed.

(** A number of at least 1 converts to an [int] of at least 1, when it
    converts at all. *)
Lemma to_int_at_least_one (m : positive) (e : Z) :
  (0 <= e \/ (-52 <= e /\ 2 ^ 52 <= Z.pos m)) ->
  1 <= to_int (S754_finite false m e) \/ to_int (S754_finite false m e) = indefinite.
Proof.
  intros H.
  assert (Ht : 1 <= trunc_finite false m e).
  { unfold trunc_finite. destruct (Z.leb_spec 0 e) as [H0 | H0].
    - pose proof (Z.pow_pos_nonneg 2 e ltac:(lia) H0). nia.
    - destruct H as [H | [He Hm]]; [ lia | ].
      apply Z.div_le_lower_bound; [ apply Z.pow_pos_nonneg; lia | ].
      rewrite Z.mul_1_r.
      transitivity (2 ^ 52); [ apply Z.pow_le_mono_r; lia | exact Hm ]. }
  unfold to_int.
  destruct ((GoInt.min_int <=? trunc_finite false m e)
            && (trunc_finite false m e <=? GoInt.max_int));
    [ left; exact Ht | right; reflexivity ].
Qed.

(** [math.Max(x, 1)] for an [x] that is a zero, a negative number or the
    negative infinity. *)
Lemma max_one_of_nonpositive (x : float64) :
  match x with
  | S754_zero _ | S754_infinity true | S754_finite true _ _ => True
  | _ => False
  end ->
  max x one = one.
Proof.
  destruct x as [ [ | ] | [ | ] | | [ | ] m e ]; intros H; try contradiction;
    reflexivity.
Qed.

Lemma max_one_of_positive (m : positive) (e : Z) :
  max (S754_finite false m e) one =
  if gtb (S754_finite false m e) one then S754_finite false m e else one.
Proof. reflexivity. Qed.

Lemma to_int_one : to_int one = 1.
Proof. reflexivity. Qed.

Lemma binary_round_negative p :
  match binary_round prec emax true p 0 with
  | S754_zero _ | S754_infinity true | S754_finite true _ _ | S754_nan => True
  | _ => False
  end.
Proof.
  destruct (binary_round_int_total true p) as [(m & e & -> & _) | ->]; exact I.
Qed.

Ltac shrink_is_one :=
  left; rewrite max_one_of_nonpositive by exact I; rewrite to_int_one; lia.

(** [int(math.Max(math.Floor(g), 1))] for any float [g]. *)
Lemma shrink_of_floor (g : float64) :
  1 <= to_int (max (floor g) one) \/ to_int (max (floor g) one) = indefinite.
Proof.
  destruct g as [ s | [ | ] | | [ | ] m e ].
  - (* zeros *) shrink_is_one.
  - (* the negative infinity *) shrink_is_one.
  - (* the positive infinity *) right. reflexivity.
  - (* NaN *) right. reflexivity.
  - (* negative numbers *)
    unfold floor. destruct (Z.leb_spec 0 e) as [He | He]; [ shrink_is_one | ].
    set (z := - (if Z.pos m mod 2 ^ (- e) =? 0
                 then Z.pos m / 2 ^ (- e) else Z.pos m / 2 ^ (- e) + 1)).
    assert (Hz : z <= 0).
    { unfold z.
      assert (0 <= Z.pos m / 2 ^ (- e))
        by (apply Z.div_pos; [ lia | apply Z.pow_pos_nonneg; lia ]).
      destruct (Z.pos m mod 2 ^ (- e) =? 0); lia. }
    destruct z as [ | q | q ]; try lia.
    + change (binary_normalize prec emax 0 0 true) with (S754_zero true).
      shrink_is_one.
    + unfold binary_normalize.
      pose proof (binary_round_negative q) as Hneg.
      destruct (binary_round prec emax true q 0) as [ s' | [ | ] | | [ | ] m' e' ];
        try contradiction; first [ shrink_is_one | right; reflexivity ].
  - (* positive numbers *)
    unfold floor. destruct (Z.leb_spec 0 e) as [He | He].
    + rewrite max_one_of_positive.
      destruct (gtb (S754_finite false m e) one).
      * apply to_int_at_least_one. left. exact He.
      * left. rewrite to_int_one. lia.
    + assert (Hq : 0 <= Z.pos m / 2 ^ (- e))
        by (apply Z.div_pos; [ lia | apply Z.pow_pos_nonneg; lia ]).
      destruct (Z.pos m / 2 ^ (- e)) as [ | q | q ]; try lia.
      * change (binary_normalize prec emax 0 0 false) with (S754_zero false).
        shrink_is_one.
      * unfold binary_normalize.
        destruct (binary_round_int_total false q) as [(m' & e' & -> & He' & Hm') | ->].
        -- rewrite max_one_of_positive.
           destruct (gtb (S754_finite false m' e') one).
           ++ apply to_int_at_least_one. right. split; assumption.
           ++ left. rewrite to_int_one. lia.
        -- right. reflexivity.
Qed.

End F64Shrink.

(** X16.  The integral shrink [calculateShrink] returns is at least 1 for
    every factor, interpolator and window size, so that it is never 0 or
    negative; the one exception is a factor so large, infinite or not a
    number that the final conversion to [int] is out of range, where Go
    leaves the result to the implementation. *)
Theorem calculateShrink_at_least_one :
  forall (World Image : Type) (vips : Vips World Image) (factor : float64)
    (i : InterpolatorT),
    1 <= calculateShrink vips factor i
    \/ calculateShrink vips factor i = F64.indefinite.
Proof.
  intros World Image vips factor i. unfold calculateShrink.
  destruct (F64.geb factor (F64.of_int 2)
            && F64.gtb (vipsWindowSize vips (InterpolatorString vips i)) (F64.of_int 3));
    apply F64Shrink.shrink_of_floor.
Qed.

(* ================================================================== *)
(** ** Loading, saving and the entry points *)

(** X17.  Whenever [loadImage] returns an error, the handle it returns is
    nil and the type is JPEG, whatever [vipsRead] returned beside its
    error.  For an empty buffer it fails with a new error without calling
    the binding; for any other buffer it calls [vipsRead] once and returns
    its error, and its handle and type when there is none. *)
Theorem loadImage_failure_is_normalised :
  forall (World Image : Type) (io : VipsIO World Image) (buf : list Byte.byte)
    (st : State World Image) (image : ptr Image) (imageType : ImageType)
    (err : option error) (st' : State World Image),
    loadImage io buf st = Returned (image, imageType, err) st' ->
    (err <> None -> image = None /\ imageType = JPEG)
    /\ (buf = [] ->
        err = Some (errors_New "Image buffer is empty") /\ st' = st)
    /\ (buf <> [] ->
        exists (read : ptr Image) (readType : ImageType),
          vipsRead io buf (world st) = ((read, readType, err), world st')
          /\ (err = None -> image = read /\ imageType = readType)).
Proof.
  intros World Image io buf st image imageType err st' H.
  unfold loadImage in H.
  destruct buf as [ | b buf ].
  - cbn in H. inversion H; subst.
    split; [ intros _; split; reflexivity | ].
    split; [ intros _; split; reflexivity | intros Hne; contradiction ].
  - assert (Hlen : (Z.of_nat (List.length (b :: buf)) =? 0) = false)
      by (apply Z.eqb_neq; cbn [List.length]; lia).
    rewrite Hlen in H. run_in H.
    destruct (vipsRead io (b :: buf) (world st)) as [[[read readType] rerr] w] eqn:Hread.
    destruct rerr as [e | ]; run_in H; inversion H; subst; cbn [world].
    + split; [ intros _; split; reflexivity | ].
      split; [ discriminate | ].
      intros _. exists read, readType. split; [ reflexivity | discriminate ].
    + split; [ intros Hn; contradiction | ].
      split; [ discriminate | ].
      intros _. exists image, imageType. split; [ reflexivity | intros _; split; reflexivity ].
Qed.

(** The empty buffer. *)
Lemma loadImage_failure_is_normalised_witness :
  loadImage DoubleIO.ok [] Double.start =
  Returned (None, JPEG, Some (errors_New "Image buffer is empty")) Double.start
  /\ (Some (errors_New "Image buffer is empty") =
      Some (errors_New "Image buffer is empty")
      /\ Double.start = Double.start).
Proof.
  assert (Hrun :
    loadImage DoubleIO.ok [] Double.start =
    Returned (None, JPEG, Some (errors_New "Image buffer is empty")) Double.start)
    by reflexivity.
  split; [ exact Hrun | ].
  exact (proj1 (proj2 (loadImage_failure_is_normalised _ _ _ _ _ _ _ _ _ Hrun)) eq_refl).
Defined.

(** X18.  [resizer] and the three calls [NewVipsImage], [Process], [Save]
    on the same buffer and options agree.  When [NewVipsImage] fails,
    [resizer] returns its error and no bytes, and leaves the native state
    [NewVipsImage] left followed by [vips_thread_shutdown].  When [Process]
    panics so does [resizer]; when it fails, [resizer] returns its error and
    no bytes, and leaves the state [Process] left followed by
    [vips_thread_shutdown], with nothing released.  When [Process] succeeds,
    [resizer] returns the error of [Save] and the bytes [vipsSave] returned,
    which are the bytes of [Save] when there is no error ([Save] returns no
    bytes with an error), and leaves the state [Save] left followed by the
    release of the handle [vipsSave] returned and then by
    [vips_thread_shutdown].  The stages of [process] run are the same. *)
Theorem resizer_agrees_with_VipsImage :
  forall (World Image : Type) (vips : Vips World Image) (io : VipsIO World Image)
    (buf : list Byte.byte) (o : Options) (st : State World Image),
    exists (ref : VipsImage) (lerr : option error) (st1 : State World Image),
      NewVipsImage io buf st = Returned (ref, lerr) st1
      /\ (forall e : error,
             lerr = Some e ->
             resizer vips io buf o st =
             Returned ([], Some e)
               (mkState (vips_thread_shutdown io (world st1)) (history st1)))
      /\ (lerr = None ->
          match Process vips ref o st1 with
          | Panicked => resizer vips io buf o st = Panicked
          | Returned (ref2, Some e) st2 =>
              resizer vips io buf o st =
              Returned ([], Some e)
                (mkState (vips_thread_shutdown io (world st2)) (history st2))
          | Returned (ref2, None) st2 =>
              exists (out out3 : list Byte.byte) (saved : ptr Image)
                (serr : option error) (w : World) (ref3 : VipsImage),
                vipsSave io (image ref2)
                  (saveOptionsOf (applyDefaults vips o (imageType ref2)))
                  (world st2) = ((out, saved, serr), w)
                /\ Save vips io ref2 o st2 =
                   Returned (ref3, out3, serr) (mkState w (history st2))
                /\ (serr = None -> out3 = out)
                /\ (serr <> None -> out3 = [])
                /\ resizer vips io buf o st =
                   Returned (out, serr)
                     (mkState
                        (vips_thread_shutdown io (g_object_unref io saved w))
                        (history st2))
          end).
Proof.
  intros World Image vips io buf o st.
  unfold resizer, NewVipsImage, saveImage.
  cbv beta iota zeta delta [bind ret].
  assert (Hload : loadImage io buf st <> Panicked).
  { unfold loadImage. destruct (Z.of_nat (List.length buf) =? 0); [ discriminate | ].
    cbv beta iota zeta delta [bind ret native].
    destruct (vipsRead io buf (world st)) as [[[read readType] rerr] w].
    destruct rerr; discriminate. }
  destruct (loadImage io buf st) as [[[img t] lerr] st1 | ]; [ | contradiction ].
  eexists _, _, _. split; [ reflexivity | ].
  split.
  { intros e ->. reflexivity. }
  intros ->. unfold Process. cbn [image srcBuf imageType].
  cbv beta iota zeta delta [bind ret].
  destruct (process vips img t (applyDefaults vips o t) buf st1)
    as [[[h perr] b] st2 | ]; [ | reflexivity ].
  cbn [image srcBuf imageType].
  destruct perr as [e | ]; [ reflexivity | ].
  cbn [image srcBuf imageType].
  unfold Save. cbn [image srcBuf imageType].
  cbv beta iota zeta delta [bind ret native].
  destruct (vipsSave io h (saveOptionsOf (applyDefaults vips o t)) (world st2))
    as [[[out saved] serr] w].
  destruct serr as [e | ]; cbn [world history].
  - eexists _, _, _, _, _, _. split; [ reflexivity | ].
    split; [ reflexivity | ].
    split; [ discriminate | ]. split; reflexivity.
  - eexists _, _, _, _, _, _. split; [ reflexivity | ].
    split; [ reflexivity | ].
    split; [ reflexivity | ]. split; [ congruence | reflexivity ].
Qed.

(** X19.  When [vipsSave] fails, [Save] returns its error and no bytes and
    leaves the receiver as it was; when it succeeds, [Save] returns its
    bytes and stores the handle it returned, and the buffer and the type of
    the receiver stay as they were.  The options [vipsSave] receives are
    those of the caller after [applyDefaults]. *)
Theorem Save_keeps_image_on_error :
  forall (World Image : Type) (vips : Vips World Image) (io : VipsIO World Image)
    (i : VipsImage) (o : Options) (st : State World Image)
    (out : list Byte.byte) (saved : ptr Image) (err : option error) (w : World),
    vipsSave io (image i) (saveOptionsOf (applyDefaults vips o (imageType i)))
      (world st) = ((out, saved, err), w) ->
    exists (i' : VipsImage) (out' : list Byte.byte),
      Save vips io i o st = Returned (i', out', err) (mkState w (history st))
      /\ (err <> None -> i' = i /\ out' = [])
      /\ (err = None ->
          image i' = saved /\ srcBuf i' = srcBuf i /\ imageType i' = imageType i
          /\ out' = out).
Proof.
  intros World Image vips io i o st out saved err w H.
  unfold Save, bind, native. rewrite H.
  destruct err as [e | ]; eexists _, _; (split; [ reflexivity | ]);
    split; intros Herr; try congruence; repeat split.
Qed.

(** A save that fails: the bytes the binding returned are dropped and the
    image is kept. *)
Lemma Save_keeps_image_on_error_witness :
  exists (i' : VipsImage) (out' : list Byte.byte),
    Save Double.ok save_fails (mkVipsImage (Some (100, 100)) [] JPEG)
      Double.zeroOptions Double.start =
    Returned (i', out', Some (VipsError "vipsSave"))
      (mkState ["vipsSave"%string] (history Double.start))
    /\ i' = mkVipsImage (Some (100, 100)) [] JPEG /\ out' = [].
Proof.
  destruct (Save_keeps_image_on_error _ _ Double.ok save_fails
              (mkVipsImage (Some (100, 100)) [] JPEG) Double.zeroOptions Double.start
              [Byte.x00] None (Some (VipsError "vipsSave")) ["vipsSave"%string])
    as (i' & out' & Hrun & Herr & _).
  - reflexivity.
  - exists i', out'. split; [ exact Hrun | ].
    apply Herr. discriminate.
Defined.

(* ================================================================== *)
(** ** More on the stages *)

Lemma calculateRotationAndFlip_range {World Image : Type} (vips : Vips World Image)
    (image : ptr Image) (angle : Angle) (st st1 : State World Image)
    (rotation : Angle) (flip : bool) :
  calculateRotationAndFlip vips image angle st = Returned (rotation, flip) st1 ->
  In rotation [0; 90; 180; 270].
Proof.
  unfold calculateRotationAndFlip. destruct (angle >? 0).
  - intros H. inversion H. cbn. auto.
  - unfold bind, native, ret.
    destruct (vipsExifOrientation vips image (world st)) as [n w].
    intros H.
    destruct n as [ | p | p ]; [ | do 4 (try destruct p as [ p | p | ]) | ];
      inversion H; cbn; auto 6.
Qed.

Lemma getAngle_right_angle (a : Angle) :
  0 < a <= GoInt.max_int -> In (getAngle a) [0; 90; 180; 270].
Proof.
  intros Ha. rewrite getAngle_formula by lia.
  assert (Hq : 0 <= a / 90) by (apply Z.div_pos; lia).
  cbn [In].
  assert (a / 90 = 0 \/ a / 90 = 1 \/ a / 90 = 2 \/ 3 <= a / 90) by lia.
  lia.
Qed.

(** X20.  [rotateAndFlipImage] calls [vipsRotate] with a right angle only:
    whether the rotation comes from the options or from the EXIF
    orientation, the angle passed is 0, 90, 180 or 270.  So the function
    behaves the same on two bindings whose [vipsRotate] agree on these four
    angles. *)
Theorem rotateAndFlipImage_rotates_by_right_angles :
  forall (World Image : Type) (vips : Vips World Image)
    (f : ptr Image -> Angle -> World -> (ptr Image * option error) * World)
    (image : ptr Image) (o : Options) (st : State World Image),
    (forall (img : ptr Image) (a : Angle),
        In a [0; 90; 180; 270] -> f img a = vipsRotate vips img a) ->
    Rotate o <= GoInt.max_int ->
    rotateAndFlipImage (with_vipsRotate f vips) image o st =
    rotateAndFlipImage vips image o st.
Proof.
  intros World Image vips f image o st Hf Hmax.
  unfold rotateAndFlipImage.
  change (vipsRotate (with_vipsRotate f vips)) with f.
  change (vipsFlip (with_vipsRotate f vips)) with (vipsFlip vips).
  change (calculateRotationAndFlip (with_vipsRotate f vips) image (Rotate o))
    with (calculateRotationAndFlip vips image (Rotate o)).
  destruct (negb (NoAutoRotate o)).
  - unfold bind at 1. symmetry. unfold bind at 1. symmetry.
    unfold bind at 1. symmetry. unfold bind at 1. symmetry.
    destruct (calculateRotationAndFlip vips image (Rotate o) st)
      as [[rotation flip] st1 | ] eqn:Hexif; [ | reflexivity ].
    pose proof (calculateRotationAndFlip_range vips image (Rotate o) st st1 rotation
                  flip Hexif) as Hrange.
    cbv beta iota zeta delta [ret].
    set (o' := if (rotation >? 0) && (Rotate (if flip then set_Flip flip o else o) =? 0)
               then set_Rotate rotation (if flip then set_Flip flip o else o)
               else if flip then set_Flip flip o else o).
    assert (Ho' : Rotate o' <= GoInt.max_int).
    { unfold o'.
      assert (Hr : rotation <= GoInt.max_int)
        by (unfold GoInt.max_int; cbn [In] in Hrange; lia).
      destruct ((rotation >? 0) && (Rotate (if flip then set_Flip flip o else o) =? 0));
        destruct flip; cbn [Rotate set_Rotate set_Flip]; assumption. }
    clearbody o'.
    destruct (Z.gtb_spec (Rotate o') 0) as [Hpos | ]; [ | reflexivity ].
    rewrite (Hf image (getAngle (Rotate o'))) by (apply getAngle_right_angle; lia).
    reflexivity.
  - cbv beta iota zeta delta [ret].
    unfold bind at 1. symmetry. unfold bind at 1. symmetry.
    destruct (Z.gtb_spec (Rotate o) 0) as [Hpos | ]; [ | reflexivity ].
    rewrite (Hf image (getAngle (Rotate o))) by (apply getAngle_right_angle; lia).
    reflexivity.
Qed.

(** A rotation by 100 degrees on a binding that rotates by right angles
    only: the binding is asked for 90 degrees and does not fail. *)
Lemma rotateAndFlipImage_rotates_by_right_angles_witness :
  rotateAndFlipImage right_angles_only (Some (100, 50)) rotate_100 Double.start =
  rotateAndFlipImage Double.ok (Some (100, 50)) rotate_100 Double.start.
Proof.
  apply (rotateAndFlipImage_rotates_by_right_angles _ _ Double.ok).
  - intros img a Ha. cbn [In] in Ha.
    destruct Ha as [<- | [<- | [<- | [<- | []]]]]; reflexivity.
  - vm_compute. discriminate.
Defined.

(** X21.  When the shrink is above 1 or Force is set, [transformImage] does
    not use the residual it is given: after an integral shrink the residual
    is recomputed from the size of the shrunk image, and under Force the two
    scales are Width and Height over the size of the image.  The residual
    that [process] computes matters only for a shrink of 1 without Force. *)
Theorem transformImage_ignores_residual :
  forall (World Image : Type) (vips : Vips World Image) (image : ptr Image)
    (o : Options) (shrink : Z) (residual residual' : float64)
    (st : State World Image),
    1 < shrink \/ Force o = true ->
    transformImage vips image o shrink residual st =
    transformImage vips image o shrink residual' st.
Proof.
  intros World Image vips image o shrink residual residual' st H.
  unfold transformImage.
  destruct (Z.gtb_spec shrink 1) as [Hs | Hs].
  - reflexivity.
  - destruct H as [H | HF]; [ lia | ].
    rewrite HF. cbn [orb]. reflexivity.
Qed.

(** A forced resize of a 100x100 image to 200x200, with the residuals 2
    and 1/2. *)
Lemma transformImage_ignores_residual_witness :
  transformImage Double.ok (Some (100, 100)) (set_Force true bare_200x200) 1
    (F64.of_int 2) Double.start =
  transformImage Double.ok (Some (100, 100)) (set_Force true bare_200x200) 1
    F64.half Double.start.
Proof.
  apply (transformImage_ignores_residual _ _ Double.ok (Some (100, 100))
           (set_Force true bare_200x200) 1 (F64.of_int 2) F64.half Double.start).
  right. reflexivity.
Defined.

(** X22.  An output type that is not supported is refused before anything
    else: [process] returns the handle and the buffer it was given, nil or
    not, with a new error, without calling the binding and with no stage run
    but the check; and [Process] returns that error and leaves the receiver
    as it was, buffer included. *)
Theorem unsupported_type_is_refused_first :
  forall (World Image : Type) (vips : Vips World Image),
    (forall (image0 : ptr Image) (imageType : ImageType) (o : Options)
       (buf : list Byte.byte) (st : State World Image),
        IsTypeSupported vips (Type_ o) = false ->
        exists st' : State World Image,
          process vips image0 imageType o buf st =
          Returned (image0, Some (errors_New "Unsupported image output type"), buf) st'
          /\ world st' = world st
          /\ map ev_stage (history st') = map ev_stage (history st) ++ [StageOutputType])
    /\ (forall (i : VipsImage) (o : Options) (st : State World Image),
           IsTypeSupported vips (Type_ (applyDefaults vips o (imageType i))) = false ->
           exists st' : State World Image,
             Process vips i o st =
             Returned (i, Some (errors_New "Unsupported image output type")) st'
             /\ world st' = world st).
Proof.
  intros World Image vips.
  assert (Hp : forall (image0 : ptr Image) (imageType : ImageType) (o : Options)
       (buf : list Byte.byte) (st : State World Image),
        IsTypeSupported vips (Type_ o) = false ->
        process vips image0 imageType o buf st =
        Returned (image0, Some (errors_New "Unsupported image output type"), buf)
          (mkState (world st)
             (history st ++
              [mkStageEvent StageOutputType image0 image0
                 (Some (errors_New "Unsupported image output type")) (world st)]))).
  { intros image0 imageType o buf st Hsup.
    unfold process. rewrite Hsup. reflexivity. }
  split.
  - intros image0 imageType o buf st Hsup.
    eexists. split; [ apply Hp; exact Hsup | ].
    split; [ reflexivity | ].
    cbn [history]. rewrite map_app. reflexivity.
  - intros i o st Hsup.
    eexists. split.
    + unfold Process, bind. rewrite (Hp _ _ _ _ _ Hsup).
      destruct i; reflexivity.
    + reflexivity.
Qed.

(** The zero options for an input of unknown type. *)
Lemma unsupported_type_is_refused_first_witness :
  exists st' : State Double.World Double.Image,
    Process Double.ok (mkVipsImage (Some (100, 100)) [Byte.x00] UNKNOWN) unknown_output
      Double.start =
    Returned (mkVipsImage (Some (100, 100)) [Byte.x00] UNKNOWN,
              Some (errors_New "Unsupported image output type")) st'
    /\ world st' = world Double.start.
Proof.
  apply (proj2 (unsupported_type_is_refused_first _ _ Double.ok)
           (mkVipsImage (Some (100, 100)) [Byte.x00] UNKNOWN) unknown_output
           Double.start).
  reflexivity.
Defined.

(** X23.  [resizer] releases one handle, the one [vipsSave] returned, and
    only when the saving was reached.  When the loading or [process] fails
    it returns that error and no bytes, and releases neither the loaded
    handle nor the one [process] returned.  When [vipsSave] fails it returns
    the error together with the bytes [vipsSave] returned.  In every case
    [vips_thread_shutdown] is the last thing it does. *)
Theorem resizer_releases_only_after_saving :
  forall (World Image : Type) (vips : Vips World Image) (io : VipsIO World Image)
    (buf : list Byte.byte) (o : Options) (st : State World Image),
    (forall (img : ptr Image) (t : ImageType) (e : error) (st1 : State World Image),
        loadImage io buf st = Returned (img, t, Some e) st1 ->
        resizer vips io buf o st =
        Returned ([], Some e)
          (mkState (vips_thread_shutdown io (world st1)) (history st1)))
    /\ (forall (img h : ptr Image) (t : ImageType) (e : error) (b : list Byte.byte)
          (st1 st2 : State World Image),
          loadImage io buf st = Returned (img, t, None) st1 ->
          process vips img t (applyDefaults vips o t) buf st1 =
            Returned (h, Some e, b) st2 ->
          resizer vips io buf o st =
          Returned ([], Some e)
            (mkState (vips_thread_shutdown io (world st2)) (history st2)))
    /\ (forall (img h saved : ptr Image) (t : ImageType) (b out : list Byte.byte)
          (serr : option error) (w : World) (st1 st2 : State World Image),
          loadImage io buf st = Returned (img, t, None) st1 ->
          process vips img t (applyDefaults vips o t) buf st1 =
            Returned (h, None, b) st2 ->
          vipsSave io h (saveOptionsOf (applyDefaults vips o t)) (world st2) =
            ((out, saved, serr), w) ->
          resizer vips io buf o st =
          Returned (out, serr)
            (mkState (vips_thread_shutdown io (g_object_unref io saved w))
               (history st2))).
Proof.
  intros World Image vips io buf o st.
  split; [ | split ].
  - intros img t e st1 Hload.
    unfold resizer. cbv beta iota zeta delta [bind ret]. rewrite Hload.
    reflexivity.
  - intros img h t e b st1 st2 Hload Hproc.
    unfold resizer. cbv beta iota zeta delta [bind ret]. rewrite Hload, Hproc.
    reflexivity.
  - intros img h saved t b out serr w st1 st2 Hload Hproc Hsave.
    unfold resizer, saveImage. cbv beta iota zeta delta [bind ret].
    rewrite Hload, Hproc. cbv beta iota zeta delta [native]. rewrite Hsave.
    reflexivity.
Qed.

(** A save that fails after a resize that worked: the error comes with the
    byte the binding returned, and the handle it returned is released. *)
Lemma resizer_releases_only_after_saving_witness :
  exists st' : State Double.World Double.Image,
    resizer Double.ok save_fails [Byte.xff] bare_200x200 Double.start =
    Returned ([Byte.x00], Some (VipsError "vipsSave")) st'
    /\ world st' =
       ["vipsRead"; "vipsExifOrientation"; "vipsAffine"; "vipsSave";
        "g_object_unref"; "vips_thread_shutdown"]%string.
Proof.
  destruct (loadImage save_fails [Byte.xff] Double.start)
    as [[[img t] lerr] st1 | ] eqn:Hload; [ | vm_compute in Hload; discriminate ].
  assert (Hl : img = Some (100, 100) /\ t = JPEG /\ lerr = None)
    by (vm_compute in Hload; inversion Hload; repeat split).
  destruct Hl as (-> & -> & ->).
  destruct (process Double.ok (Some (100, 100)) JPEG
              (applyDefaults Double.ok bare_200x200 JPEG) [Byte.xff] st1)
    as [[[h perr] b] st2 | ] eqn:Hproc.
  2: { vm_compute in Hload. inversion Hload; subst. vm_compute in Hproc. discriminate. }
  assert (Hp : h = Some (200, 200) /\ perr = None
               /\ world st2 = ["vipsRead"; "vipsExifOrientation"; "vipsAffine"]%string).
  { vm_compute in Hload. inversion Hload; subst.
    vm_compute in Hproc. inversion Hproc; subst. repeat split. }
  destruct Hp as (-> & -> & Hw2).
  eexists. split.
  - apply (proj2 (proj2 (resizer_releases_only_after_saving _ _ Double.ok save_fails
                           [Byte.xff] bare_200x200 Double.start))
             _ _ None _ _ [Byte.x00] (Some (VipsError "vipsSave"))
             (world st2 ++ ["vipsSave"%string]) _ _ Hload Hproc).
    reflexivity.
  - cbn [world]. rewrite Hw2. reflexivity.
Defined.
